(** * The math arcade game: problem generator, entity kinematics, session rules

    A shallow embedding of [enhanced-math-game(1).py]: the procedural
    problem generator ([Problem]), the motion rules of [Player], [Enemy]
    and [Bullet], the particles ([Particle], [ParticleSystem]), and the
    score/level/streak rules of [Game]; and of the wrong-answer
    generator of the earlier variant appended to that file
    ([pygame_o1 copy.py], module [o1_copy]).

    Conventions.
    - Python [int]s are [Z].  Floor division and modulo are [Z.div] and
      [Z.modulo], which agree with Python's [//] and [%].
    - An answer is a Python number ([pynum]): an [int], or a [float] that
      holds a decimal fraction (the generator only produces table values
      with three decimals and values rounded to two decimals).
    - Positions, headings and timers are Python [float]s; they are read
      as real numbers ([R]), and rounding is not part of that model.
      The statements about them rest on the assignments, the clamps and
      the comparisons the code makes and on bounds that rounding keeps,
      not on identities of exact arithmetic.  Where rounding decides a
      statement (the normalisation in [Bullet.__init__]) the function
      is modelled once more over binary64, in the module [binary64].
    - The [random] module is an oracle: a [Source] of raw draws that the
      library functions map into the requested range.  Every draw
      sequence is a possible run.
    - [while] loops take fuel; [OutOfFuel] is the run that has not
      returned yet.
    - Rendering data (colours, glow surfaces, fonts) is left out.  For
      the entities and the session, the particle system and the sound
      manager are sinks: calls to them are logged as [effect]s with
      their position arguments.  [ParticleSystem] itself is modelled on
      its own. *)

From Stdlib Require Import ZArith List Ascii String Bool Lia DecimalString.
From Stdlib Require Import Permutation Reals Lra.
From Stdlib Require Floats.
Import ListNotations.

Local Open Scope string_scope.
Local Open Scope list_scope.
Local Open Scope Z_scope.

(** ** Python values and outcomes *)

Inductive PyExn : Type :=
| ValueError
| ZeroDivisionError
| AttributeError
| IndexError
| OverflowError.

Inductive outcome (A : Type) : Type :=
| Ok (a : A)
| Raise (e : PyExn)
| OutOfFuel.

Arguments Ok {A} a.
Arguments Raise {A} e.
Arguments OutOfFuel {A}.

(** A Python number.  [PyFloat m] is the float whose value is [m]
    thousandths; [PyInt z] has [1000 * z] thousandths.  Python compares
    ints and floats by value, and so does [py_eqb]. *)
Inductive pynum : Type :=
| PyInt (z : Z)
| PyFloat (milli : Z).

Module Num.

Definition milli (a : pynum) : Z :=
  match a with
  | PyInt z => 1000 * z
  | PyFloat m => m
  end.

Definition py_eqb (a b : pynum) : bool := milli a =? milli b.

Definition py_add (a b : pynum) : pynum :=
  match a, b with
  | PyInt x, PyInt y => PyInt (x + y)
  | _, _ => PyFloat (milli a + milli b)
  end.

Definition py_sub (a b : pynum) : pynum :=
  match a, b with
  | PyInt x, PyInt y => PyInt (x - y)
  | _, _ => PyFloat (milli a - milli b)
  end.

Definition py_neg (a : pynum) : pynum :=
  match a with
  | PyInt x => PyInt (- x)
  | PyFloat m => PyFloat (- m)
  end.

(** [a * k] for an int [k]. *)
Definition py_mul_int (a : pynum) (k : Z) : pynum :=
  match a with
  | PyInt x => PyInt (x * k)
  | PyFloat m => PyFloat (m * k)
  end.

(** [a // 2]: floor division; on a float the result is a float. *)
Definition py_floordiv2 (a : pynum) : pynum :=
  match a with
  | PyInt x => PyInt (x / 2)
  | PyFloat m => PyFloat (1000 * (m / 2000))
  end.

(** [abs(a)], in thousandths. *)
Definition abs_milli (a : pynum) : Z := Z.abs (milli a).

(** [int(abs(a) * 0.2)] and [int(abs(a) * 0.5)]. *)
Definition int_abs_fifth (a : pynum) : Z := abs_milli a / 5000.
Definition int_abs_half (a : pynum) : Z := abs_milli a / 2000.

(** [int(a)]: truncation toward zero. *)
Definition py_int (a : pynum) : Z := Z.quot (milli a) 1000.

(** [a >= 0]. *)
Definition nonneg (a : pynum) : bool := 0 <=? milli a.

Definition str_of_Z (z : Z) : string := NilZero.string_of_int (Z.to_int z).

(** [int(str(n)[::-1])] for an int [n >= 0]. *)
Definition reverse_digits (n : Z) : Z :=
  Z.of_N (N.of_uint (Decimal.rev (N.to_uint (Z.to_N n)))).

(** [math.pi] to the sixteen digits a float carries, times [10^15]. *)
Definition pi_e15 : Z := 3141592653589793.

(** [round(math.pi * k, 2)] for an int [k >= 0], a float. *)
Definition round2_pi_times (k : Z) : pynum :=
  PyFloat (10 * ((pi_e15 * k + 5 * 10 ^ 12) / 10 ^ 13)).

(** [round(a / b, 2)] for ints [a], [b] with [b <> 0]: nearest hundredth
    of the quotient. *)
Definition round2_div (a b : Z) : pynum :=
  PyFloat (10 * ((200 * a + b) / (2 * b))).

End Num.

(** ** The random oracle *)

Record Source : Type := mkSource {
  ints : nat -> Z;
  reals : nat -> R
}.

Definition Rand (A : Type) : Type := Source -> outcome (A * Source).

Definition ret {A} (a : A) : Rand A := fun s => Ok (a, s).

Definition bind {A B} (c : Rand A) (k : A -> Rand B) : Rand B :=
  fun s =>
    match c s with
    | Ok (a, s') => k a s'
    | Raise e => Raise e
    | OutOfFuel => OutOfFuel
    end.

Definition raise {A} (e : PyExn) : Rand A := fun _ => Raise e.

Definition out_of_fuel {A} : Rand A := fun _ => OutOfFuel.

Definition lift {A} (o : outcome A) : Rand A :=
  fun s =>
    match o with
    | Ok a => Ok (a, s)
    | Raise e => Raise e
    | OutOfFuel => OutOfFuel
    end.

Notation "x <- c1 ;; c2" := (bind c1 (fun x => c2))
  (at level 61, c1 at next level, right associativity).

Module random.

Definition next_int : Rand Z :=
  fun s => Ok (ints s 0%nat, mkSource (fun n => ints s (S n)) (reals s)).

Definition next_real : Rand R :=
  fun s => Ok (reals s 0%nat, mkSource (ints s) (fun n => reals s (S n))).

(** [random.randint(a, b)]: an int in [a..b]; [ValueError] on an empty
    range. *)
Definition randint (a b : Z) : Rand Z :=
  if b <? a then raise ValueError
  else z <- next_int ;; ret (a + z mod (b - a + 1)).

(** [random.choice(seq)]: [IndexError] on an empty sequence. *)
Definition choice {A} (seq : list A) : Rand A :=
  match seq with
  | [] => raise IndexError
  | d :: _ =>
      z <- next_int ;;
      ret (nth (Z.to_nat (z mod Z.of_nat (List.length seq))) seq d)
  end.

(** [random.random()]: a float in [0, 1). *)
Definition random : Rand R :=
  u <- next_real ;; ret (frac_part u).

(** [random.uniform(a, b)]. *)
Definition uniform (a b : R) : Rand R :=
  u <- random ;; ret (a + (b - a) * u)%R.

(** [x[i] = v] on a list, for [i] within range. *)
Fixpoint list_set {A} (x : list A) (i : nat) (v : A) : list A :=
  match x, i with
  | [], _ => []
  | _ :: t, O => v :: t
  | h :: t, S i' => h :: list_set t i' v
  end.

(** [x[i], x[j] = x[j], x[i]]. *)
Definition swap {A} (x : list A) (i j : nat) : list A :=
  match nth_error x i, nth_error x j with
  | Some a, Some b => list_set (list_set x i b) j a
  | _, _ => x
  end.

(** [random.shuffle(x)]: for [i] from [len(x) - 1] down to [1], swap
    [x[i]] with [x[j]] for a drawn [j] in [0..i]. *)
Fixpoint shuffle_from {A} (i : nat) (x : list A) : Rand (list A) :=
  match i with
  | O => ret x
  | S i' =>
      j <- randint 0 (Z.of_nat i) ;;
      shuffle_from i' (swap x i (Z.to_nat j))
  end.

Definition shuffle {A} (x : list A) : Rand (list A) :=
  shuffle_from (List.length x - 1)%nat x.

End random.

Definition source_of (zs : list Z) (rs : list R) : Source :=
  mkSource (fun n => nth n zs 0) (fun n => nth n rs 0%R).

(** ** Problem: the procedural problem generator *)

(** The operator strings ['+'], ['-'], ['×'], ['÷'], ['^2'], ['√'],
    ['^3'] and ['^']. *)
Inductive op : Type :=
| Add | Sub | Mul | Div | Square | Root | Cube | Power.

Definition op_text (o : op) : string :=
  match o with
  | Add => "+"
  | Sub => "-"
  | Mul => "×"
  | Div => "÷"
  | Square => "^2"
  | Root => "√"
  | Cube => "^3"
  | Power => "^"
  end.

Definition op_eqb (a b : op) : bool :=
  match a, b with
  | Add, Add | Sub, Sub | Mul, Mul | Div, Div
  | Square, Square | Root, Root | Cube, Cube | Power, Power => true
  | _, _ => false
  end.

Module Problem.

Import Num random.

(** A generated problem.  [num1], [num2], [num3] and [operator] are the
    attributes that only some families set ([hasattr] is [Some]). *)
Record t : Type := mk {
  difficulty : Z;
  max_difficulty : Z;
  num1 : option Z;
  num2 : option Z;
  num3 : option Z;
  operator : option op;
  correct_answer : pynum;
  problem_text : string
}.

Definition str (z : Z) : string := str_of_Z z.

(** [_calculate_answer], reading [self.operator], [self.num1] and
    [self.num2]. *)
Definition _calculate_answer (operator : option op) (num1 num2 : option Z)
  : outcome pynum :=
  match operator with
  | None => Ok (PyInt 0)
  | Some o =>
      match o, num1, num2 with
      | Add, Some a, Some b => Ok (PyInt (a + b))
      | Sub, Some a, Some b => Ok (PyInt (a - b))
      | Mul, Some a, Some b => Ok (PyInt (a * b))
      | Div, Some a, Some b =>
          if b =? 0 then Raise ZeroDivisionError
          else if a mod b =? 0 then Ok (PyInt (a / b))
          else Ok (round2_div a b)
      | (Add | Sub | Mul | Div), _, _ => Raise AttributeError
      | _, _, _ => Ok (PyInt 0)
      end
  end.

(** Difficulty 1-3: addition and subtraction. *)
Definition _generate_basic_arithmetic (difficulty : Z) : Rand t :=
  let max_num := 10 * difficulty in
  n1 <- randint 1 max_num ;;
  n2 <- randint 1 max_num ;;
  r <- (if difficulty =? 1 then ret (Add, n1, n2)
        else
          o <- choice [Add; Sub] ;;
          if op_eqb o Sub && (n2 >? n1) then ret (o, n2, n1)
          else ret (o, n1, n2)) ;;
  let '(o, n1, n2) := r in
  answer <- lift (_calculate_answer (Some o) (Some n1) (Some n2)) ;;
  ret {| difficulty := difficulty; max_difficulty := 15;
         num1 := Some n1; num2 := Some n2; num3 := None;
         operator := Some o; correct_answer := answer;
         problem_text := (str n1 ++ " " ++ op_text o ++ " " ++ str n2)%string |}.

(** Difficulty 4-6: the four basic operations. *)
Definition _generate_intermediate_arithmetic (difficulty : Z) : Rand t :=
  let max_num := 8 * difficulty in
  let small_max := max_num / 2 in
  n1 <- randint 2 max_num ;;
  o <- (if difficulty <=? 4 then choice [Add; Sub; Mul]
        else choice [Add; Sub; Mul; Div]) ;;
  r <- match o with
       | Add | Sub =>
           n2 <- randint 1 max_num ;;
           if op_eqb o Sub && (n2 >? n1) then ret (n2, Some n1)
           else ret (n1, Some n2)
       | Mul =>
           n2 <- randint 2 small_max ;;
           ret (n1, Some n2)
       | Div =>
           n2 <- randint 2 small_max ;;
           k <- randint 1 10 ;;
           ret (n2 * k, Some n2)
       | _ => ret (n1, None)
       end ;;
  let '(n1, n2) := r in
  answer <- lift (_calculate_answer (Some o) (Some n1) n2) ;;
  match n2 with
  | None => raise AttributeError
  | Some b =>
      ret {| difficulty := difficulty; max_difficulty := 15;
             num1 := Some n1; num2 := Some b; num3 := None;
             operator := Some o; correct_answer := answer;
             problem_text := (str n1 ++ " " ++ op_text o ++ " " ++ str b)%string |}
  end.

(** The four mixed two-operator shapes of difficulty 7-9. *)
Definition mixed_ops : list (op * (Z -> Z -> Z -> Z)) :=
  [ (Add, fun a b c => a * b + c);
    (Sub, fun a b c => a * b - c);
    (Add, fun a b c => a + b * c);
    (Sub, fun a b c => a - b * c) ].

(** Difficulty 7-9: powers, roots and mixed operations. *)
Definition _generate_advanced_arithmetic (difficulty : Z) : Rand t :=
  operation_type <- randint 1 5 ;;
  if operation_type =? 1 then
    n1 <- randint 2 20 ;;
    ret {| difficulty := difficulty; max_difficulty := 15;
           num1 := Some n1; num2 := None; num3 := None;
           operator := Some Square; correct_answer := PyInt (n1 ^ 2);
           problem_text := (str n1 ++ op_text Square)%string |}
  else if operation_type =? 2 then
    result <- randint 2 15 ;;
    let n1 := result ^ 2 in
    ret {| difficulty := difficulty; max_difficulty := 15;
           num1 := Some n1; num2 := None; num3 := None;
           operator := Some Root; correct_answer := PyInt result;
           problem_text := (op_text Root ++ str n1)%string |}
  else if operation_type =? 3 then
    n1 <- randint 2 10 ;;
    ret {| difficulty := difficulty; max_difficulty := 15;
           num1 := Some n1; num2 := None; num3 := None;
           operator := Some Cube; correct_answer := PyInt (n1 ^ 3);
           problem_text := (str n1 ++ op_text Cube)%string |}
  else if operation_type =? 4 then
    n1 <- randint 2 8 ;;
    n2 <- randint 2 4 ;;
    ret {| difficulty := difficulty; max_difficulty := 15;
           num1 := Some n1; num2 := Some n2; num3 := None;
           operator := Some Power; correct_answer := PyInt (n1 ^ n2);
           problem_text := (str n1 ++ op_text Power ++ str n2)%string |}
  else
    n1 <- randint 2 15 ;;
    n2 <- randint 2 10 ;;
    n3 <- randint 2 20 ;;
    op_choice <- choice mixed_ops ;;
    let o := fst op_choice in
    product_first <- choice [true; false] ;;
    ret {| difficulty := difficulty; max_difficulty := 15;
           num1 := Some n1; num2 := Some n2; num3 := Some n3;
           operator := Some o;
           correct_answer := PyInt (snd op_choice n1 n2 n3);
           problem_text :=
             (if product_first : bool
              then str n1 ++ "×" ++ str n2 ++ op_text o ++ str n3
              else str n1 ++ op_text o ++ str n2 ++ "×" ++ str n3)%string |}.

(** A problem of difficulty 10-15: only the answer and the text are set. *)
Definition plain (difficulty : Z) (answer : pynum) (text : string) : t :=
  {| difficulty := difficulty; max_difficulty := 15;
     num1 := None; num2 := None; num3 := None; operator := None;
     correct_answer := answer; problem_text := text |}.

(** Difficulty 10-12: linear equations and a two-variable system. *)
Definition _generate_simple_algebra (difficulty : Z) : Rand t :=
  equation_type <- randint 1 3 ;;
  if equation_type =? 1 then
    a <- randint 1 8 ;;
    x <- randint 1 12 ;;
    b <- randint 1 20 ;;
    let c := a * x + b in
    ret (plain difficulty (PyInt x)
           (str a ++ "x + " ++ str b ++ " = " ++ str c ++ ", x = ?")%string)
  else if equation_type =? 2 then
    a <- randint 1 8 ;;
    x <- randint 1 12 ;;
    b <- randint 1 20 ;;
    let c := a * x - b in
    ret (plain difficulty (PyInt x)
           (str a ++ "x - " ++ str b ++ " = " ++ str c ++ ", x = ?")%string)
  else
    x <- randint 1 20 ;;
    y <- randint 1 20 ;;
    let a := x + y in
    let b := x - y in
    ask_x <- choice [true; false] ;;
    if ask_x : bool then
      ret (plain difficulty (PyInt x)
             ("If x + y = " ++ str a ++ " and x - y = " ++ str b
              ++ ", then x = ?")%string)
    else
      ret (plain difficulty (PyInt y)
             ("If x + y = " ++ str a ++ " and x - y = " ++ str b
              ++ ", then y = ?")%string).

(** The quadratic family of difficulty 13-15, for the drawn roots [x1]
    and [x2]: the equation is [(x - x1)(x - x2) = 0]. *)
Definition quadratic (difficulty x1 x2 : Z) : t :=
  let b := - (x1 + x2) in
  let c := x1 * x2 in
  let answer := if Z.abs x1 <=? Z.abs x2 then x1 else x2 in
  let b_term :=
    if b >? 0 then ("+ " ++ str b ++ "x ")%string
    else if b <? 0 then ("- " ++ str (Z.abs b) ++ "x ")%string
    else ""%string in
  let c_term :=
    if c >? 0 then ("+ " ++ str c ++ " ")%string
    else if c <? 0 then ("- " ++ str (Z.abs c) ++ " ")%string
    else ""%string in
  let equation := ("x² " ++ b_term ++ c_term ++ "= 0")%string in
  plain difficulty (PyInt answer)
    ("Smaller solution of " ++ equation ++ " = ?")%string.

(** Sine and cosine of the common angles, as tabulated. *)
Definition sin_choices : list (Z * pynum) :=
  [ (0, PyInt 0); (30, PyFloat 500); (45, PyFloat 707);
    (60, PyFloat 866); (90, PyInt 1) ].

Definition cos_choices : list (Z * pynum) :=
  [ (0, PyInt 1); (30, PyFloat 866); (45, PyFloat 707);
    (60, PyFloat 500); (90, PyInt 0) ].

(** The geometry family of difficulty 13-15. *)
Definition geometry (difficulty : Z) : Rand t :=
  shape <- choice ["square"; "circle"; "triangle"; "rectangle"] ;;
  if String.eqb shape "square" then
    side <- randint 3 15 ;;
    area <- choice [true; false] ;;
    if area : bool then
      ret (plain difficulty (PyInt (side * side))
             ("Area of square with side " ++ str side ++ " = ?")%string)
    else
      ret (plain difficulty (PyInt (4 * side))
             ("Perimeter of square with side " ++ str side ++ " = ?")%string)
  else if String.eqb shape "circle" then
    radius <- randint 1 10 ;;
    area <- choice [true; false] ;;
    if area : bool then
      ret (plain difficulty (round2_pi_times (radius * radius))
             ("Area of circle with radius " ++ str radius ++ " ≈ ?")%string)
    else
      ret (plain difficulty (round2_pi_times (2 * radius))
             ("Circumference of circle with radius " ++ str radius
              ++ " ≈ ?")%string)
  else if String.eqb shape "triangle" then
    base <- randint 5 20 ;;
    height <- randint 5 15 ;;
    ret (plain difficulty (PyInt ((base * height) / 2))
           ("Area of triangle with base " ++ str base ++ " and height "
            ++ str height ++ " = ?")%string)
  else
    length <- randint 5 20 ;;
    width <- randint 3 15 ;;
    area <- choice [true; false] ;;
    if area : bool then
      ret (plain difficulty (PyInt (length * width))
             ("Area of rectangle with length " ++ str length
              ++ " and width " ++ str width ++ " = ?")%string)
    else
      ret (plain difficulty (PyInt (2 * (length + width)))
             ("Perimeter of rectangle with length " ++ str length
              ++ " and width " ++ str width ++ " = ?")%string).

(** Difficulty 13-15: trigonometry, quadratics, geometry, logarithms. *)
Definition _generate_advanced_math (difficulty : Z) : Rand t :=
  problem_type <- randint 1 5 ;;
  if problem_type =? 1 then
    c <- choice sin_choices ;;
    ret (plain difficulty (snd c) ("sin(" ++ str (fst c) ++ "°) = ?")%string)
  else if problem_type =? 2 then
    c <- choice cos_choices ;;
    ret (plain difficulty (snd c) ("cos(" ++ str (fst c) ++ "°) = ?")%string)
  else if problem_type =? 3 then
    x1 <- randint (-5) 5 ;;
    x2 <- randint (-5) 5 ;;
    ret (quadratic difficulty x1 x2)
  else if problem_type =? 4 then
    geometry difficulty
  else
    base <- choice [2; 10] ;;
    power <- randint 1 5 ;;
    logarithm <- choice [true; false] ;;
    if logarithm : bool then
      let result := base ^ power in
      ret (plain difficulty (PyInt power)
             ("log" ++ str base ++ "(" ++ str result ++ ") = ?")%string)
    else
      ret (plain difficulty (PyInt (base ^ power))
             (str base ++ "^" ++ str power ++ " = ?")%string).

(** [generate]: the family is a step function of the difficulty. *)
Definition generate (difficulty : Z) : Rand t :=
  let diff := Z.min difficulty 15 in
  if diff <=? 3 then _generate_basic_arithmetic difficulty
  else if diff <=? 6 then _generate_intermediate_arithmetic difficulty
  else if diff <=? 9 then _generate_advanced_arithmetic difficulty
  else if diff <=? 12 then _generate_simple_algebra difficulty
  else _generate_advanced_math difficulty.

(** [Problem(difficulty)]. *)
Definition __init__ (difficulty : Z) : Rand t := generate difficulty.

(** *** Wrong answers *)

(** [wrong in wrong_answers], by value. *)
Definition mem (wrong : pynum) (wrong_answers : list pynum) : bool :=
  existsb (py_eqb wrong) wrong_answers.

(** The operand-confusion strategies: [self.num1 <f> self.num2] when both
    operands exist and the operator is not [o], else [fallback]. *)
Definition confuse (self : t) (o : op) (f : Z -> Z -> Z) (fallback : pynum)
  : Rand pynum :=
  match num1 self, num2 self with
  | Some a, Some b =>
      match operator self with
      | None => raise AttributeError
      | Some o' => if negb (op_eqb o' o) then ret (PyInt (f a b))
                   else ret fallback
      end
  | _, _ => ret fallback
  end.

(** Digit reversal; [int] of the reversed text of a float is a
    [ValueError], since that text holds a decimal point. *)
Definition reverse_strategy (correct : pynum) : Rand pynum :=
  if abs_milli correct >? 9000 then
    match correct with
    | PyInt z => ret (PyInt (reverse_digits (Z.abs z) * (if 0 <=? z then 1 else -1)))
    | PyFloat _ => raise ValueError
    end
  else ret (py_add correct (PyInt 2)).

(** The thirteen strategies, in the order of the source list. *)
Definition strategies (self : t) : list (Rand pynum) :=
  let correct := correct_answer self in
  [ (r <- randint 1 (Z.max 2 (int_abs_fifth correct)) ;;
     ret (py_add correct (PyInt r)));
    (r <- randint 1 (Z.max 2 (int_abs_fifth correct)) ;;
     ret (py_sub correct (PyInt r)));
    ret (py_mul_int correct 2);
    (if negb (py_eqb correct (PyInt 0)) then ret (py_floordiv2 correct)
     else ret (PyInt 1));
    ret (py_neg correct);
    confuse self Add Z.add (py_add correct (PyInt 1));
    confuse self Sub Z.sub (py_sub correct (PyInt 1));
    confuse self Mul Z.mul (py_mul_int correct 2);
    ret (py_add correct (PyInt 1));
    ret (py_sub correct (PyInt 1));
    reverse_strategy correct;
    (r <- randint 3 (Z.max 5 (int_abs_half correct)) ;;
     ret (py_add correct (PyInt r)));
    (r <- randint 3 (Z.max 5 (int_abs_half correct)) ;;
     ret (py_sub correct (PyInt r))) ].

Definition len {A} (l : list A) : Z := Z.of_nat (List.length l).

(** The acceptance test of the first loop. *)
Definition plausible (correct wrong : pynum) (wrong_answers : list pynum)
  : bool :=
  let max_diff := Z.max 10000 (abs_milli correct * 2) in
  negb (py_eqb wrong correct)
  && negb (mem wrong wrong_answers)
  && (Z.abs (milli wrong - milli correct) <=? max_diff)
  && (abs_milli wrong <=? abs_milli correct * 5).

(** The first loop: draw a strategy, keep its answer if plausible.  The
    set [wrong_answers] is a list without repeated values, newest last. *)
Fixpoint strategy_loop (fuel : nat) (self : t) (count : Z)
  (wrong_answers : list pynum) : Rand (list pynum) :=
  if (len wrong_answers <? count)
     && (len wrong_answers <? len (strategies self))
  then
    match fuel with
    | O => out_of_fuel
    | S fuel' =>
        strategy <- choice (strategies self) ;;
        wrong <- strategy ;;
        if plausible (correct_answer self) wrong wrong_answers
        then strategy_loop fuel' self count (wrong_answers ++ [wrong])
        else strategy_loop fuel' self count wrong_answers
    end
  else ret wrong_answers.

(** [int(correct * random.uniform(0.2, 1.8))]: some int between the
    truncations of [0.2 * correct] and [1.8 * correct]. *)
Definition scaled_draw (correct : pynum) : Rand Z :=
  let t1 := Z.quot (milli correct * 2) 10000 in
  let t2 := Z.quot (milli correct * 18) 10000 in
  randint (Z.min t1 t2) (Z.max t1 t2).

(** The second loop: random fill. *)
Fixpoint fill_loop (fuel : nat) (self : t) (count : Z)
  (wrong_answers : list pynum) : Rand (list pynum) :=
  if len wrong_answers <? count then
    match fuel with
    | O => out_of_fuel
    | S fuel' =>
        let correct := correct_answer self in
        w <- (if abs_milli correct <? 10000
              then randint (Z.max (-20) (py_int correct - 20))
                           (py_int correct + 20)
              else scaled_draw correct) ;;
        let wrong := PyInt w in
        if negb (py_eqb wrong correct) && negb (mem wrong wrong_answers)
        then fill_loop fuel' self count (wrong_answers ++ [wrong])
        else fill_loop fuel' self count wrong_answers
    end
  else ret wrong_answers.

(** [generate_wrong_answers(count)].  The order of [list(wrong_answers)]
    is Python's set order; here it is the order of insertion. *)
Definition generate_wrong_answers (fuel : nat) (self : t) (count : Z)
  : Rand (list pynum) :=
  wrong_answers <- strategy_loop fuel self count [] ;;
  fill_loop fuel self count wrong_answers.

End Problem.

(** ** Game constants and helpers *)

Definition WINDOW_WIDTH : Z := 900.
Definition WINDOW_HEIGHT : Z := 700.
Definition PLAYER_SPEED : Z := 6.
Definition BULLET_SPEED : Z := 12.
Definition BULLET_SIZE : Z := 6.
Definition ENEMY_SPEED_BASE : R := 1.5%R.

Definition ease_out_quad (t : R) : R := (1 - (1 - t) * (1 - t))%R.

(** [clamp]: [max(min_val, min(value, max_val))]. *)
Definition clamp (value min_val max_val : R) : R :=
  Rmax min_val (Rmin value max_val).

(** Float division; a zero divisor is a [ZeroDivisionError]. *)
Definition fdiv (a b : R) : outcome R :=
  if Req_dec_T b 0%R then Raise ZeroDivisionError else Ok (a / b)%R.

(** [a % b] on floats, for [b > 0]. *)
Definition fmod (a b : R) : R := (a - b * IZR (Int_part (a / b)))%R.

(** Calls into the particle system and the sound manager. *)
Inductive effect : Type :=
| add_particle (x y : R) (velocity : R * R)
| add_explosion (x y : R) (particle_count : Z)
| add_directional_burst (x y : R) (direction : R * R) (particle_count : Z)
| play (sound_name : string) (volume : R).

Inductive key : Type :=
| K_LEFT | K_a | K_RIGHT | K_d | K_UP | K_w | K_DOWN | K_s
| K_SPACE | K_ESCAPE.

(** [lerp]: linear interpolation between [a] and [b]. *)
Definition lerp (a b t : R) : R := (a + (b - a) * t)%R.

(** [ease_in_out_cubic]. *)
Definition ease_in_out_cubic (t : R) : R :=
  if Rlt_dec t 0.5 then (4 * t * t * t)%R
  else (1 - (-2 * t + 2) * (-2 * t + 2) * (-2 * t + 2) / 2)%R.

(** ** Particles *)

Module Particle.

Local Open Scope R_scope.

Record t : Type := mk {
  x : R;
  y : R;
  vx : R;
  vy : R;
  lifetime : Z;
  max_lifetime : Z;
  alpha : Z;
  size_start : R;
  size_end : R;
  size : R
}.

Definition __init__ (x y : R) (velocity : R * R) (lifetime : Z)
  (size_start size_end : R) : t :=
  mk x y (fst velocity) (snd velocity) lifetime lifetime 255
     size_start size_end size_start.

(** [update]: move, slow down, age, and derive alpha and size from the
    lifetime ratio; the ratio divides by [max_lifetime].
    [int(255 * life_ratio)] truncates toward zero. *)
Definition update (self : t) : outcome t :=
  let lifetime' := (lifetime self - 1)%Z in
  if (max_lifetime self =? 0)%Z then Raise ZeroDivisionError
  else
    let life_ratio := IZR lifetime' / IZR (max_lifetime self) in
    Ok (mk (x self + vx self) (y self + vy self)
           (vx self * 0.96) (vy self * 0.96)
           lifetime' (max_lifetime self)
           (Z.quot (255 * lifetime') (max_lifetime self))
           (size_start self) (size_end self)
           (lerp (size_end self) (size_start self) life_ratio)).

End Particle.

Module ParticleSystem.

Import random.

(** [self.particles]. *)
Definition t : Type := list Particle.t.

Definition __init__ : t := [].

Definition add_particle (self : t) (x y : R) (velocity : R * R)
  (lifetime : Z) (size_start size_end : R) : t :=
  self ++ [Particle.__init__ x y velocity lifetime size_start size_end].

(** The loop of [add_explosion], for the remaining [n] particles. *)
Fixpoint explode (n : nat) (self : t) (x y speed_min speed_max : R)
  (lifetime_min lifetime_max : Z) (size_start size_end : R) : Rand t :=
  match n with
  | O => ret self
  | S n' =>
      angle <- uniform 0 (2 * PI) ;;
      speed <- uniform speed_min speed_max ;;
      lifetime <- randint lifetime_min lifetime_max ;;
      explode n'
        (add_particle self x y (cos angle * speed, sin angle * speed)%R
           lifetime size_start size_end)
        x y speed_min speed_max lifetime_min lifetime_max
        size_start size_end
  end.

(** [add_explosion]. *)
Definition add_explosion (self : t) (x y : R) (particle_count : Z)
  (speed_min speed_max : R) (lifetime_min lifetime_max : Z)
  (size_start size_end : R) : Rand t :=
  explode (Z.to_nat particle_count) self x y speed_min speed_max
    lifetime_min lifetime_max size_start size_end.

(** [particle.update()] for every particle, in list order. *)
Fixpoint update_each (l : list Particle.t) : outcome (list Particle.t) :=
  match l with
  | [] => Ok []
  | p :: rest =>
      match Particle.update p with
      | Ok p' =>
          match update_each rest with
          | Ok rest' => Ok (p' :: rest')
          | Raise e => Raise e
          | OutOfFuel => OutOfFuel
          end
      | Raise e => Raise e
      | OutOfFuel => OutOfFuel
      end
  end.

(** [update]: drop the particles whose lifetime is used up, then update
    the others. *)
Definition update (self : t) : outcome t :=
  update_each (filter (fun p => Particle.lifetime p >? 0) self).

End ParticleSystem.

(** ** Bullet *)

Module Bullet.

Local Open Scope R_scope.

Record t : Type := mk {
  x : R;
  y : R;
  dx : R;
  dy : R;
  size : R;
  active : bool;
  trail : list (R * R);
  trail_length : Z
}.

(** [Bullet(x, y, direction, speed, size)]: the direction is normalised
    unless its length is zero.  Over the reals nothing overflows; the
    [OverflowError] of [** 2] and the rounding of the normalised
    velocity are in [binary64.Bullet.__init__]. *)
Definition __init__ (x y : R) (direction : R * R) (speed size : R)
  : outcome t :=
  let length := sqrt (fst direction * fst direction
                      + snd direction * snd direction) in
  if Rlt_dec 0 length then
    match fdiv (fst direction) length, fdiv (snd direction) length with
    | Ok ux, Ok uy =>
        Ok (mk x y (ux * speed) (uy * speed) size true [] 6)
    | Raise e, _ | Ok _, Raise e => Raise e
    | _, _ => OutOfFuel
    end
  else Ok (mk x y 0 (- speed) size true [] 6).

(** [update(particles)]: the bullet and the effects.  [u] is the
    [random.random()] draw that decides on a trail particle. *)
Definition update (self : t) (u : R) : t * list effect :=
  let trail1 := (x self, y self) :: trail self in
  let trail2 := if (Z.of_nat (List.length trail1) >? trail_length self)%Z
                then removelast trail1 else trail1 in
  let x' := x self + dx self in
  let y' := y self + dy self in
  let fx := if Rlt_dec u 0.3
            then [add_particle x' y' (- dx self * 0.1, - dy self * 0.1)]
            else [] in
  let out :=
    if Rlt_dec x' 0 then true
    else if Rgt_dec x' (IZR WINDOW_WIDTH) then true
    else if Rlt_dec y' 0 then true
    else if Rgt_dec y' (IZR WINDOW_HEIGHT) then true
    else false in
  (mk x' y' (dx self) (dy self) (size self)
      (if out then false else active self) trail2 (trail_length self),
   fx).

End Bullet.

(** ** Bullet construction over binary64

    Python's floats are IEEE 754 binary64 numbers, which are Rocq's
    primitive floats.  The ints the game passes (0, 1, -1, 12, 6) are
    read as the floats of the same value. *)

Module binary64.

Import Floats.
Local Open Scope float_scope.

Definition float : Set := PrimFloat.float.

(** [a ** 2]: Python raises [OverflowError] when a finite [a] has no
    finite square.  The square is taken as the rounded product
    [a * a]; Python computes it exactly on ints and with the platform's
    [pow] on floats, which gives that product on the components the
    game passes (0, 1, -1 and 0.7071, -0.7071). *)
Definition square (a : float) : outcome float :=
  let r := a * a in
  if is_infinity r && negb (is_infinity a) then Raise OverflowError
  else Ok r.

(** [math.sqrt(a)]: a [ValueError] below zero. *)
Definition math_sqrt (a : float) : outcome float :=
  if a <? 0 then Raise ValueError else Ok (sqrt a).

(** [a / b]: a zero divisor is a [ZeroDivisionError]. *)
Definition fdiv (a b : float) : outcome float :=
  if b =? 0 then Raise ZeroDivisionError else Ok (a / b).

Module Bullet.

Record t : Type := mk {
  x : float;
  y : float;
  dx : float;
  dy : float;
  size : float;
  active : bool;
  trail : list (float * float);
  trail_length : Z
}.

(** [Bullet(x, y, direction, speed, size)], in the order Python
    evaluates it: the two squares, their sum and its root, the test
    [length > 0], then the two quotients, each scaled by [speed]. *)
Definition __init__ (x y : float) (direction : float * float)
  (speed size : float) : outcome t :=
  match square (fst direction) with
  | Ok a =>
      match square (snd direction) with
      | Ok b =>
          match math_sqrt (a + b) with
          | Ok length =>
              if 0 <? length then
                match fdiv (fst direction) length with
                | Ok ux =>
                    match fdiv (snd direction) length with
                    | Ok uy =>
                        Ok (mk x y (ux * speed) (uy * speed) size true [] 6)
                    | Raise e => Raise e
                    | OutOfFuel => OutOfFuel
                    end
                | Raise e => Raise e
                | OutOfFuel => OutOfFuel
                end
              else Ok (mk x y 0 (- speed) size true [] 6)
          | Raise e => Raise e
          | OutOfFuel => OutOfFuel
          end
      | Raise e => Raise e
      | OutOfFuel => OutOfFuel
      end
  | Raise e => Raise e
  | OutOfFuel => OutOfFuel
  end.


End Bullet.

#[local] Set Warnings "-inexact-float".



End binary64.

(** ** Player *)

Module Player.

Local Open Scope R_scope.

Record t : Type := mk {
  x : R;
  y : R;
  size : R;
  speed : R;
  direction : R * R;
  health : Z;
  max_health : Z;
  invulnerable : bool;
  invulnerable_time : R;
  shooting : bool;
  shoot_timer : R;
  shoot_delay : R
}.

Definition __init__ (x y : R) : t :=
  {| x := x; y := y; size := 20; speed := IZR PLAYER_SPEED;
     direction := (0, -1); health := 3; max_health := 3;
     invulnerable := false; invulnerable_time := 0;
     shooting := false; shoot_timer := 0; shoot_delay := 0.2 |}.

(** The movement vector and facing direction chosen by the pressed
    keys; [dx] and [dy] are ints until the diagonal scaling. *)
Definition steer (keys_pressed : key -> bool) (direction : R * R)
  : Z * Z * (R * R) :=
  let s0 := (0%Z, 0%Z, direction) in
  let s1 := if keys_pressed K_LEFT || keys_pressed K_a
            then let '(dx, dy, _) := s0 in ((dx - 1)%Z, dy, (-1, 0)) else s0 in
  let s2 := if keys_pressed K_RIGHT || keys_pressed K_d
            then let '(dx, dy, _) := s1 in ((dx + 1)%Z, dy, (1, 0)) else s1 in
  let s3 := if keys_pressed K_UP || keys_pressed K_w
            then let '(dx, dy, _) := s2 in (dx, (dy - 1)%Z, (0, -1)) else s2 in
  let s4 := if keys_pressed K_DOWN || keys_pressed K_s
            then let '(dx, dy, _) := s3 in (dx, (dy + 1)%Z, (0, 1)) else s3 in
  s4.

(** [update(delta_time, keys_pressed, particles)].  [jitter] holds the
    two [random.uniform(0.5, 1.5)] draws of the movement particle.  The
    result is the player, the bullet fired (if any) and the effects. *)
Definition update (self : t) (delta_time : R) (keys_pressed : key -> bool)
  (jitter : R * R) : outcome (t * option Bullet.t * list effect) :=
  let '(dxi, dyi, dir) := steer keys_pressed (direction self) in
  let diagonal := negb (dxi =? 0)%Z && negb (dyi =? 0)%Z in
  let dx := if diagonal then IZR dxi * 0.7071 else IZR dxi in
  let dy := if diagonal then IZR dyi * 0.7071 else IZR dyi in
  let dir := if diagonal then (dx, dy) else dir in
  let x1 := x self + dx * speed self in
  let y1 := y self + dy * speed self in
  let moving := negb (dxi =? 0)%Z || negb (dyi =? 0)%Z in
  let fx1 := if moving
             then [add_particle (x1 - dx * 5) (y1 - dy * 5)
                     (- dx * fst jitter, - dy * snd jitter)]
             else [] in
  let window_width := IZR WINDOW_WIDTH in
  let window_height := IZR WINDOW_HEIGHT in
  let x2 := clamp x1 (size self) (window_width - size self) in
  let y2 := clamp y1 (size self) (window_height - size self) in
  let inv_time := if invulnerable self
                  then invulnerable_time self - delta_time
                  else invulnerable_time self in
  let inv := if invulnerable self
             then (if Rle_dec inv_time 0 then false else true)
             else false in
  let timer := shoot_timer self - delta_time in
  let fire := keys_pressed K_SPACE
              && (if Rle_dec timer 0 then true else false) in
  let self' := {| x := x2; y := y2; size := size self; speed := speed self;
                  direction := dir; health := health self;
                  max_health := max_health self;
                  invulnerable := inv; invulnerable_time := inv_time;
                  shooting := shooting self;
                  shoot_timer := if fire then shoot_delay self else timer;
                  shoot_delay := shoot_delay self |} in
  if fire then
    let bx := x2 + fst dir * size self in
    let by_ := y2 + snd dir * size self in
    match Bullet.__init__ bx by_ dir (IZR BULLET_SPEED) (IZR BULLET_SIZE) with
    | Ok b => Ok (self', Some b,
                  fx1 ++ [add_directional_burst bx by_ dir 8])
    | Raise e => Raise e
    | OutOfFuel => OutOfFuel
    end
  else Ok (self', None, fx1).

(** [take_damage(particles)]: the player, the effects, and whether the
    player died. *)
Definition take_damage (self : t) : t * list effect * bool :=
  if invulnerable self then (self, [], false)
  else
    let health' := (health self - 1)%Z in
    ({| x := x self; y := y self; size := size self; speed := speed self;
        direction := direction self; health := health';
        max_health := max_health self;
        invulnerable := true; invulnerable_time := 2;
        shooting := shooting self; shoot_timer := shoot_timer self;
        shoot_delay := shoot_delay self |},
     [add_explosion (x self) (y self) 40],
     (health' <=? 0)%Z).

End Player.

(** ** Enemy *)

Inductive movement : Type :=
| linear | sinusoidal | circular | accelerating.

Module Enemy.

Import random.
Local Open Scope R_scope.

Record t : Type := mk {
  x : R;
  y : R;
  difficulty : Z;
  size : R;
  health : Z;
  speed : R;
  movement_type : movement;
  direction : R;
  movement_timer : R;
  center_x : R;
  center_y : R;
  is_alive : bool;
  explosion_progress : R;
  letter : string
}.

Definition symbols : list string :=
  ["∑"; "∫"; "∏"; "√"; "∞"; "π"; "θ"; "Δ"; "α"; "β"; "γ"; "λ"]%string.

(** [Enemy(x, y, difficulty, size, letter)]. *)
Definition __init__ (x y : R) (difficulty : Z) (size : R)
  (letter : option string) : Rand t :=
  let '(health, speed) :=
    if (difficulty <=? 3)%Z then (1%Z, ENEMY_SPEED_BASE * 0.8)
    else if (difficulty <=? 8)%Z then (2%Z, ENEMY_SPEED_BASE * 1.2)
    else (3%Z, ENEMY_SPEED_BASE * 1.5) in
  movement_type <- choice [linear; sinusoidal; circular; accelerating] ;;
  direction <- uniform 0 (2 * PI) ;;
  letter <- match letter with
            | Some l => if String.eqb l "" then choice symbols else ret l
            | None => choice symbols
            end ;;
  ret {| x := x; y := y; difficulty := difficulty; size := size;
         health := health; speed := speed;
         movement_type := movement_type; direction := direction;
         movement_timer := 0; center_x := x; center_y := y;
         is_alive := true; explosion_progress := 0; letter := letter |}.

Definition with_motion (self : t) (x y direction movement_timer : R) : t :=
  {| x := x; y := y; difficulty := difficulty self; size := size self;
     health := health self; speed := speed self;
     movement_type := movement_type self; direction := direction;
     movement_timer := movement_timer;
     center_x := center_x self; center_y := center_y self;
     is_alive := is_alive self;
     explosion_progress := explosion_progress self;
     letter := letter self |}.

(** The movement step of [update] for a live enemy.  [u] is the
    [random.random()] draw of the linear variant and [turn] its
    [random.uniform(-pi/4, pi/4)] draw. *)
Definition move (self : t) (delta_time u turn : R) : t :=
  let timer := movement_timer self + delta_time in
  match movement_type self with
  | linear =>
      let d := if Rlt_dec u 0.01 then direction self + turn
               else direction self in
      with_motion self (x self + cos d * speed self)
                       (y self + sin d * speed self) d timer
  | sinusoidal =>
      let base_direction := direction self in
      let wave := sin (timer * 2) * 2 in
      with_motion self (x self + cos base_direction * speed self)
                       (y self + (sin base_direction * speed self + wave))
                       (direction self) timer
  | circular =>
      let radius := 50 in
      with_motion self (center_x self + cos timer * radius)
                       (center_y self + sin timer * radius)
                       (direction self) timer
  | accelerating =>
      let cycle_time := 3 in
      let cycle_progress := fmod timer cycle_time / cycle_time in
      let speed_factor := ease_out_quad cycle_progress in
      with_motion self
        (x self + cos (direction self) * speed self * speed_factor * 1.5)
        (y self + sin (direction self) * speed self * speed_factor * 1.5)
        (direction self) timer
  end.

(** The horizontal boundary check. *)
Definition bounce_x (self : t) : t :=
  if Rlt_dec (x self) (size self) then
    with_motion self (size self) (y self) (PI - direction self)
      (movement_timer self)
  else if Rgt_dec (x self) (IZR WINDOW_WIDTH - size self) then
    with_motion self (IZR WINDOW_WIDTH - size self) (y self)
      (PI - direction self) (movement_timer self)
  else self.

(** The vertical boundary check. *)
Definition bounce_y (self : t) : t :=
  if Rlt_dec (y self) (size self) then
    with_motion self (x self) (size self) (- direction self)
      (movement_timer self)
  else if Rgt_dec (y self) (IZR WINDOW_HEIGHT - size self) then
    with_motion self (x self) (IZR WINDOW_HEIGHT - size self)
      (- direction self) (movement_timer self)
  else self.

(** [update(delta_time)]. *)
Definition update (self : t) (delta_time u turn : R) : t :=
  if negb (is_alive self) then
    {| x := x self; y := y self; difficulty := difficulty self;
       size := size self; health := health self; speed := speed self;
       movement_type := movement_type self; direction := direction self;
       movement_timer := movement_timer self;
       center_x := center_x self; center_y := center_y self;
       is_alive := is_alive self;
       explosion_progress := explosion_progress self + 0.05;
       letter := letter self |}
  else bounce_y (bounce_x (move self delta_time u turn)).

(** [hit(particles)]: the enemy, the effects, and whether it was killed. *)
Definition hit (self : t) : t * list effect * bool :=
  let health' := (health self - 1)%Z in
  let killed := (health' <=? 0)%Z in
  let self' :=
    {| x := x self; y := y self; difficulty := difficulty self;
       size := size self; health := health'; speed := speed self;
       movement_type := movement_type self; direction := direction self;
       movement_timer := movement_timer self;
       center_x := center_x self; center_y := center_y self;
       is_alive := if killed then false else is_alive self;
       explosion_progress := explosion_progress self;
       letter := letter self |} in
  (self',
   add_explosion (x self) (y self) 10
   :: (if killed then [add_explosion (x self) (y self) 30] else []),
   killed).

End Enemy.

(** ** Buttons *)

Inductive button_color : Type :=
| color_default | color_correct | color_incorrect.

Module Button.

Record t : Type := mk {
  x : Z;
  y : Z;
  width : Z;
  height : Z;
  text : string;
  color : button_color
}.

(** [rect.centerx] and [rect.centery]. *)
Definition centerx (b : t) : Z := x b + width b / 2.
Definition centery (b : t) : Z := y b + height b / 2.

Definition with_color (b : t) (c : button_color) : t :=
  mk (x b) (y b) (width b) (height b) (text b) c.

End Button.

(** [s.rstrip(c)] for a single character [c]. *)
Fixpoint rstrip (c : Ascii.ascii) (s : string) : string :=
  match s with
  | EmptyString => EmptyString
  | String a s' =>
      match rstrip c s' with
      | EmptyString => if Ascii.eqb a c then EmptyString
                       else String a EmptyString
      | r => String a r
      end
  end.

(** [f"{answer:.2f}"] for a float of [m] thousandths: the nearest
    hundredth, with two decimals.  On a tie (thousandths ending in 5)
    Python decides by the binary value of the float; here a tie goes
    away from zero. *)
Definition format_2f (m : Z) : string :=
  let h := (Z.abs m + 5) / 10 in
  let cents := h mod 100 in
  ((if (m <? 0)%Z then "-" else "")
   ++ Num.str_of_Z (h / 100) ++ "."
   ++ (if (cents <? 10)%Z then "0" else "") ++ Num.str_of_Z cents)%string.

(** The label of an answer button. *)
Definition answer_text (answer : pynum) : string :=
  match answer with
  | PyInt z => Num.str_of_Z z
  | PyFloat m => rstrip "."%char (rstrip "0"%char (format_2f m))
  end.

(** ** Game: the session *)

Inductive GameState : Type :=
| MENU | PLAYING | PAUSED | GAME_OVER | LEVEL_TRANSITION.

Module Game.

Import random.

(** The session.  [effects] is the log of the calls made to
    [self.particles] and [self.sound_manager], oldest first.  The clock,
    the background and the menu and pause buttons are left out. *)
Record t : Type := mk {
  state : GameState;
  score : Z;
  high_score : Z;
  level : Z;
  streak : Z;
  enemies_killed : Z;
  total_enemies_killed : Z;
  state_timer : R;
  effects : list effect;
  player : Player.t;
  bullets : list Bullet.t;
  enemies : list Enemy.t;
  current_problem : option Problem.t;
  answer_buttons : list (Button.t * bool)
}.

Definition width : Z := WINDOW_WIDTH.
Definition height : Z := WINDOW_HEIGHT.

(** [enemy.hit(self.particles)] and [self.score += 5 * self.level] for
    every live enemy, in list order. *)
Definition reward_enemies (level : Z) (enemies : list Enemy.t)
  (score : Z) (fx : list effect) : Z * list effect :=
  fold_left
    (fun acc enemy =>
       if Enemy.is_alive enemy
       then (fst acc + 5 * level, snd acc ++ snd (fst (Enemy.hit enemy)))
       else acc)
    enemies (score, fx).

(** The eight celebration bursts of [level_up], at drawn positions. *)
Fixpoint celebrate (n : nat) : Rand (list effect) :=
  match n with
  | O => ret []
  | S n' =>
      ex <- randint 0 width ;;
      ey <- randint 0 (height / 2) ;;
      rest <- celebrate n' ;;
      ret (add_explosion (IZR ex) (IZR ey) 20 :: rest)
  end.

(** [level_up]. *)
Definition level_up (self : t) : Rand t :=
  bursts <- celebrate 8 ;;
  ret (mk (state self) (score self) (high_score self) (level self + 1)
          (streak self) (enemies_killed self) (total_enemies_killed self)
          (state_timer self)
          (effects self ++ play "level_up" 0.8 :: bursts)
          (player self) (bullets self) (enemies self)
          (current_problem self) (answer_buttons self)).

(** [handle_answer(button, is_correct)]: the session and the recoloured
    button. *)
Definition handle_answer (self : t) (button : Button.t) (is_correct : bool)
  : Rand (t * Button.t) :=
  let at_button n :=
    add_explosion (IZR (Button.centerx button)) (IZR (Button.centery button)) n in
  if is_correct then
    let score1 := score self + 50 * level self in
    let streak1 := streak self + 1 in
    let fx1 := effects self ++ [at_button 30; play "correct" 0.7] in
    let score2 := if streak1 >? 1 then score1 + 25 * streak1 else score1 in
    let '(score3, fx3) :=
      reward_enemies (level self) (enemies self) score2 fx1 in
    let cleared :=
      mk (state self) score3 (high_score self) (level self) streak1
         (enemies_killed self) (total_enemies_killed self)
         (state_timer self) fx3 (player self) (bullets self) []
         (current_problem self) (answer_buttons self) in
    levelled <- (if streak1 mod 3 =? 0 then level_up cleared
                 else ret cleared) ;;
    ret (mk LEVEL_TRANSITION (score levelled) (high_score levelled)
            (level levelled) (streak levelled) (enemies_killed levelled)
            (total_enemies_killed levelled) 0.8 (effects levelled)
            (player levelled) (bullets levelled) (enemies levelled)
            (current_problem levelled) (answer_buttons levelled),
         Button.with_color button color_correct)
  else
    ret (mk LEVEL_TRANSITION (score self) (high_score self) (level self) 0
            (enemies_killed self) (total_enemies_killed self) 0.8
            (effects self ++ [at_button 20; play "incorrect" 0.5])
            (player self) (bullets self) (enemies self)
            (current_problem self) (answer_buttons self),
         Button.with_color button color_incorrect).

(** The buttons for the shuffled answers, left to right from [start_x]. *)
Fixpoint layout (answers : list pynum) (correct_answer : pynum) (x : Z)
  : list (Button.t * bool) :=
  match answers with
  | [] => []
  | answer :: rest =>
      (Button.mk x (height - 100) 150 60 (answer_text answer) color_default,
       Num.py_eqb answer correct_answer)
      :: layout rest correct_answer (x + (150 + 20))
  end.

(** [create_answer_buttons], for the current problem. *)
Definition create_answer_buttons (fuel : nat) (problem : Problem.t)
  : Rand (list (Button.t * bool)) :=
  let correct_answer := Problem.correct_answer problem in
  wrong_answers <- Problem.generate_wrong_answers fuel problem 3 ;;
  answers <- shuffle (wrong_answers ++ [correct_answer]) ;;
  let button_width := 150 in
  let spacing := 20 in
  let total_width := (button_width + spacing) * Problem.len answers - spacing in
  let start_x := (width - total_width) / 2 in
  ret (layout answers correct_answer start_x).

(** [create_new_problem]. *)
Definition create_new_problem (fuel : nat) (self : t) : Rand t :=
  problem <- Problem.__init__ (Z.min 15 (Z.max 1 (level self))) ;;
  buttons <- create_answer_buttons fuel problem ;;
  ret (mk (state self) (score self) (high_score self) (level self)
          (streak self) (enemies_killed self) (total_enemies_killed self)
          (state_timer self) (effects self) (player self) (bullets self)
          (enemies self) (Some problem) buttons).

(** The [while True] loop of [spawn_enemies]: draw a position until it
    is outside the player's safe zone. *)
Fixpoint find_spawn (fuel : nat) (p : Player.t) : Rand (Z * Z) :=
  match fuel with
  | O => out_of_fuel
  | S fuel' =>
      ex <- randint 50 (width - 50) ;;
      ey <- randint 50 (height - 180) ;;
      let dist_to_player :=
        sqrt ((IZR ex - Player.x p) * (IZR ex - Player.x p)
              + (IZR ey - Player.y p) * (IZR ey - Player.y p))%R in
      if Rgt_dec dist_to_player 150 then ret (ex, ey)
      else find_spawn fuel' p
  end.

(** The [for _ in range(enemy_count)] loop of [spawn_enemies]. *)
Fixpoint spawn (fuel : nat) (n : nat) (p : Player.t) (level : Z)
  (enemies : list Enemy.t) : Rand (list Enemy.t) :=
  match n with
  | O => ret enemies
  | S n' =>
      pos <- find_spawn fuel p ;;
      enemy <- Enemy.__init__ (IZR (fst pos)) (IZR (snd pos)) level 30 None ;;
      spawn fuel n' p level (enemies ++ [enemy])
  end.

(** [spawn_enemies]. *)
Definition spawn_enemies (fuel : nat) (self : t) : Rand t :=
  let enemy_count := Z.min (3 + level self / 2) 10 in
  enemies <- spawn fuel (Z.to_nat enemy_count) (player self) (level self) [] ;;
  ret (mk (state self) (score self) (high_score self) (level self)
          (streak self) (enemies_killed self) (total_enemies_killed self)
          (state_timer self) (effects self) (player self) (bullets self)
          enemies (current_problem self) (answer_buttons self)).

(** [reset_game]. *)
Definition reset_game (fuel : nat) (self : t) : Rand t :=
  let fresh :=
    mk (state self) 0 (high_score self) 1 0 0 (total_enemies_killed self)
       (state_timer self) (effects self)
       (Player.__init__ (IZR (width / 2)) (IZR (height / 2))) []
       (enemies self) (current_problem self) (answer_buttons self) in
  with_problem <- create_new_problem fuel fresh ;;
  spawn_enemies fuel with_problem.

(** [level_complete]. *)
Definition level_complete (self : t) : t :=
  mk LEVEL_TRANSITION (score self) (high_score self) (level self)
     (streak self) (enemies_killed self) (total_enemies_killed self) 1
     (effects self) (player self) (bullets self) (enemies self)
     (current_problem self) (answer_buttons self).

(** [game_over]: the session, and the number [save_high_score] writes to
    the high-score file, if it is called. *)
Definition game_over (self : t) : t * option Z :=
  let improved := score self >? high_score self in
  (mk GAME_OVER (score self)
      (if improved then score self else high_score self)
      (level self) (streak self) (enemies_killed self)
      (total_enemies_killed self) 3
      (effects self ++ [play "game_over" 0.9])
      (player self) (bullets self) (enemies self)
      (current_problem self) (answer_buttons self),
   if improved then Some (score self) else None).

End Game.

(** ** The earlier variant of the game ([pygame_o1 copy.py]) *)

Module o1_copy.

Import random.

Module Game.

(** [wrong in wrong_answers], on ints. *)
Definition mem (wrong : Z) (wrong_answers : list Z) : bool :=
  existsb (Z.eqb wrong) wrong_answers.

(** [generate_wrong_answers(correct)], for a game of the given
    difficulty, from the answers collected so far.  The set is a list
    without repeated values, newest last. *)
Fixpoint generate_wrong_answers_from (fuel : nat) (difficulty correct : Z)
  (wrong_answers : list Z) : Rand (list Z) :=
  if Z.of_nat (List.length wrong_answers) <? 3 then
    match fuel with
    | O => out_of_fuel
    | S fuel' =>
        u <- random ;;
        wrong <- (if Rlt_dec u 0.5
                  then r <- randint (-5 * difficulty) (5 * difficulty) ;;
                       ret (correct + r)
                  else c <- choice [-1; 1] ;;
                       ret (correct + c * correct / 2)) ;;
        if negb (wrong =? correct) && negb (mem wrong wrong_answers)
        then generate_wrong_answers_from fuel' difficulty correct
               (wrong_answers ++ [wrong])
        else generate_wrong_answers_from fuel' difficulty correct
               wrong_answers
    end
  else ret wrong_answers.

Definition generate_wrong_answers (fuel : nat) (difficulty correct : Z)
  : Rand (list Z) :=
  generate_wrong_answers_from fuel difficulty correct [].

End Game.

End o1_copy.

(** ** Vocabulary of the statements *)

(** No two entries are equal as Python values. *)
Fixpoint all_distinct (l : list pynum) : bool :=
  match l with
  | [] => true
  | a :: t => negb (Problem.mem a t) && all_distinct t
  end.

(** No entry equals [correct]. *)
Definition excludes (correct : pynum) (l : list pynum) : bool :=
  forallb (fun w => negb (Num.py_eqb w correct)) l.

(** What the wrong-answer loops maintain. *)
Definition collected (correct : pynum) (count : Z) (l : list pynum) : Prop :=
  Problem.len l <= count /\ all_distinct l = true /\ excludes correct l = true.

(** [c] returns on every source, with a result that satisfies [P]. *)
Definition returns_with {A} (P : A -> Prop) (c : Rand A) : Prop :=
  forall s, exists a s', c s = Ok (a, s') /\ P a.

Definition anything {A} (_ : A) : Prop := True.

(** The difficulty-2 problem [5 - 5]. *)
Definition five_minus_five : Problem.t :=
  {| Problem.difficulty := 2; Problem.max_difficulty := 15;
     Problem.num1 := Some 5; Problem.num2 := Some 5; Problem.num3 := None;
     Problem.operator := Some Sub; Problem.correct_answer := PyInt 0;
     Problem.problem_text := "5 - 5" |}.

(** The difficulty-1 problem [4 + 5]. *)
Definition four_plus_five : Problem.t :=
  {| Problem.difficulty := 1; Problem.max_difficulty := 15;
     Problem.num1 := Some 4; Problem.num2 := Some 5; Problem.num3 := None;
     Problem.operator := Some Add; Problem.correct_answer := PyInt 9;
     Problem.problem_text := "4 + 5" |}.

(** The difficulty-5 problem [21 ÷ 3]. *)
Definition twenty_one_by_three : Problem.t :=
  {| Problem.difficulty := 5; Problem.max_difficulty := 15;
     Problem.num1 := Some 21; Problem.num2 := Some 3; Problem.num3 := None;
     Problem.operator := Some Div; Problem.correct_answer := PyInt 7;
     Problem.problem_text := "21 ÷ 3" |}.

(** The difficulty-13 problem on the area of a circle of radius 2,
    whose answer is the float [12.57]. *)
Definition circle_area_two : Problem.t :=
  Problem.plain 13 (PyFloat 12570) "Area of circle with radius 2 ≈ ?".

(** The number of live enemies. *)
Definition live_count (enemies : list Enemy.t) : Z :=
  Z.of_nat (List.length (filter Enemy.is_alive enemies)).

(** The session fields that [create_new_problem] and [spawn_enemies]
    do not touch. *)
Definition same_session (a b : Game.t) : Prop :=
  Game.score a = Game.score b /\ Game.level a = Game.level b /\
  Game.streak a = Game.streak b /\
  Game.enemies_killed a = Game.enemies_killed b /\
  Game.player a = Game.player b /\ Game.bullets a = Game.bullets b /\
  Game.high_score a = Game.high_score b /\
  Game.total_enemies_killed a = Game.total_enemies_killed b.

(** A source whose every int draw is [0]. *)
Definition zero_ints (s : Source) : Prop := forall n, ints s n = 0.

(** A live linear enemy in the bottom right corner, heading down and to
    the right. *)
Definition corner_enemy : Enemy.t :=
  {| Enemy.x := 870; Enemy.y := 670; Enemy.difficulty := 1;
     Enemy.size := 30; Enemy.health := 1;
     Enemy.speed := ENEMY_SPEED_BASE * 0.8;
     Enemy.movement_type := linear; Enemy.direction := PI / 4;
     Enemy.movement_timer := 0; Enemy.center_x := 400;
     Enemy.center_y := 300; Enemy.is_alive := true;
     Enemy.explosion_progress := 0; Enemy.letter := "π" |}.

(** A live linear enemy next to the right wall, heading right. *)
Definition wall_enemy : Enemy.t :=
  {| Enemy.x := 869.5; Enemy.y := 300; Enemy.difficulty := 1;
     Enemy.size := 30; Enemy.health := 1;
     Enemy.speed := ENEMY_SPEED_BASE * 0.8;
     Enemy.movement_type := linear; Enemy.direction := 0;
     Enemy.movement_timer := 0; Enemy.center_x := 400;
     Enemy.center_y := 300; Enemy.is_alive := true;
     Enemy.explosion_progress := 0; Enemy.letter := "π" |}.

(** What the game does to its player: [Game.update] calls [update]
    with the frame's delta time, pressed keys and particle jitter, and
    [Game.check_collisions] calls [take_damage]. *)
Inductive player_step : Type :=
| Update (delta_time : R) (keys_pressed : key -> bool) (jitter : R * R)
| Damage.

(** The player after the given steps, in order. *)
Fixpoint plays (self : Player.t) (steps : list player_step)
  : outcome Player.t :=
  match steps with
  | [] => Ok self
  | Update delta_time keys_pressed jitter :: rest =>
      match Player.update self delta_time keys_pressed jitter with
      | Ok (self', _, _) => plays self' rest
      | Raise e => Raise e
      | OutOfFuel => OutOfFuel
      end
  | Damage :: rest => plays (fst (fst (Player.take_damage self))) rest
  end.

(** A session in progress: score 1250, high score 4000, level 4,
    streak 2, 7 kills this game and 19 in all. *)
Definition paused_game : Game.t :=
  Game.mk PAUSED 1250 4000 4 2 7 19 0%R [] (Player.__init__ 100 100)
    [] [] None [].

Definition reset_source : Source := source_of [0; 0; 0; 0; 2; 9] [].

(** ** Vocabulary of the further properties *)

(** The value of [num1 <o> num2] for the four basic operators. *)
Definition apply_op (o : op) (a b : Z) : option Z :=
  match o with
  | Add => Some (a + b)
  | Sub => Some (a - b)
  | Mul => Some (a * b)
  | Div => if (b =? 0) || negb (a mod b =? 0) then None else Some (a / b)
  | _ => None
  end.

(** A problem of the two arithmetic families: both operands, a basic
    operator, and the non-negative integer answer they give. *)
Definition arithmetic (p : Problem.t) (a b : Z) (o : op) (r : Z) : Prop :=
  Problem.num1 p = Some a /\ Problem.num2 p = Some b /\
  Problem.operator p = Some o /\ Problem.correct_answer p = PyInt r /\
  apply_op o a b = Some r /\ 0 <= r.

(** What a problem of difficulty 7-9 looks like: the operator, the
    operands that are set, their ranges and the answer they give. *)
Definition advanced_shape (p : Problem.t) : Prop :=
  let answer := Problem.correct_answer p in
  match Problem.operator p, Problem.num1 p, Problem.num2 p, Problem.num3 p with
  | Some Square, Some a, None, None =>
      2 <= a <= 20 /\ answer = PyInt (a ^ 2)
  | Some Root, Some n, None, None =>
      exists r, 2 <= r <= 15 /\ n = r ^ 2 /\ answer = PyInt r
  | Some Cube, Some a, None, None =>
      2 <= a <= 10 /\ answer = PyInt (a ^ 3)
  | Some Power, Some a, Some b, None =>
      2 <= a <= 8 /\ 2 <= b <= 4 /\ answer = PyInt (a ^ b)
  | Some Add, Some a, Some b, Some c =>
      2 <= a <= 15 /\ 2 <= b <= 10 /\ 2 <= c <= 20 /\
      (answer = PyInt (a * b + c) \/ answer = PyInt (a + b * c))
  | Some Sub, Some a, Some b, Some c =>
      2 <= a <= 15 /\ 2 <= b <= 10 /\ 2 <= c <= 20 /\
      (answer = PyInt (a * b - c) \/ answer = PyInt (a - b * c))
  | _, _, _, _ => False
  end.

(** What a problem of difficulty 10-12 looks like: no operands, an
    integer answer, and a text whose equations the answer satisfies. *)
Definition algebra_shape (p : Problem.t) : Prop :=
  Problem.num1 p = None /\ Problem.num2 p = None /\
  Problem.operator p = None /\
  exists x,
    Problem.correct_answer p = PyInt x /\
    ((exists a b,
        1 <= a <= 8 /\ 1 <= x <= 12 /\ 1 <= b <= 20 /\
        Problem.problem_text p =
          (Num.str_of_Z a ++ "x + " ++ Num.str_of_Z b ++ " = "
           ++ Num.str_of_Z (a * x + b) ++ ", x = ?")%string)
     \/ (exists a b,
        1 <= a <= 8 /\ 1 <= x <= 12 /\ 1 <= b <= 20 /\
        Problem.problem_text p =
          (Num.str_of_Z a ++ "x - " ++ Num.str_of_Z b ++ " = "
           ++ Num.str_of_Z (a * x - b) ++ ", x = ?")%string)
     \/ (exists y,
        1 <= x <= 20 /\ 1 <= y <= 20 /\
        Problem.problem_text p =
          ("If x + y = " ++ Num.str_of_Z (x + y) ++ " and x - y = "
           ++ Num.str_of_Z (x - y) ++ ", then x = ?")%string)
     \/ (exists x0,
        1 <= x0 <= 20 /\ 1 <= x <= 20 /\
        Problem.problem_text p =
          ("If x + y = " ++ Num.str_of_Z (x0 + x) ++ " and x - y = "
           ++ Num.str_of_Z (x0 - x) ++ ", then y = ?")%string)).

(** The difficulty-8 problem [5×3-8], of the mixed family. *)
Definition five_times_three_minus_eight : Problem.t :=
  {| Problem.difficulty := 8; Problem.max_difficulty := 15;
     Problem.num1 := Some 5; Problem.num2 := Some 3; Problem.num3 := Some 8;
     Problem.operator := Some Sub; Problem.correct_answer := PyInt 7;
     Problem.problem_text := "5×3-8" |}.

(** The difficulty-11 problem on the system [x + y = 6], [x - y = 2]. *)
Definition sum_and_difference : Problem.t :=
  Problem.plain 11 (PyInt 4) "If x + y = 6 and x - y = 2, then x = ?".

(** The draws that make difficulty 7 generate the mixed problem over
    [a], [b], [c] whose answer is [a * b + c] and whose text puts the
    product last. *)
Definition mixed_source (a b c : Z) : Source :=
  source_of [4; a - 2; b - 2; c - 2; 0; 1] [].

(** Both operands are set only together with an operator. *)
Definition operands_have_operator (p : Problem.t) : Prop :=
  match Problem.num1 p, Problem.num2 p, Problem.operator p with
  | Some _, Some _, None => False
  | _, _, _ => True
  end.

(** [wrong] is as close to [correct] as the first loop asks:
    [abs(wrong - correct) <= max(10, abs(correct) * 2)] and
    [abs(wrong) <= abs(correct) * 5]. *)
Definition close_to (correct wrong : pynum) : Prop :=
  Z.abs (Num.milli wrong - Num.milli correct)
    <= Z.max 10000 (Num.abs_milli correct * 2)
  /\ Num.abs_milli wrong <= Num.abs_milli correct * 5.

(** [c] raises on no source. *)
Definition never_raises {A} (c : Rand A) : Prop :=
  forall s e, c s <> Raise e.

(** *** Kinematics of bullets, enemies and the player *)

(** The bullet after successive calls of [update], one per
    [random.random()] draw. *)
Fixpoint flies (b : Bullet.t) (draws : list R) : Bullet.t :=
  match draws with
  | [] => b
  | u :: rest => flies (fst (Bullet.update b u)) rest
  end.

(** The positions the bullet is at before each of those updates, the
    earliest first. *)
Fixpoint visited (b : Bullet.t) (draws : list R) : list (R * R) :=
  match draws with
  | [] => []
  | u :: rest =>
      (Bullet.x b, Bullet.y b) :: visited (fst (Bullet.update b u)) rest
  end.

(** The enemy after [n] calls of [hit]. *)
Fixpoint hits (n : nat) (e : Enemy.t) : Enemy.t :=
  match n with
  | O => e
  | S n' => hits n' (fst (fst (Enemy.hit e)))
  end.

(** The health band of a difficulty: 1 up to 3, 2 up to 8, 3 above. *)
Definition hits_to_kill (difficulty : Z) : nat :=
  if difficulty <=? 3 then 1 else if difficulty <=? 8 then 2 else 3.

(** The point is in the window, borders included. *)
Definition inside_window (x y : R) : Prop :=
  (0 <= x <= IZR WINDOW_WIDTH /\ 0 <= y <= IZR WINDOW_HEIGHT)%R.

(** No key is held down. *)
Definition no_keys (k : key) : bool := false.

(** Only the space bar is held down. *)
Definition space_only (k : key) : bool :=
  match k with K_SPACE => true | _ => false end.


(** *** The session, the particles and the earlier variant's answers *)

(** An enemy as [spawn_enemies] places it for a player [p] at [level]. *)
Definition spawned (p : Player.t) (level : Z) (e : Enemy.t) : Prop :=
  Enemy.is_alive e = true /\ Enemy.size e = 30%R /\
  Enemy.difficulty e = level /\
  Enemy.health e = Z.of_nat (hits_to_kill level) /\
  exists ex ey : Z,
    Enemy.x e = IZR ex /\ Enemy.y e = IZR ey /\
    50 <= ex <= 850 /\ 50 <= ey <= 520 /\
    (150 * 150 <
     (IZR ex - Player.x p) * (IZR ex - Player.x p)
     + (IZR ey - Player.y p) * (IZR ey - Player.y p))%R.

(** A session in play at level 4, the player at the centre. *)
Definition arena_game : Game.t :=
  Game.mk PLAYING 300 4000 4 1 2 19 0%R [] (Player.__init__ 450 350)
    [] [] None [].

(** The number of entries equal to [c] as Python values. *)
Definition count_equal (c : pynum) (l : list pynum) : nat :=
  List.length (filter (fun a => Num.py_eqb a c) l).

(** [n] calls of [handle_answer(button, True)] in a row. *)
Fixpoint answer_correctly (n : nat) (self : Game.t) (button : Button.t)
  : Rand Game.t :=
  match n with
  | O => ret self
  | S n' =>
      r <- Game.handle_answer self button true ;;
      answer_correctly n' (fst r) button
  end.

(** The left-most answer button. *)
Definition first_button : Button.t :=
  Button.mk 120 600 150 60 "9" color_default.

(** A particle that has not outlived its constructor lifetime. *)
Definition aged (p : Particle.t) : Prop :=
  Particle.lifetime p <= Particle.max_lifetime p.

(** The particle's alpha is a colour component. *)
Definition visible (p : Particle.t) : Prop :=
  0 <= Particle.alpha p <= 255.

(** [n] calls of [ParticleSystem.update]. *)
Fixpoint frames (n : nat) (self : ParticleSystem.t)
  : outcome ParticleSystem.t :=
  match n with
  | O => Ok self
  | S n' =>
      match ParticleSystem.update self with
      | Ok self' => frames n' self'
      | Raise e => Raise e
      | OutOfFuel => OutOfFuel
      end
  end.

(** The particle systems the game can hold: built from the empty one by
    [add_particle] and [update]. *)
Inductive built : ParticleSystem.t -> Prop :=
| built_init : built ParticleSystem.__init__
| built_add self x y velocity lifetime size_start size_end :
    built self ->
    built (ParticleSystem.add_particle self x y velocity lifetime
             size_start size_end)
| built_update self self' :
    built self -> ParticleSystem.update self = Ok self' -> built self'.

(** A particle as [add_explosion] creates it. *)
Definition debris (x y speed_min speed_max : R)
  (lifetime_min lifetime_max : Z) (size_start size_end : R)
  (p : Particle.t) : Prop :=
  Particle.x p = x /\ Particle.y p = y /\
  lifetime_min <= Particle.lifetime p <= lifetime_max /\
  Particle.max_lifetime p = Particle.lifetime p /\
  Particle.alpha p = 255 /\
  Particle.size p = size_start /\ Particle.size_end p = size_end /\
  exists speed : R,
    (speed_min <= speed <= speed_max)%R /\
    (Particle.vx p * Particle.vx p + Particle.vy p * Particle.vy p
     = speed * speed)%R.

(** The draws that make the earlier variant answer [correct + 1],
    [correct + 2], [correct + 3]. *)
Definition next_three (difficulty : Z) : Source :=
  source_of [5 * difficulty + 1; 5 * difficulty + 2; 5 * difficulty + 3]
            [0; 0; 0]%R.

(** [l] has no repeated entry and does not hold [correct]. *)
Fixpoint fresh_ints (correct : Z) (l : list Z) : Prop :=
  match l with
  | [] => True
  | a :: t => a <> correct /\ ~ In a t /\ fresh_ints correct t
  end.

(** [w] is one of the two kinds of wrong answer. *)
Definition near (difficulty correct w : Z) : Prop :=
  -5 * difficulty <= w - correct <= 5 * difficulty
  \/ w = correct + correct / 2 \/ w = correct + (- correct) / 2.

(** * Properties *)

(** ** The oracle monad *)

Lemma bind_Ok {A B} (c : Rand A) (k : A -> Rand B) (s : Source) r :
  bind c k s = Ok r ->
  exists a s1, c s = Ok (a, s1) /\ k a s1 = Ok r.
Proof.
  unfold bind. destruct (c s) as [[a s1] | e | ]; try discriminate.
  intros H. exists a, s1. split; [reflexivity | exact H].
Qed.

Lemma ret_Ok {A} (a : A) (s : Source) r :
  ret a s = Ok r -> r = (a, s).
Proof. unfold ret. intros H. inversion H. reflexivity. Qed.

Lemma randint_Ok (a b : Z) (s : Source) z s' :
  random.randint a b s = Ok (z, s') -> a <= z <= b.
Proof.
  unfold random.randint. destruct (b <? a) eqn:E; [discriminate |].
  apply Z.ltb_ge in E. cbv [bind random.next_int ret]. intros H.
  inversion H; subst. clear H.
  pose proof (Z.mod_pos_bound (ints s 0%nat) (b - a + 1)). lia.
Qed.

Lemma randint_total (a b : Z) (s : Source) :
  a <= b ->
  exists z s', random.randint a b s = Ok (z, s') /\ a <= z <= b.
Proof.
  intros Hab. unfold random.randint.
  destruct (b <? a) eqn:E; [apply Z.ltb_lt in E; lia |].
  cbv [bind random.next_int ret]. eexists. eexists.
  split; [reflexivity |].
  pose proof (Z.mod_pos_bound (ints s 0%nat) (b - a + 1)). lia.
Qed.

Lemma choice_nth {A} (d : A) (l : list A) (s : Source) :
  random.choice (d :: l) s =
  Ok (nth (Z.to_nat (ints s 0%nat mod Z.of_nat (List.length (d :: l)))) (d :: l) d,
      mkSource (fun n => ints s (S n)) (reals s)).
Proof. reflexivity. Qed.

Lemma choice_Ok {A} (seq : list A) (s : Source) x s' :
  random.choice seq s = Ok (x, s') -> In x seq.
Proof.
  intros H. destruct seq as [| d l]; [discriminate |].
  rewrite choice_nth in H.
  assert (0 < Z.of_nat (List.length (d :: l))) as Hpos by (simpl List.length; lia).
  pose proof (Z.mod_pos_bound (ints s 0%nat) _ Hpos) as Hm.
  remember (d :: l) as seq eqn:Eseq.
  remember (Z.to_nat (ints s 0%nat mod Z.of_nat (List.length seq))) as n eqn:En.
  assert (nth n seq d = x) as Hx by congruence.
  rewrite <- Hx. apply nth_In. lia.
Qed.

Lemma choice_total {A} (d : A) (l : list A) (s : Source) :
  exists x s', random.choice (d :: l) s = Ok (x, s') /\ In x (d :: l).
Proof.
  destruct (random.choice (d :: l) s) as [[x s'] | e | ] eqn:E.
  - exists x, s'. split; [reflexivity |]. eapply choice_Ok. exact E.
  - discriminate E.
  - discriminate E.
Qed.

(** Take apart a run that returned. *)
Ltac unbind :=
  repeat match goal with
  | H : bind _ _ _ = Ok _ |- _ =>
      let a := fresh "v" in
      let s1 := fresh "s" in
      let H1 := fresh "Hrun" in
      apply bind_Ok in H; destruct H as (a & s1 & H1 & H)
  | H : ret _ _ = Ok _ |- _ => apply ret_Ok in H
  end.

Lemma lift_Ok {A} (o : outcome A) (s : Source) a s' :
  lift o s = Ok (a, s') -> o = Ok a /\ s' = s.
Proof.
  unfold lift. destruct o; try discriminate. intros H. inversion H. auto.
Qed.

(** Case analysis on the branches of a run that returned. *)
Ltac split_run :=
  repeat first
    [ progress unbind
    | match goal with
      | H : (let '(_, _) := ?v in _) _ = Ok _ |- _ => destruct v
      | H : (if ?b then _ else _) _ = Ok _ |- _ => destruct b
      | H : match ?n with Some _ => _ | None => _ end _ = Ok _ |- _ =>
          destruct n
      | H : raise _ _ = Ok _ |- _ => discriminate H
      | H : (_, _) = (_, _) |- _ => inversion H; subst; clear H
      end ].

(** ** The problem families *)

Section Generator.

Import Num.

(** C8: every problem of difficulty 1 is generated, and its operator is
    ['+'] (hence none of ['-'], ['×'], ['÷']), whatever the draws. *)
Theorem tier_one_is_addition (src : Source) :
  exists p src',
    Problem.__init__ 1 src = Ok (p, src') /\
    Problem.operator p = Some Add.
Proof. eexists. eexists. split; reflexivity. Qed.

Lemma calculate_division (a b : Z) :
  b <> 0 -> a mod b = 0 ->
  Problem._calculate_answer (Some Div) (Some a) (Some b) = Ok (PyInt (a / b)).
Proof.
  intros Hb Hm. unfold Problem._calculate_answer.
  destruct (b =? 0) eqn:E; [apply Z.eqb_eq in E; contradiction |].
  rewrite Hm. reflexivity.
Qed.

Lemma intermediate_division (d : Z) (src : Source) p src' :
  Problem._generate_intermediate_arithmetic d src = Ok (p, src') ->
  Problem.operator p = Some Div ->
  exists n1 n2,
    Problem.num1 p = Some n1 /\ Problem.num2 p = Some n2 /\
    n2 <> 0 /\ n1 mod n2 = 0 /\ Problem.correct_answer p = PyInt (n1 / n2).
Proof.
  unfold Problem._generate_intermediate_arithmetic. intros H Hop.
  unbind.
  destruct v0; split_run; try discriminate Hop;
    match goal with
    | Hd : random.randint 2 _ _ = Ok (?n2, _),
      Hc : lift _ _ = Ok _ |- _ =>
        apply randint_Ok in Hd; apply lift_Ok in Hc; destruct Hc as [Hc _];
        rewrite calculate_division in Hc
          by (try apply Z.mod_mul; lia || (rewrite Z.mul_comm; apply Z.mod_mul; lia));
        inversion Hc; subst; clear Hc;
        eexists; exists n2; cbn [Problem.num1 Problem.num2 Problem.correct_answer];
        repeat split; try lia;
        rewrite Z.mul_comm; apply Z.mod_mul; lia
    end.
Qed.

(** C5: a problem of difficulty 4-6 whose operator is ['÷'] has a
    dividend that is an exact multiple of its (nonzero) divisor, and its
    answer is the integer quotient. *)
Theorem division_is_exact (d : Z) (src : Source) p src' :
  4 <= d <= 6 ->
  Problem.__init__ d src = Ok (p, src') ->
  Problem.operator p = Some Div ->
  exists n1 n2,
    Problem.num1 p = Some n1 /\ Problem.num2 p = Some n2 /\
    n2 <> 0 /\ n1 mod n2 = 0 /\ Problem.correct_answer p = PyInt (n1 / n2).
Proof.
  intros Hd H Hop. unfold Problem.__init__, Problem.generate in H.
  replace (Z.min d 15) with d in H by lia.
  destruct (d <=? 3) eqn:E3; [apply Z.leb_le in E3; lia |].
  destruct (d <=? 6) eqn:E6; [| apply Z.leb_gt in E6; lia].
  eapply intermediate_division; eassumption.
Qed.

Lemma division_is_exact_witness :
  4 <= 5 <= 6 /\
  exists n1 n2,
    Problem.num1 twenty_one_by_three = Some n1 /\
    Problem.num2 twenty_one_by_three = Some n2 /\
    n2 <> 0 /\ n1 mod n2 = 0 /\
    Problem.correct_answer twenty_one_by_three = PyInt (n1 / n2).
Proof.
  split; [lia |].
  eapply (division_is_exact 5 (source_of [4; 3; 1; 6] []) twenty_one_by_three);
    [lia | reflexivity | reflexivity].
Defined.

(** C4: at difficulty 13 the draws [x1 = -5], [x2 = 1] give the problem
    "Smaller solution of x² + 4x - 5 = 0", whose roots are [-5] and [1];
    the reported answer is [1], the root of smaller magnitude, and not
    the smaller root [-5]. *)
Theorem quadratic_reports_smaller_magnitude :
  (exists src',
     Problem.__init__ 13 (source_of [2; 0; 6] []) =
     Ok (Problem.quadratic 13 (-5) 1, src')) /\
  Problem.problem_text (Problem.quadratic 13 (-5) 1) =
    "Smaller solution of x² + 4x - 5 = 0 = ?" /\
  (forall x, x * x + 4 * x - 5 = 0 <-> x = -5 \/ x = 1) /\
  Problem.correct_answer (Problem.quadratic 13 (-5) 1) = PyInt 1 /\
  Z.min (-5) 1 = -5.
Proof.
  split; [eexists; reflexivity |].
  split; [reflexivity |].
  split; [| split; reflexivity].
  intros x. split; [| intros [-> | ->]; reflexivity].
  intros H. assert ((x + 5) * (x - 1) = 0) as F by lia.
  apply Z.mul_eq_0 in F. lia.
Qed.

(** *** Generation returns

    For every difficulty from 1 on, [Problem(difficulty)] returns a
    problem whatever the draws: no range is empty and no division is by
    zero. *)

Lemma ret_returns {A} (P : A -> Prop) (a : A) : P a -> returns_with P (ret a).
Proof. intros H s. exists a, s. split; [reflexivity | exact H]. Qed.

Lemma bind_returns {A B} (P : A -> Prop) (Q : B -> Prop) (c : Rand A)
  (k : A -> Rand B) :
  returns_with P c -> (forall a, P a -> returns_with Q (k a)) ->
  returns_with Q (bind c k).
Proof.
  intros Hc Hk s. destruct (Hc s) as (a & s1 & H1 & Pa).
  destruct (Hk a Pa s1) as (b & s2 & H2 & Qb).
  exists b, s2. unfold bind. rewrite H1. split; assumption.
Qed.

Lemma randint_returns (a b : Z) :
  a <= b -> returns_with (fun z => a <= z <= b) (random.randint a b).
Proof.
  intros H s. destruct (randint_total a b s H) as (z & s' & Hz & Hr).
  exists z, s'. split; assumption.
Qed.

Lemma choice_returns {A} (d : A) (l : list A) :
  returns_with (fun x => In x (d :: l)) (random.choice (d :: l)).
Proof.
  intros s. destruct (choice_total d l s) as (x & s' & Hx & Hin).
  exists x, s'. split; assumption.
Qed.

Lemma weaken_returns {A} (P Q : A -> Prop) (c : Rand A) :
  returns_with P c -> (forall a, P a -> Q a) -> returns_with Q c.
Proof.
  intros Hc HPQ s. destruct (Hc s) as (a & s' & H & Pa).
  exists a, s'. split; [exact H | apply HPQ; exact Pa].
Qed.

Lemma lift_returns {A} (P : A -> Prop) (a : A) :
  P a -> returns_with P (lift (Ok a)).
Proof. intros H s. exists a, s. split; [reflexivity | exact H]. Qed.

Ltac total :=
  repeat first
    [ apply ret_returns; exact I
    | eapply bind_returns;
        [ apply randint_returns; lia | cbv beta; intros ? ? ]
    | eapply bind_returns;
        [ apply choice_returns | cbv beta; intros ? ? ]
    | match goal with
      | |- returns_with _ (if ?c then _ else _) => destruct c
      end ].

Lemma basic_returns (d : Z) :
  1 <= d -> returns_with anything (Problem._generate_basic_arithmetic d).
Proof.
  intros Hd. unfold Problem._generate_basic_arithmetic. cbv zeta.
  eapply bind_returns; [apply randint_returns; lia | intros n1 _].
  eapply bind_returns; [apply randint_returns; lia | intros n2 _].
  eapply (bind_returns (fun r => fst (fst r) = Add \/ fst (fst r) = Sub)).
  - destruct (d =? 1); [apply ret_returns; left; reflexivity |].
    eapply bind_returns; [apply choice_returns | intros o Ho].
    assert (o = Add \/ o = Sub) as Ho' by (simpl in Ho; intuition auto).
    destruct (_ && _); apply ret_returns; exact Ho'.
  - intros [[o a] b] Ho. cbn [fst] in Ho.
    destruct Ho as [-> | ->];
      (eapply bind_returns; [apply (lift_returns anything); exact I | intros ? _]);
      apply ret_returns; exact I.
Qed.

Lemma intermediate_returns (d : Z) :
  4 <= d -> returns_with anything (Problem._generate_intermediate_arithmetic d).
Proof.
  intros Hd. unfold Problem._generate_intermediate_arithmetic. cbv zeta.
  assert (2 <= 8 * d / 2) as Hsmall
    by (apply Z.div_le_lower_bound; lia).
  eapply bind_returns; [apply randint_returns; lia | intros n1 _].
  eapply (bind_returns (fun o => In o [Add; Sub; Mul; Div])).
  - destruct (d <=? 4).
    + eapply weaken_returns; [apply choice_returns |].
      intros o Ho. simpl in Ho |- *. intuition auto.
    + apply choice_returns.
  - intros o Ho.
    assert (o = Add \/ o = Sub \/ o = Mul \/ o = Div) as Ho'
      by (simpl in Ho; intuition auto).
    destruct Ho' as [-> | [-> | [-> | ->]]].
    + eapply (bind_returns (fun r => exists b, snd r = Some b)).
      * eapply bind_returns; [apply randint_returns; lia | intros n2 _].
        destruct (_ && _); apply ret_returns; eexists; reflexivity.
      * intros [a b] [b' Hb]. cbn [snd] in Hb. subst b.
        eapply bind_returns; [apply (lift_returns anything); exact I | intros ? _].
        apply ret_returns; exact I.
    + eapply (bind_returns (fun r => exists b, snd r = Some b)).
      * eapply bind_returns; [apply randint_returns; lia | intros n2 _].
        destruct (_ && _); apply ret_returns; eexists; reflexivity.
      * intros [a b] [b' Hb]. cbn [snd] in Hb. subst b.
        eapply bind_returns; [apply (lift_returns anything); exact I | intros ? _].
        apply ret_returns; exact I.
    + eapply (bind_returns (fun r => exists b, snd r = Some b)).
      * eapply bind_returns; [apply randint_returns; lia | intros n2 _].
        apply ret_returns; eexists; reflexivity.
      * intros [a b] [b' Hb]. cbn [snd] in Hb. subst b.
        eapply bind_returns; [apply (lift_returns anything); exact I | intros ? _].
        apply ret_returns; exact I.
    + eapply (bind_returns (fun r => exists b k, r = (b * k, Some b) /\ 2 <= b)).
      * eapply bind_returns; [apply randint_returns; lia | intros n2 Hn2; cbv beta in Hn2].
        eapply bind_returns; [apply randint_returns; lia | intros k _].
        apply ret_returns. exists n2, k. split; [reflexivity | lia].
      * intros r (b & k & -> & Hb).
        rewrite calculate_division; [| lia | rewrite Z.mul_comm; apply Z.mod_mul; lia].
        eapply bind_returns; [apply (lift_returns anything); exact I | intros ? _].
        apply ret_returns; exact I.
Qed.

Lemma advanced_arithmetic_returns (d : Z) :
  returns_with anything (Problem._generate_advanced_arithmetic d).
Proof.
  unfold Problem._generate_advanced_arithmetic, Problem.mixed_ops. total.
Qed.

Lemma simple_algebra_returns (d : Z) :
  returns_with anything (Problem._generate_simple_algebra d).
Proof. unfold Problem._generate_simple_algebra. cbv zeta. total. Qed.

Lemma advanced_math_returns (d : Z) :
  returns_with anything (Problem._generate_advanced_math d).
Proof.
  unfold Problem._generate_advanced_math, Problem.geometry,
    Problem.sin_choices, Problem.cos_choices.
  cbv zeta. total.
Qed.

Lemma generate_returns (d : Z) :
  1 <= d -> returns_with anything (Problem.__init__ d).
Proof.
  intros Hd. unfold Problem.__init__, Problem.generate. cbv zeta.
  destruct (Z.min d 15 <=? 3) eqn:E3; [apply basic_returns; exact Hd |].
  destruct (Z.min d 15 <=? 6) eqn:E6;
    [apply intermediate_returns; apply Z.leb_gt in E3; lia |].
  destruct (Z.min d 15 <=? 9); [apply advanced_arithmetic_returns |].
  destruct (Z.min d 15 <=? 12); [apply simple_algebra_returns |].
  apply advanced_math_returns.
Qed.

Lemma four_plus_five_generated :
  exists src',
    Problem.__init__ 1 (source_of [3; 4] []) = Ok (four_plus_five, src').
Proof. eexists. reflexivity. Qed.

End Generator.

(** ** Wrong answers *)

Section WrongAnswers.

Import Num.

Lemma py_eqb_sym (a b : pynum) : py_eqb a b = py_eqb b a.
Proof. unfold py_eqb. apply Z.eqb_sym. Qed.

Lemma mem_snoc (w : pynum) (l : list pynum) (v : pynum) :
  Problem.mem w (l ++ [v]) = Problem.mem w l || py_eqb w v.
Proof.
  unfold Problem.mem. rewrite existsb_app. simpl.
  rewrite orb_false_r. reflexivity.
Qed.

Lemma all_distinct_snoc (l : list pynum) (w : pynum) :
  all_distinct l = true -> Problem.mem w l = false ->
  all_distinct (l ++ [w]) = true.
Proof.
  induction l as [| a t IH]; simpl; intros Hd Hm; [reflexivity |].
  apply andb_true_iff in Hd. destruct Hd as [Ha Ht].
  apply orb_false_iff in Hm. destruct Hm as [Hwa Hwt].
  rewrite mem_snoc, (py_eqb_sym a w), Hwa, orb_false_r, Ha. simpl.
  apply IH; assumption.
Qed.

Lemma excludes_snoc (c : pynum) (l : list pynum) (w : pynum) :
  excludes c l = true -> py_eqb w c = false ->
  excludes c (l ++ [w]) = true.
Proof.
  unfold excludes. intros Hl Hw. rewrite forallb_app, Hl. simpl.
  rewrite Hw. reflexivity.
Qed.

Lemma len_snoc {A} (l : list A) (a : A) :
  Problem.len (l ++ [a]) = Problem.len l + 1.
Proof. unfold Problem.len. rewrite length_app. simpl. lia. Qed.

Lemma collected_snoc (c : pynum) (count : Z) (l : list pynum) (w : pynum) :
  collected c count l -> Problem.len l < count ->
  py_eqb w c = false -> Problem.mem w l = false ->
  collected c count (l ++ [w]).
Proof.
  intros (Hlen & Hd & He) Hlt Hw Hm. repeat split.
  - rewrite len_snoc. lia.
  - apply all_distinct_snoc; assumption.
  - apply excludes_snoc; assumption.
Qed.

Lemma strategy_loop_S (fuel : nat) self count wa :
  Problem.strategy_loop (S fuel) self count wa =
  if (Problem.len wa <? count)
     && (Problem.len wa <? Problem.len (Problem.strategies self))
  then
    bind (random.choice (Problem.strategies self)) (fun strategy =>
    bind strategy (fun wrong =>
      if Problem.plausible (Problem.correct_answer self) wrong wa
      then Problem.strategy_loop fuel self count (wa ++ [wrong])
      else Problem.strategy_loop fuel self count wa))
  else ret wa.
Proof. reflexivity. Qed.

Lemma strategy_loop_O self count wa :
  Problem.strategy_loop O self count wa =
  if (Problem.len wa <? count)
     && (Problem.len wa <? Problem.len (Problem.strategies self))
  then out_of_fuel else ret wa.
Proof. reflexivity. Qed.

(** The first loop keeps [collected], and leaves only with [count]
    answers or with as many answers as there are strategies. *)
Lemma strategy_loop_collects (fuel : nat) : forall self count wa s l s',
  collected (Problem.correct_answer self) count wa ->
  Problem.strategy_loop fuel self count wa s = Ok (l, s') ->
  collected (Problem.correct_answer self) count l /\
  (count <= Problem.len l \/ 13 <= Problem.len l).
Proof.
  assert (forall self count (wa : list pynum),
            (Problem.len wa <? count)
            && (Problem.len wa <? Problem.len (Problem.strategies self)) = false ->
            count <= Problem.len wa \/ 13 <= Problem.len wa) as Hexit.
  { intros self count wa E. apply andb_false_iff in E.
    change (Problem.len (Problem.strategies self)) with 13 in E.
    destruct E as [E | E]; apply Z.ltb_ge in E; lia. }
  induction fuel as [| fuel IH]; intros self count wa s l s' Hc H.
  - rewrite strategy_loop_O in H.
    destruct (_ && _) eqn:E in H; [discriminate |].
    apply ret_Ok in H. inversion H; subst. split; [exact Hc | eauto].
  - rewrite strategy_loop_S in H.
    destruct (_ && _) eqn:E in H.
    + unbind. apply andb_true_iff in E. destruct E as [E1 _].
      apply Z.ltb_lt in E1.
      destruct (Problem.plausible _ _ _) eqn:P in H.
      * eapply IH; [| exact H].
        unfold Problem.plausible in P.
        repeat (apply andb_true_iff in P; destruct P as [P ?]).
        apply negb_true_iff in P.
        apply collected_snoc; try assumption.
        apply negb_true_iff. assumption.
      * eapply IH; eassumption.
    + apply ret_Ok in H. inversion H; subst. split; [exact Hc | eauto].
Qed.

(** The second loop keeps [collected], and leaves only with [count]
    answers. *)
Lemma fill_loop_collects (fuel : nat) : forall self count wa s l s',
  collected (Problem.correct_answer self) count wa ->
  Problem.fill_loop fuel self count wa s = Ok (l, s') ->
  collected (Problem.correct_answer self) count l /\ count <= Problem.len l.
Proof.
  induction fuel as [| fuel IH]; intros self count wa s l s' Hc H;
    cbn [Problem.fill_loop] in H;
    destruct (Problem.len wa <? count) eqn:E in H.
  - discriminate.
  - apply ret_Ok in H. inversion H; subst. apply Z.ltb_ge in E. auto.
  - apply Z.ltb_lt in E. unbind.
    destruct (negb _ && negb _) eqn:P in H.
    + eapply IH; [| exact H].
      apply andb_true_iff in P. destruct P as [P1 P2].
      apply negb_true_iff in P1, P2.
      apply collected_snoc; assumption.
    + eapply IH; eassumption.
  - apply ret_Ok in H. inversion H; subst. apply Z.ltb_ge in E. auto.
Qed.

Lemma excludes_In (c : pynum) (l : list pynum) (w : pynum) :
  excludes c l = true -> In w l -> py_eqb w c = false.
Proof.
  unfold excludes. rewrite forallb_forall. intros H Hin.
  apply negb_true_iff. apply H. exact Hin.
Qed.

(** C2: whenever [generate_wrong_answers(count)] returns, the list holds
    exactly [count] values, no two of them equal, and none equal to the
    correct answer (equality of Python values). *)
Theorem wrong_answers_are_distinct (fuel : nat) self (count : Z) src l src' :
  0 <= count ->
  Problem.generate_wrong_answers fuel self count src = Ok (l, src') ->
  Problem.len l = count /\
  all_distinct l = true /\
  forall w, In w l -> py_eqb w (Problem.correct_answer self) = false.
Proof.
  intros Hcount H. unfold Problem.generate_wrong_answers in H. unbind.
  apply strategy_loop_collects in Hrun;
    [| split; [exact Hcount | split; reflexivity]].
  destruct Hrun as [Hc _].
  apply (fill_loop_collects _ _ _ _ _ _ _ Hc) in H.
  destruct H as [(Hlen & Hd & He) Hge].
  split; [lia |]. split; [exact Hd |].
  intros w Hin. eapply excludes_In; eassumption.
Qed.

Lemma wrong_answers_are_distinct_witness :
  Problem.generate_wrong_answers 10 four_plus_five 3
    (source_of [0; 0; 2; 8; 9] []) =
  Ok ([PyInt 10; PyInt 18; PyInt 8], source_of [] []) /\
  Problem.len [PyInt 10; PyInt 18; PyInt 8] = 3 /\
  all_distinct [PyInt 10; PyInt 18; PyInt 8] = true /\
  forall w, In w [PyInt 10; PyInt 18; PyInt 8] ->
            py_eqb w (Problem.correct_answer four_plus_five) = false.
Proof.
  assert (Problem.generate_wrong_answers 10 four_plus_five 3
            (source_of [0; 0; 2; 8; 9] []) =
          Ok ([PyInt 10; PyInt 18; PyInt 8], source_of [] [])) as Hrun
    by reflexivity.
  split; [exact Hrun |].
  apply (wrong_answers_are_distinct 10 four_plus_five 3
           (source_of [0; 0; 2; 8; 9] []) _ (source_of [] []));
    [lia | exact Hrun].
Defined.

(** With a correct answer of value zero nothing is plausible: a
    plausible answer differs from zero and has magnitude at most
    [5 * 0]. *)
Lemma plausible_zero (c w : pynum) (wa : list pynum) :
  milli c = 0 -> Problem.plausible c w wa = false.
Proof.
  intros Hc. unfold Problem.plausible, py_eqb, abs_milli. rewrite Hc.
  simpl Z.abs.
  destruct (milli w =? 0) eqn:E; [reflexivity |].
  apply Z.eqb_neq in E.
  assert ((Z.abs (milli w) <=? 0 * 5) = false) as ->
    by (apply Z.leb_gt; lia).
  apply andb_false_r.
Qed.

(** For any problem whose answer has value zero, the first loop never
    returns when at least one answer is asked for. *)
Lemma strategy_loop_zero (fuel : nat) : forall self count s r,
  milli (Problem.correct_answer self) = 0 -> 0 < count ->
  Problem.strategy_loop fuel self count [] s <> Ok r.
Proof.
  induction fuel as [| fuel IH]; intros self count s r Hz Hcount H.
  - rewrite strategy_loop_O in H.
    replace (Problem.len [] <? count) with true in H
      by (symmetry; apply Z.ltb_lt; exact Hcount).
    discriminate H.
  - rewrite strategy_loop_S in H.
    replace (Problem.len [] <? count) with true in H
      by (symmetry; apply Z.ltb_lt; exact Hcount).
    change (true && (Problem.len [] <? Problem.len (Problem.strategies self)))
      with true in H.
    cbv iota in H. destruct r as [l s']. unbind.
    rewrite plausible_zero in H by exact Hz.
    eapply IH; eassumption.
Qed.

Lemma zero_answer_never_returns (fuel : nat) self (count : Z) s r :
  milli (Problem.correct_answer self) = 0 -> 0 < count ->
  Problem.generate_wrong_answers fuel self count s <> Ok r.
Proof.
  intros Hz Hcount H. unfold Problem.generate_wrong_answers in H.
  destruct r as [l s']. unbind.
  eapply strategy_loop_zero; eassumption.
Qed.

Lemma strategies_return_at_zero :
  Forall (fun st : Rand pynum => forall s, exists w s', st s = Ok (w, s'))
         (Problem.strategies five_minus_five).
Proof.
  repeat constructor; intros s; eexists; eexists; reflexivity.
Qed.

Lemma strategy_loop_at_zero (fuel : nat) : forall s,
  Problem.strategy_loop fuel five_minus_five 3 [] s = OutOfFuel.
Proof.
  induction fuel as [| fuel IH]; intros s; [reflexivity |].
  rewrite strategy_loop_S.
  change ((Problem.len [] <? 3)
          && (Problem.len [] <? Problem.len (Problem.strategies five_minus_five)))
    with true.
  cbv iota. unfold bind at 1.
  destruct (random.choice (Problem.strategies five_minus_five) s)
    as [[st s1] | e | ] eqn:E; [| discriminate E | discriminate E].
  apply choice_Ok in E.
  pose proof strategies_return_at_zero as F. rewrite Forall_forall in F.
  destruct (F st E s1) as (w & s2 & Hw).
  unfold bind. rewrite Hw. rewrite plausible_zero by reflexivity. apply IH.
Qed.

(** C1: difficulty 2 generates the problem [5 - 5], whose correct answer
    is 0; on it [generate_wrong_answers(3)] is still running after any
    number of iterations, whatever the draws: it neither returns nor
    raises. *)
Theorem wrong_answers_diverge_at_zero :
  (exists src',
     Problem.__init__ 2 (source_of [4; 4; 1] []) =
     Ok (five_minus_five, src')) /\
  Problem.correct_answer five_minus_five = PyInt 0 /\
  forall (fuel : nat) (src : Source),
    Problem.generate_wrong_answers fuel five_minus_five 3 src = OutOfFuel.
Proof.
  split; [eexists; reflexivity |].
  split; [reflexivity |].
  intros fuel src. unfold Problem.generate_wrong_answers, bind.
  rewrite strategy_loop_at_zero. reflexivity.
Qed.

(** A second way not to return: difficulty 13 generates a circle problem
    with the float answer [12.57], and on it the digit-reversal strategy
    raises [ValueError]. *)
Lemma wrong_answers_raise_on_float :
  (exists src',
     Problem.__init__ 13 (source_of [3; 1; 1; 0] []) =
     Ok (circle_area_two, src')) /\
  Problem.generate_wrong_answers 1 circle_area_two 3 (source_of [10] []) =
  Raise ValueError.
Proof. split; [eexists; reflexivity | reflexivity]. Qed.

End WrongAnswers.

(** ** Kinematics *)

Section Kinematics.

Local Open Scope R_scope.

Lemma clamp_bounds (value lo hi : R) :
  lo <= hi -> lo <= clamp value lo hi <= hi.
Proof.
  intros H. unfold clamp. split.
  - apply Rmax_l.
  - apply Rmax_lub; [exact H | apply Rmin_r].
Qed.

Lemma fdiv_Ok (a b : R) : b <> 0 -> fdiv a b = Ok (a / b).
Proof.
  intros Hb. unfold fdiv.
  destruct (Req_dec_T b 0); [contradiction | reflexivity].
Qed.

(** Over the reals the constructor of a bullet never raises; for the
    zero direction it sets the velocity [(0, -speed)]. *)
Lemma bullet_init_cases (x y : R) (direction : R * R) (speed size : R) :
  exists b,
    Bullet.__init__ x y direction speed size = Ok b /\
    (direction = (0, 0) -> Bullet.dx b = 0 /\ Bullet.dy b = - speed).
Proof.
  destruct direction as [a b]. unfold Bullet.__init__. cbn [fst snd].
  assert (0 <= a * a + b * b) as Hq by nra.
  destruct (Rlt_dec 0 (sqrt (a * a + b * b))) as [Hl | Hl].
  - rewrite !fdiv_Ok by lra. eexists. split; [reflexivity |].
    intros E. inversion E; subst. exfalso.
    replace (0 * 0 + 0 * 0) with 0 in Hl by ring.
    rewrite sqrt_0 in Hl. lra.
  - eexists. split; [reflexivity |]. intros _. split; reflexivity.
Qed.

Lemma player_update_cases (self : Player.t) (dt : R) (keys : key -> bool)
  (jitter : R * R) :
  2 * Player.size self <= IZR WINDOW_HEIGHT ->
  exists p' b fx,
    Player.update self dt keys jitter = Ok (p', b, fx) /\
    Player.size p' = Player.size self /\
    Player.size p' <= Player.x p' <= IZR WINDOW_WIDTH - Player.size p' /\
    Player.size p' <= Player.y p' <= IZR WINDOW_HEIGHT - Player.size p'.
Proof.
  intros Hs. unfold Player.update.
  destruct (Player.steer keys (Player.direction self)) as [[dxi dyi] dir].
  unfold WINDOW_HEIGHT, WINDOW_WIDTH in *.
  match goal with
  | |- context [if ?f
                then match Bullet.__init__ ?bx ?by_ ?d ?sp ?sz with _ => _ end
                else _] =>
      destruct (bullet_init_cases bx by_ d sp sz) as (b & Hb & _);
      destruct f; [rewrite Hb |]
  end;
  (eexists; eexists; eexists; split; [reflexivity |];
   cbn [Player.x Player.y Player.size];
   split; [reflexivity |];
   split; apply clamp_bounds; lra).
Qed.

Lemma take_damage_size (self : Player.t) :
  Player.size (fst (fst (Player.take_damage self))) = Player.size self.
Proof.
  unfold Player.take_damage. destruct (Player.invulnerable self); reflexivity.
Qed.

Lemma plays_keep_size (steps : list player_step) : forall self,
  2 * Player.size self <= IZR WINDOW_HEIGHT ->
  exists p, plays self steps = Ok p /\ Player.size p = Player.size self.
Proof.
  induction steps as [| [dt keys jitter |] rest IH]; intros self Hs.
  - exists self. split; reflexivity.
  - cbn [plays].
    destruct (player_update_cases self dt keys jitter Hs)
      as (p' & b & fx & Hu & Hsz & _).
    rewrite Hu. destruct (IH p') as (p & Hp & Hpz); [rewrite Hsz; exact Hs |].
    exists p. split; [exact Hp | congruence].
  - cbn [plays].
    destruct (IH (fst (fst (Player.take_damage self)))) as (p & Hp & Hpz);
      [rewrite take_damage_size; exact Hs |].
    exists p. split; [exact Hp |]. rewrite Hpz. apply take_damage_size.
Qed.

(** C6: take a player built by the constructor, at any position, and
    let the game update and damage it any number of times, in any
    order.  The next [Player.update] returns, for any pressed keys, any
    delta time and any particle jitter, and the position it leaves is
    inside [size, width - size] x [size, height - size].  The same holds
    for an update of any player object whatever, damaged or
    invulnerable, whose size is at most half the arena height. *)
Theorem player_stays_in_arena (x0 y0 : R) (steps : list player_step)
  (dt : R) (keys : key -> bool) (jitter : R * R) :
  (exists p p' b fx,
     plays (Player.__init__ x0 y0) steps = Ok p /\
     Player.update p dt keys jitter = Ok (p', b, fx) /\
     Player.size p' <= Player.x p' <= IZR WINDOW_WIDTH - Player.size p' /\
     Player.size p' <= Player.y p' <= IZR WINDOW_HEIGHT - Player.size p') /\
  (forall self : Player.t,
     2 * Player.size self <= IZR WINDOW_HEIGHT ->
     exists p' b fx,
       Player.update self dt keys jitter = Ok (p', b, fx) /\
       Player.size p' <= Player.x p' <= IZR WINDOW_WIDTH - Player.size p' /\
       Player.size p' <= Player.y p' <= IZR WINDOW_HEIGHT - Player.size p').
Proof.
  split.
  - assert (2 * Player.size (Player.__init__ x0 y0) <= IZR WINDOW_HEIGHT)
      as Hs by (unfold WINDOW_HEIGHT; simpl; lra).
    destruct (plays_keep_size steps _ Hs) as (p & Hp & Hpz).
    destruct (player_update_cases p dt keys jitter)
      as (p' & b & fx & Hu & _ & Hx & Hy); [rewrite Hpz; exact Hs |].
    exists p, p', b, fx. repeat split; try assumption; apply Hx || apply Hy.
  - intros self Hs.
    destruct (player_update_cases self dt keys jitter Hs)
      as (p' & b & fx & Hu & _ & Hx & Hy).
    exists p', b, fx. repeat split; try assumption; apply Hx || apply Hy.
Qed.

Lemma move_size (self : Enemy.t) (dt u turn : R) :
  Enemy.size (Enemy.move self dt u turn) = Enemy.size self.
Proof. unfold Enemy.move. destruct (Enemy.movement_type self); reflexivity. Qed.

(** What [update] does to a live enemy that moved beyond the right
    boundary. *)
Lemma update_right_cases (self : Enemy.t) (dt u turn : R) :
  Enemy.is_alive self = true ->
  2 * Enemy.size self <= IZR WINDOW_WIDTH ->
  Enemy.x (Enemy.move self dt u turn) > IZR WINDOW_WIDTH - Enemy.size self ->
  let moved := Enemy.move self dt u turn in
  let after := Enemy.update self dt u turn in
  Enemy.direction (Enemy.bounce_x moved) = PI - Enemy.direction moved /\
  after = Enemy.bounce_y (Enemy.bounce_x moved) /\
  Enemy.x after = IZR WINDOW_WIDTH - Enemy.size self /\
  Enemy.direction after =
    if Rlt_dec (Enemy.y moved) (Enemy.size self)
    then - (PI - Enemy.direction moved)
    else if Rgt_dec (Enemy.y moved) (IZR WINDOW_HEIGHT - Enemy.size self)
         then - (PI - Enemy.direction moved)
         else PI - Enemy.direction moved.
Proof.
  intros Halive Hsize Hx moved after. subst after. unfold Enemy.update.
  rewrite Halive. cbn [negb]. fold moved in Hx |- *.
  pose proof (move_size self dt u turn) as Hms. fold moved in Hms.
  split; [| split; [reflexivity |]];
    unfold Enemy.bounce_x; rewrite Hms;
    (destruct (Rlt_dec (Enemy.x moved) (Enemy.size self)) as [Hl | _];
       [lra |]);
    (destruct (Rgt_dec (Enemy.x moved) (IZR WINDOW_WIDTH - Enemy.size self))
       as [_ | Hn]; [| contradiction]);
    [reflexivity |].
  unfold Enemy.bounce_y.
  cbn [Enemy.with_motion Enemy.x Enemy.y Enemy.size Enemy.direction
       Enemy.movement_timer].
  rewrite Hms.
  destruct (Rlt_dec (Enemy.y moved) (Enemy.size self));
    [| destruct (Rgt_dec (Enemy.y moved) (IZR WINDOW_HEIGHT - Enemy.size self))];
    cbn [Enemy.with_motion Enemy.x Enemy.y Enemy.size Enemy.direction];
    repeat split; reflexivity.
Qed.

(** C7, as amended: when the movement step of [update] takes a live
    enemy (of any movement variant, no wider than half the arena) beyond
    the right boundary, the horizontal check replaces the heading used
    for the step, [d], by [pi - d] and sets [x] to [width - size]; the
    vertical check follows, and if the same step also left the arena
    through the top or the bottom it negates that heading.  So after
    [update] the heading is [pi - d], or [-(pi - d)] in a corner, [pi]
    standing for [math.pi] and the subtraction for the code's. *)
Theorem enemy_right_bounce (self : Enemy.t) (dt u turn : R) :
  Enemy.is_alive self = true ->
  2 * Enemy.size self <= IZR WINDOW_WIDTH ->
  Enemy.x (Enemy.move self dt u turn) > IZR WINDOW_WIDTH - Enemy.size self ->
  let moved := Enemy.move self dt u turn in
  let after := Enemy.update self dt u turn in
  Enemy.direction (Enemy.bounce_x moved) = PI - Enemy.direction moved /\
  after = Enemy.bounce_y (Enemy.bounce_x moved) /\
  Enemy.x after = IZR WINDOW_WIDTH - Enemy.size self /\
  Enemy.direction after =
    if Rlt_dec (Enemy.y moved) (Enemy.size self)
    then - (PI - Enemy.direction moved)
    else if Rgt_dec (Enemy.y moved) (IZR WINDOW_HEIGHT - Enemy.size self)
         then - (PI - Enemy.direction moved)
         else PI - Enemy.direction moved.
Proof. exact (update_right_cases self dt u turn). Qed.

Lemma wall_move :
  Enemy.move wall_enemy 0.016 0.5 0 =
  Enemy.with_motion wall_enemy
    (869.5 + cos 0 * (ENEMY_SPEED_BASE * 0.8))
    (300 + sin 0 * (ENEMY_SPEED_BASE * 0.8)) 0 (0 + 0.016).
Proof.
  unfold Enemy.move. cbn [Enemy.movement_type wall_enemy].
  destruct (Rlt_dec 0.5 0.01) as [H | _]; [lra | reflexivity].
Qed.

Lemma enemy_right_bounce_witness :
  Enemy.is_alive wall_enemy = true /\
  2 * Enemy.size wall_enemy <= IZR WINDOW_WIDTH /\
  Enemy.x (Enemy.move wall_enemy 0.016 0.5 0)
    > IZR WINDOW_WIDTH - Enemy.size wall_enemy /\
  Enemy.x (Enemy.update wall_enemy 0.016 0.5 0)
    = IZR WINDOW_WIDTH - Enemy.size wall_enemy /\
  Enemy.direction (Enemy.bounce_x (Enemy.move wall_enemy 0.016 0.5 0))
    = PI - Enemy.direction (Enemy.move wall_enemy 0.016 0.5 0).
Proof.
  assert (2 * Enemy.size wall_enemy <= IZR WINDOW_WIDTH) as Hs
    by (unfold WINDOW_WIDTH; simpl; lra).
  assert (Enemy.x (Enemy.move wall_enemy 0.016 0.5 0)
          > IZR WINDOW_WIDTH - Enemy.size wall_enemy) as Hx.
  { rewrite wall_move. unfold WINDOW_WIDTH, ENEMY_SPEED_BASE.
    cbn [Enemy.with_motion Enemy.x Enemy.size wall_enemy].
    rewrite cos_0. lra. }
  split; [reflexivity |]. split; [exact Hs |]. split; [exact Hx |].
  destruct (enemy_right_bounce wall_enemy 0.016 0.5 0 eq_refl Hs Hx)
    as (H2 & _ & H1 & _).
  split; [exact H1 | exact H2].
Defined.

Lemma corner_move :
  Enemy.move corner_enemy 0.016 0.5 0 =
  Enemy.with_motion corner_enemy
    (870 + cos (PI / 4) * (ENEMY_SPEED_BASE * 0.8))
    (670 + sin (PI / 4) * (ENEMY_SPEED_BASE * 0.8)) (PI / 4) (0 + 0.016).
Proof.
  unfold Enemy.move. cbn [Enemy.movement_type corner_enemy].
  destruct (Rlt_dec 0.5 0.01) as [H | _]; [lra | reflexivity].
Qed.

(** C7, as stated, fails in a corner: a live linear enemy at
    [(870, 670)] heading [pi/4] moves beyond the right and the bottom
    boundary in one step; its [x] is clamped, but its heading becomes
    [-(pi - pi/4)], not [pi - pi/4]. *)
Lemma enemy_corner_bounce :
  Enemy.is_alive corner_enemy = true /\
  Enemy.x (Enemy.move corner_enemy 0.016 0.5 0)
    > IZR WINDOW_WIDTH - Enemy.size corner_enemy /\
  Enemy.direction (Enemy.move corner_enemy 0.016 0.5 0) = PI / 4 /\
  Enemy.direction (Enemy.update corner_enemy 0.016 0.5 0) = - (PI - PI / 4) /\
  Enemy.direction (Enemy.update corner_enemy 0.016 0.5 0) <> PI - PI / 4.
Proof.
  assert (0 < cos (PI / 4)) as Hc
    by (apply cos_gt_0; pose proof PI_RGT_0; lra).
  assert (0 < sin (PI / 4)) as Hs
    by (apply sin_gt_0; pose proof PI_RGT_0; lra).
  pose proof PI_RGT_0 as Hpi.
  assert (Enemy.x (Enemy.move corner_enemy 0.016 0.5 0)
          > IZR WINDOW_WIDTH - Enemy.size corner_enemy) as Hx.
  { rewrite corner_move. unfold WINDOW_WIDTH, ENEMY_SPEED_BASE.
    cbn [Enemy.with_motion Enemy.x Enemy.size corner_enemy]. nra. }
  split; [reflexivity |]. split; [exact Hx |].
  split; [rewrite corner_move; reflexivity |].
  destruct (update_right_cases corner_enemy 0.016 0.5 0)
    as (_ & _ & _ & Hd);
    [reflexivity
    | unfold WINDOW_WIDTH; cbn [Enemy.size corner_enemy]; lra
    | exact Hx |].
  rewrite Hd. rewrite corner_move.
  unfold WINDOW_HEIGHT, ENEMY_SPEED_BASE.
  cbn [Enemy.with_motion Enemy.y Enemy.size Enemy.direction corner_enemy].
  destruct (Rlt_dec (670 + sin (PI / 4) * (1.5 * 0.8)) 30) as [H | _];
    [nra |].
  destruct (Rgt_dec (670 + sin (PI / 4) * (1.5 * 0.8)) (700 - 30))
    as [_ | H]; [split; lra | exfalso; apply H; nra].
Qed.

End Kinematics.

(** ** Rounding in the bullet constructor *)

Section Rounding.

Import Floats.
Import binary64.
Local Open Scope float_scope.



#[local] Set Warnings "-inexact-float".



(** A huge component raises [OverflowError] before anything is
    divided. *)
Lemma bullet_overflow (x y speed size : float) :
  binary64.Bullet.__init__ x y (1e200, 0) speed size = Raise OverflowError.
Proof. reflexivity. Qed.

End Rounding.

(** ** The session *)

Section Session.

Lemma reward_enemies_score (level : Z) (enemies : list Enemy.t) :
  forall score fx,
    fst (Game.reward_enemies level enemies score fx) =
    score + 5 * level * live_count enemies.
Proof.
  unfold Game.reward_enemies, live_count.
  induction enemies as [| e t IH]; intros score fx; cbn [fold_left filter].
  - simpl. lia.
  - destruct (Enemy.is_alive e).
    + rewrite IH. cbn [fst List.length]. lia.
    + apply IH.
Qed.

Lemma celebrate_total (n : nat) : forall s,
  exists fx s', Game.celebrate n s = Ok (fx, s').
Proof.
  induction n as [| n IH]; intros s; cbn [Game.celebrate].
  - eexists. eexists. reflexivity.
  - destruct (randint_total 0 Game.width s) as (ex & s1 & Hx & _);
      [unfold Game.width, WINDOW_WIDTH; lia |].
    destruct (randint_total 0 (Game.height / 2) s1) as (ey & s2 & Hy & _);
      [unfold Game.height, WINDOW_HEIGHT; apply Z.div_pos; lia |].
    destruct (IH s2) as (fx & s3 & Hf).
    unfold bind. rewrite Hx, Hy, Hf. eexists. eexists. reflexivity.
Qed.

(** C3: a correct answer, with streak [s], level [L] and [n] live
    enemies (in any state, PLAYING in particular), always returns; the
    score grows by [50 L], plus [25 (s + 1)] when [s + 1 > 1], plus
    [5 L] per live enemy; the streak becomes [s + 1]; no enemy is left;
    the level grows by one exactly when [(s + 1) mod 3 = 0] and is
    unchanged otherwise; the state is LEVEL_TRANSITION. *)
Theorem correct_answer_rewards (self : Game.t) (button : Button.t)
  (src : Source) :
  exists g' b' src',
    Game.handle_answer self button true src = Ok (g', b', src') /\
    Game.score g' =
      Game.score self + 50 * Game.level self
      + (if Game.streak self + 1 >? 1 then 25 * (Game.streak self + 1) else 0)
      + 5 * Game.level self * live_count (Game.enemies self) /\
    Game.streak g' = Game.streak self + 1 /\
    Game.enemies g' = [] /\
    Game.level g' =
      (if (Game.streak self + 1) mod 3 =? 0 then Game.level self + 1
       else Game.level self) /\
    Game.state g' = LEVEL_TRANSITION.
Proof.
  unfold Game.handle_answer.
  pose proof (reward_enemies_score (Game.level self) (Game.enemies self)) as Hr.
  match goal with
  | |- context [Game.reward_enemies ?l ?e ?sc ?fx] =>
      specialize (Hr sc fx);
      destruct (Game.reward_enemies l e sc fx) as [score3 fx3]
  end.
  cbn [fst] in Hr.
  destruct ((Game.streak self + 1) mod 3 =? 0).
  - unfold Game.level_up, bind.
    match goal with
    | |- context [Game.celebrate 8 ?s] =>
        destruct (celebrate_total 8 s) as (fx & s' & Hc); rewrite Hc
    end.
    eexists. eexists. eexists. split; [reflexivity |].
    cbn [Game.score Game.streak Game.enemies Game.level Game.state].
    repeat split; try reflexivity.
    rewrite Hr. destruct (Game.streak self + 1 >? 1); lia.
  - unfold bind, ret.
    eexists. eexists. eexists. split; [reflexivity |].
    cbn [Game.score Game.streak Game.enemies Game.level Game.state].
    repeat split; try reflexivity.
    rewrite Hr. destruct (Game.streak self + 1 >? 1); lia.
Qed.

Lemma create_new_problem_frame (fuel : nat) (self : Game.t) (s : Source)
  g s' :
  Game.create_new_problem fuel self s = Ok (g, s') -> same_session g self.
Proof.
  unfold Game.create_new_problem. intros H. unbind.
  inversion H; subst. clear H. repeat split.
Qed.

Lemma spawn_enemies_frame (fuel : nat) (self : Game.t) (s : Source) g s' :
  Game.spawn_enemies fuel self s = Ok (g, s') -> same_session g self.
Proof.
  unfold Game.spawn_enemies. intros H. unbind.
  inversion H; subst. clear H. repeat split.
Qed.

(** C10: when [reset_game] returns, score, streak and kills of this game
    are 0, the level is 1, the player is a new one at the centre of the
    arena, there are no bullets, and the high score and the total kill
    count are those from before the call. *)
Theorem reset_game_frame (fuel : nat) (self : Game.t) (src : Source)
  g' src' :
  Game.reset_game fuel self src = Ok (g', src') ->
  Game.score g' = 0 /\ Game.level g' = 1 /\ Game.streak g' = 0 /\
  Game.enemies_killed g' = 0 /\
  Game.player g' =
    Player.__init__ (IZR (Game.width / 2)) (IZR (Game.height / 2)) /\
  Game.bullets g' = [] /\
  Game.high_score g' = Game.high_score self /\
  Game.total_enemies_killed g' = Game.total_enemies_killed self.
Proof.
  unfold Game.reset_game. intros H. unbind.
  apply spawn_enemies_frame in H. apply create_new_problem_frame in Hrun.
  destruct H as (H1 & H2 & H3 & H4 & H5 & H6 & H7 & H8).
  destruct Hrun as (G1 & G2 & G3 & G4 & G5 & G6 & G7 & G8).
  cbn [Game.score Game.level Game.streak Game.enemies_killed Game.player
       Game.bullets Game.high_score Game.total_enemies_killed] in *.
  repeat split; congruence.
Qed.

(** *** A run of [reset_game] that returns *)

Lemma randint_zero (a b : Z) (s : Source) :
  a <= b -> zero_ints s ->
  exists s', random.randint a b s = Ok (a, s') /\ zero_ints s'.
Proof.
  intros Hab Hz. unfold random.randint.
  destruct (b <? a) eqn:E; [apply Z.ltb_lt in E; lia |].
  cbv [bind random.next_int ret]. rewrite Hz. rewrite Z.mod_0_l by lia.
  rewrite Z.add_0_r. eexists. split; [reflexivity |].
  intros n. apply Hz.
Qed.

Lemma choice_zero {A} (d : A) (l : list A) (s : Source) :
  zero_ints s ->
  exists s', random.choice (d :: l) s = Ok (d, s') /\ zero_ints s'.
Proof.
  intros Hz. rewrite choice_nth. rewrite Hz.
  rewrite Z.mod_0_l by (simpl List.length; lia).
  eexists. split; [reflexivity |]. intros n. apply Hz.
Qed.

Lemma uniform_zero (a b : R) (s : Source) :
  zero_ints s ->
  exists r s', random.uniform a b s = Ok (r, s') /\ zero_ints s'.
Proof.
  intros Hz. cbv [random.uniform random.random random.next_real bind ret].
  eexists. eexists. split; [reflexivity |]. intros n. apply Hz.
Qed.

Lemma enemy_init_zero (x y : R) (difficulty : Z) (size : R) (s : Source) :
  zero_ints s ->
  exists e s',
    Enemy.__init__ x y difficulty size None s = Ok (e, s') /\ zero_ints s'.
Proof.
  intros Hz. unfold Enemy.__init__.
  destruct (if (difficulty <=? 3) then _ else _) as [health speed].
  destruct (choice_zero linear [sinusoidal; circular; accelerating] s Hz)
    as (s1 & H1 & Hz1).
  destruct (uniform_zero 0 (2 * PI) s1 Hz1) as (r & s2 & H2 & Hz2).
  destruct (choice_zero (hd ""%string Enemy.symbols) (tl Enemy.symbols) s2 Hz2)
    as (s3 & H3 & Hz3).
  change (hd ""%string Enemy.symbols :: tl Enemy.symbols)
    with Enemy.symbols in H3.
  unfold bind at 1. rewrite H1. unfold bind at 1. rewrite H2.
  unfold bind at 1. rewrite H3. unfold ret.
  eexists. eexists. split; [reflexivity | exact Hz3].
Qed.

(** The corner [(50, 50)] is 500 away from the centre [(450, 350)]. *)
Lemma far_corner :
  (sqrt ((50 - 450) * (50 - 450) + (50 - 350) * (50 - 350)) > 150)%R.
Proof.
  replace ((50 - 450) * (50 - 450) + (50 - 350) * (50 - 350))%R
    with (500 * 500)%R by ring.
  rewrite sqrt_square; lra.
Qed.

Lemma find_spawn_zero (fuel : nat) (p : Player.t) (s : Source) :
  Player.x p = 450%R -> Player.y p = 350%R -> zero_ints s ->
  exists s', Game.find_spawn (S fuel) p s = Ok ((50, 50), s') /\ zero_ints s'.
Proof.
  intros Hx Hy Hz. cbn [Game.find_spawn].
  destruct (randint_zero 50 (Game.width - 50) s) as (s1 & H1 & Hz1);
    [unfold Game.width, WINDOW_WIDTH; lia | exact Hz |].
  destruct (randint_zero 50 (Game.height - 180) s1) as (s2 & H2 & Hz2);
    [unfold Game.height, WINDOW_HEIGHT; lia | exact Hz1 |].
  unfold bind at 1. rewrite H1. unfold bind at 1. rewrite H2.
  rewrite Hx, Hy.
  destruct (Rgt_dec _ 150) as [_ | Hn];
    [| exfalso; apply Hn; exact far_corner].
  eexists. split; [reflexivity | exact Hz2].
Qed.

Lemma spawn_zero (fuel : nat) (p : Player.t) (level : Z) (n : nat) :
  Player.x p = 450%R -> Player.y p = 350%R ->
  forall enemies s, zero_ints s ->
  exists l s', Game.spawn (S fuel) n p level enemies s = Ok (l, s').
Proof.
  intros Hx Hy. induction n as [| n IH]; intros enemies s Hz.
  - eexists. eexists. reflexivity.
  - cbn [Game.spawn].
    destruct (find_spawn_zero fuel p s Hx Hy Hz) as (s1 & H1 & Hz1).
    unfold bind at 1. rewrite H1. cbn [fst snd].
    destruct (enemy_init_zero 50 50 level 30 s1 Hz1) as (e & s2 & H2 & Hz2).
    unfold bind at 1. rewrite H2. apply IH. exact Hz2.
Qed.

(** On [reset_source], with three units of fuel per loop, resetting
    [paused_game] returns. *)
Lemma reset_game_returns :
  exists g' s', Game.reset_game 3 paused_game reset_source = Ok (g', s').
Proof.
  unfold Game.reset_game. cbv zeta.
  match goal with
  | |- context [Game.create_new_problem 3 ?f] => set (fresh := f)
  end.
  assert (exists g1 s1,
            Game.create_new_problem 3 fresh reset_source = Ok (g1, s1)
            /\ zero_ints s1) as (g1 & s1 & Hrun & Hz).
  { eexists. eexists. split; [reflexivity |]. intros n. reflexivity. }
  pose proof (create_new_problem_frame _ _ _ _ _ Hrun)
    as (_ & _ & _ & _ & Hp & _).
  unfold bind. rewrite Hrun. unfold Game.spawn_enemies.
  destruct (spawn_zero 2 (Game.player g1) (Game.level g1)
              (Z.to_nat (Z.min (3 + Game.level g1 / 2) 10)))
    with (enemies := @nil Enemy.t) (s := s1) as (l & s2 & Hs);
    [rewrite Hp; reflexivity | rewrite Hp; reflexivity | exact Hz |].
  unfold bind. rewrite Hs. eexists. eexists. reflexivity.
Qed.

Lemma reset_game_frame_witness :
  exists g' s',
    Game.reset_game 3 paused_game reset_source = Ok (g', s') /\
    Game.score g' = 0 /\ Game.level g' = 1 /\ Game.streak g' = 0 /\
    Game.enemies_killed g' = 0 /\
    Game.player g' =
      Player.__init__ (IZR (Game.width / 2)) (IZR (Game.height / 2)) /\
    Game.bullets g' = [] /\
    Game.high_score g' = Game.high_score paused_game /\
    Game.total_enemies_killed g' = Game.total_enemies_killed paused_game.
Proof.
  destruct reset_game_returns as (g' & s' & H).
  exists g', s'. split; [exact H |].
  exact (reset_game_frame 3 paused_game reset_source g' s' H).
Defined.

End Session.

(** * Further properties *)

(** ** More on the problem families *)

Section Families.

Ltac fields :=
  cbn [Problem.num1 Problem.num2 Problem.num3 Problem.operator
       Problem.correct_answer Problem.problem_text Problem.difficulty
       apply_op Problem.str Problem.plain].

Ltac ranges :=
  repeat match goal with
  | H : random.randint _ _ _ = Ok _ |- _ => apply randint_Ok in H
  end.

Ltac lifted :=
  match goal with
  | H : lift _ _ = Ok _ |- _ =>
      apply lift_Ok in H; destruct H as [H _]; inversion H; subst; clear H
  end.

Lemma basic_shape (d : Z) (src : Source) p src' :
  1 <= d ->
  Problem._generate_basic_arithmetic d src = Ok (p, src') ->
  exists a b o r,
    arithmetic p a b o r /\ (o = Add \/ o = Sub) /\
    (d = 1 -> o = Add) /\
    1 <= a <= 10 * d /\ 1 <= b <= 10 * d /\
    Problem.problem_text p =
      (Num.str_of_Z a ++ " " ++ op_text o ++ " " ++ Num.str_of_Z b)%string.
Proof.
  intros Hd H. unfold Problem._generate_basic_arithmetic in H. unbind.
  apply randint_Ok in Hrun, Hrun0.
  destruct (d =? 1) eqn:E1.
  - split_run. apply lift_Ok in Hrun2. destruct Hrun2 as [Hc _].
    inversion Hc; subst. clear Hc.
    exists v, v0, Add, (v + v0). unfold arithmetic. fields.
    repeat split; auto; lia.
  - apply Z.eqb_neq in E1. unbind. apply choice_Ok in Hrun2.
    destruct Hrun2 as [<- | [<- | []]].
    + cbn [op_eqb andb] in Hrun1. split_run.
      apply lift_Ok in Hrun2. destruct Hrun2 as [Hc _].
      inversion Hc; subst. clear Hc.
      exists v, v0, Add, (v + v0). unfold arithmetic. fields.
      repeat split; auto; lia.
    + cbn [op_eqb andb] in Hrun1.
      destruct (v0 >? v) eqn:G; split_run;
        apply lift_Ok in Hrun2; destruct Hrun2 as [Hc _];
        inversion Hc; subst; clear Hc.
      * exists v0, v, Sub, (v0 - v). unfold arithmetic. fields.
        repeat split; auto; lia.
      * exists v, v0, Sub, (v - v0). unfold arithmetic. fields.
        repeat split; auto; lia.
Qed.

Lemma intermediate_shape (d : Z) (src : Source) p src' :
  4 <= d ->
  Problem._generate_intermediate_arithmetic d src = Ok (p, src') ->
  exists a b o r,
    arithmetic p a b o r /\
    (o = Add \/ o = Sub \/ o = Mul \/ o = Div) /\
    (d = 4 -> o <> Div) /\
    (o = Mul -> 2 <= a <= 8 * d /\ 2 <= b <= 4 * d) /\
    (o = Div -> 2 <= b <= 4 * d /\ 1 <= r <= 10 /\ a = b * r) /\
    Problem.problem_text p =
      (Num.str_of_Z a ++ " " ++ op_text o ++ " " ++ Num.str_of_Z b)%string.
Proof.
  intros Hd H. unfold Problem._generate_intermediate_arithmetic in H.
  assert (8 * d / 2 = 4 * d) as Hhalf
    by (replace (8 * d) with (4 * d * 2) by lia; apply Z.div_mul; lia).
  rewrite Hhalf in H.
  unbind. apply randint_Ok in Hrun.
  assert (In v0 [Add; Sub; Mul; Div] /\ (d = 4 -> v0 <> Div)) as [Hin H4].
  { destruct (d <=? 4) eqn:E.
    - apply choice_Ok in Hrun0. split.
      + simpl in Hrun0 |- *. intuition auto.
      + intros _ ->. simpl in Hrun0. intuition discriminate.
    - apply choice_Ok in Hrun0. split; [exact Hrun0 |].
      apply Z.leb_gt in E. lia. }
  clear Hrun0.
  destruct Hin as [<- | [<- | [<- | [<- | []]]]].
  - unbind. ranges. cbn [op_eqb andb] in *. split_run. lifted.
    exists v, v0, Add, (v + v0). unfold arithmetic. fields.
    repeat split; auto; try lia; try discriminate.
  - unbind. ranges. cbn [op_eqb andb] in *.
    match goal with
    | H : (if ?a >? ?b then _ else _) _ = Ok _ |- _ => destruct (a >? b) eqn:G
    end; split_run; lifted.
    + exists v0, v, Sub, (v0 - v). unfold arithmetic. fields.
      repeat split; auto; try lia; try discriminate.
    + exists v, v0, Sub, (v - v0). unfold arithmetic. fields.
      repeat split; auto; try lia; try discriminate.
  - unbind. ranges. split_run. lifted.
    exists v, v0, Mul, (v * v0). unfold arithmetic. fields.
    repeat split; auto; try lia; try discriminate; nia.
  - unbind. ranges. split_run.
    match goal with
    | H : lift _ _ = Ok _ |- _ =>
        apply lift_Ok in H; destruct H as [Hc _];
        rewrite calculate_division in Hc
          by (try lia; rewrite Z.mul_comm; apply Z.mod_mul; lia);
        inversion Hc; subst; clear Hc
    end.
    assert (v0 * v2 / v0 = v2) as Hq by (rewrite Z.mul_comm; apply Z.div_mul; lia).
    assert ((v0 * v2) mod v0 = 0) as Hm by (rewrite Z.mul_comm; apply Z.mod_mul; lia).
    exists (v0 * v2), v0, Div, v2. unfold arithmetic. fields.
    rewrite Hq, Hm.
    replace (v0 =? 0) with false by (symmetry; apply Z.eqb_neq; lia).
    cbn [orb negb Z.eqb].
    repeat split; auto; try lia; try discriminate.
Qed.

Lemma advanced_arithmetic_shape (d : Z) (src : Source) p src' :
  Problem._generate_advanced_arithmetic d src = Ok (p, src') ->
  advanced_shape p.
Proof.
  unfold Problem._generate_advanced_arithmetic. intros H. unbind.
  repeat match goal with
  | H : (if ?c then _ else _) _ = Ok _ |- _ => destruct c
  end; unbind; ranges;
  try match goal with
  | H : random.choice Problem.mixed_ops _ = Ok _ |- _ =>
      apply choice_Ok in H;
      destruct H as [<- | [<- | [<- | [<- | []]]]]
  end;
  match goal with
  | H : (_, _) = (_, _) |- _ => inversion H; subst; clear H
  end;
  unfold advanced_shape; fields; cbn [fst snd]; eauto 8.
Qed.

Lemma simple_algebra_shape (d : Z) (src : Source) p src' :
  Problem._generate_simple_algebra d src = Ok (p, src') ->
  algebra_shape p.
Proof.
  unfold Problem._generate_simple_algebra. intros H. unbind.
  repeat match goal with
  | H : (if ?c then _ else _) _ = Ok _ |- _ => destruct c
  end; unbind; ranges;
  repeat match goal with
  | H : (if ?c then _ else _) _ = Ok _ |- _ => destruct c; unbind
  end;
  match goal with
  | H : (_, _) = (_, _) |- _ => inversion H; subst; clear H
  end;
  unfold algebra_shape; fields; repeat split; eexists; (split; [reflexivity |]).
  - left. eauto 8.
  - right. left. eauto 8.
  - right. right. left. eauto 8.
  - right. right. right. eauto 8.
Qed.


(** X1: [Problem(difficulty)] returns a problem for every difficulty
    from 1 on, whatever the draws, and raises [ValueError] for every
    difficulty below 1 (the first [randint(1, 10 * difficulty)] has an
    empty range). *)
Theorem problem_init_domain (d : Z) (src : Source) :
  (1 <= d /\ exists p src', Problem.__init__ d src = Ok (p, src')) \/
  (d <= 0 /\ Problem.__init__ d src = Raise ValueError).
Proof.
  destruct (Z_le_gt_dec 1 d) as [H | H].
  - left. split; [exact H |].
    destruct (generate_returns d H src) as (p & src' & Hp & _).
    exists p, src'. exact Hp.
  - right. split; [lia |].
    unfold Problem.__init__, Problem.generate.
    replace (Z.min d 15 <=? 3) with true by (symmetry; apply Z.leb_le; lia).
    unfold Problem._generate_basic_arithmetic, bind, random.randint.
    replace (10 * d <? 1) with true by (symmetry; apply Z.ltb_lt; lia).
    reflexivity.
Qed.

(** X2: a problem of difficulty 1-3 has both operands in
    [1 .. 10 * difficulty], the operator ['+'] or ['-'], an integer
    answer that is the operator applied to the stored operands and is
    never negative, and the text "num1 op num2". *)
Theorem basic_arithmetic_result (d : Z) (src : Source) p src' :
  1 <= d <= 3 ->
  Problem.__init__ d src = Ok (p, src') ->
  exists a b o r,
    arithmetic p a b o r /\ (o = Add \/ o = Sub) /\
    1 <= a <= 10 * d /\ 1 <= b <= 10 * d /\
    Problem.problem_text p =
      (Num.str_of_Z a ++ " " ++ op_text o ++ " " ++ Num.str_of_Z b)%string.
Proof.
  intros Hd H. unfold Problem.__init__, Problem.generate in H.
  replace (Z.min d 15 <=? 3) with true in H
    by (symmetry; apply Z.leb_le; lia).
  destruct (basic_shape d src p src') as (a & b & o & r & Ha & Ho & _ & Hr);
    [lia | exact H |].
  exists a, b, o, r. repeat split; try apply Ha; try apply Hr; exact Ho.
Qed.

Lemma basic_arithmetic_result_witness :
  exists a b o r,
    arithmetic four_plus_five a b o r /\ (o = Add \/ o = Sub) /\
    1 <= a <= 10 * 1 /\ 1 <= b <= 10 * 1 /\
    Problem.problem_text four_plus_five =
      (Num.str_of_Z a ++ " " ++ op_text o ++ " " ++ Num.str_of_Z b)%string.
Proof.
  eapply (basic_arithmetic_result 1 (source_of [3; 4] []) four_plus_five);
    [lia | reflexivity].
Defined.

(** X3: a problem of difficulty 4-6 has one of the four basic operators
    and an integer answer that is the operator applied to the stored
    operands and is never negative; a product has its second factor in
    [2 .. 4 * difficulty]; a division only appears from difficulty 5 on,
    with a divisor in [2 .. 4 * difficulty] and a quotient in
    [1 .. 10]. *)
Theorem intermediate_arithmetic_result (d : Z) (src : Source) p src' :
  4 <= d <= 6 ->
  Problem.__init__ d src = Ok (p, src') ->
  exists a b o r,
    arithmetic p a b o r /\
    (o = Add \/ o = Sub
     \/ (o = Mul /\ 2 <= a <= 8 * d /\ 2 <= b <= 4 * d)
     \/ (o = Div /\ 5 <= d /\ 2 <= b <= 4 * d /\ 1 <= r <= 10 /\ a = b * r)).
Proof.
  intros Hd H. unfold Problem.__init__, Problem.generate in H.
  replace (Z.min d 15 <=? 3) with false in H
    by (symmetry; apply Z.leb_gt; lia).
  replace (Z.min d 15 <=? 6) with true in H
    by (symmetry; apply Z.leb_le; lia).
  destruct (intermediate_shape d src p src')
    as (a & b & o & r & Ha & Ho & H4 & Hmul & Hdiv & _); [lia | exact H |].
  exists a, b, o, r. split; [exact Ha |].
  destruct Ho as [-> | [-> | [-> | ->]]]; auto.
  - right. right. left. split; [reflexivity | apply Hmul; reflexivity].
  - right. right. right. split; [reflexivity |].
    split; [| apply Hdiv; reflexivity].
    destruct (Z.eq_dec d 4) as [E | E]; [exfalso; apply (H4 E); reflexivity | lia].
Qed.

Lemma intermediate_arithmetic_result_witness :
  exists a b o r,
    arithmetic twenty_one_by_three a b o r /\
    (o = Add \/ o = Sub
     \/ (o = Mul /\ 2 <= a <= 8 * 5 /\ 2 <= b <= 4 * 5)
     \/ (o = Div /\ 5 <= 5 /\ 2 <= b <= 4 * 5 /\ 1 <= r <= 10 /\ a = b * r)).
Proof.
  eapply (intermediate_arithmetic_result 5 (source_of [4; 3; 1; 6] [])
            twenty_one_by_three);
    [lia | reflexivity].
Defined.

(** X4: a problem of difficulty 7-9 is a square, a root, a cube, a power
    or a mixed expression; its answer is the square, the cube or the
    power of the stored operands, the root of a stored perfect square,
    or the value of one of the two mixed expressions over the three
    stored operands. *)
Theorem advanced_arithmetic_result (d : Z) (src : Source) p src' :
  7 <= d <= 9 ->
  Problem.__init__ d src = Ok (p, src') ->
  advanced_shape p.
Proof.
  intros Hd H. unfold Problem.__init__, Problem.generate in H.
  replace (Z.min d 15 <=? 3) with false in H
    by (symmetry; apply Z.leb_gt; lia).
  replace (Z.min d 15 <=? 6) with false in H
    by (symmetry; apply Z.leb_gt; lia).
  replace (Z.min d 15 <=? 9) with true in H
    by (symmetry; apply Z.leb_le; lia).
  eapply advanced_arithmetic_shape. exact H.
Qed.

Lemma advanced_arithmetic_result_witness :
  advanced_shape five_times_three_minus_eight.
Proof.
  eapply (advanced_arithmetic_result 8 (source_of [4; 3; 1; 6; 1; 0] [])
            five_times_three_minus_eight);
    [lia | vm_compute; reflexivity].
Defined.

(** X6: a problem of difficulty 10-12 sets no operand and no operator;
    its answer is an integer in [1 .. 20], and the equation or system in
    its text holds for that answer. *)
Theorem simple_algebra_result (d : Z) (src : Source) p src' :
  10 <= d <= 12 ->
  Problem.__init__ d src = Ok (p, src') ->
  algebra_shape p.
Proof.
  intros Hd H. unfold Problem.__init__, Problem.generate in H.
  replace (Z.min d 15 <=? 3) with false in H
    by (symmetry; apply Z.leb_gt; lia).
  replace (Z.min d 15 <=? 6) with false in H
    by (symmetry; apply Z.leb_gt; lia).
  replace (Z.min d 15 <=? 9) with false in H
    by (symmetry; apply Z.leb_gt; lia).
  replace (Z.min d 15 <=? 12) with true in H
    by (symmetry; apply Z.leb_le; lia).
  eapply simple_algebra_shape. exact H.
Qed.

Lemma simple_algebra_result_witness : algebra_shape sum_and_difference.
Proof.
  eapply (simple_algebra_result 11 (source_of [2; 3; 1; 0] [])
            sum_and_difference);
    [lia | vm_compute; reflexivity].
Defined.

(** X7: whatever the two roots drawn for a quadratic problem, the
    reported answer is one of them, it solves the displayed equation
    [x² - (x1 + x2) x + x1 x2 = 0], and no root is smaller in absolute
    value. *)
Theorem quadratic_answer_is_least_root (d x1 x2 : Z) :
  exists r,
    Problem.correct_answer (Problem.quadratic d x1 x2) = PyInt r /\
    (r = x1 \/ r = x2) /\
    r * r - (x1 + x2) * r + x1 * x2 = 0 /\
    Z.abs r <= Z.abs x1 /\ Z.abs r <= Z.abs x2.
Proof.
  unfold Problem.quadratic. fields.
  destruct (Z.abs x1 <=? Z.abs x2) eqn:E; eexists; (split; [reflexivity |]).
  - apply Z.leb_le in E. repeat split; auto; lia.
  - apply Z.leb_gt in E. repeat split; auto; lia.
Qed.

End Families.

(** ** More on the wrong answers *)

Section MoreWrongAnswers.

Import Num.


Lemma randint_at (lo hi : Z) (s : Source) (v : Z) :
  lo <= v <= hi -> ints s 0%nat = v - lo ->
  random.randint lo hi s = Ok (v, mkSource (fun n => ints s (S n)) (reals s)).
Proof.
  intros Hv Hs. unfold random.randint.
  destruct (hi <? lo) eqn:E; [apply Z.ltb_lt in E; lia |].
  cbv [bind random.next_int ret]. rewrite Hs.
  rewrite Z.mod_small by lia. f_equal. f_equal. lia.
Qed.

(** X5: for all operands [a], [b], [c] of the mixed family with
    [a <> c], difficulty 7 can generate the problem whose text reads
    "a+b×c" while its answer is [a * b + c], which is not the value
    [a + b * c] of that text: the text form is drawn independently of
    the expression the answer is computed from. *)
Theorem mixed_text_can_disagree (a b c : Z) :
  2 <= a <= 15 -> 2 <= b <= 10 -> 2 <= c <= 20 -> a <> c ->
  exists p src',
    Problem.__init__ 7 (mixed_source a b c) = Ok (p, src') /\
    Problem.problem_text p =
      (Num.str_of_Z a ++ "+" ++ Num.str_of_Z b ++ "×" ++ Num.str_of_Z c)%string /\
    Problem.correct_answer p = PyInt (a * b + c) /\
    a * b + c <> a + b * c.
Proof.
  intros Ha Hb Hc Hac.
  change (Problem.__init__ 7) with (Problem._generate_advanced_arithmetic 7).
  unfold Problem._generate_advanced_arithmetic.
  unfold bind at 1.
  change (random.randint 1 5 (mixed_source a b c))
    with (Ok (5, source_of [a - 2; b - 2; c - 2; 0; 1] [])).
  cbv iota beta. change (5 =? 1) with false. change (5 =? 2) with false.
  change (5 =? 3) with false. change (5 =? 4) with false. cbv iota.
  unfold bind at 1. rewrite (randint_at 2 15 _ a) by (try lia; reflexivity).
  unfold bind at 1. rewrite (randint_at 2 10 _ b) by (try lia; reflexivity).
  unfold bind at 1. rewrite (randint_at 2 20 _ c) by (try lia; reflexivity).
  eexists. eexists. split; [reflexivity |].
  split; [reflexivity |]. split; [reflexivity |]. nia.
Qed.

Lemma mixed_text_can_disagree_witness :
  exists p src',
    Problem.__init__ 7 (mixed_source 2 3 4) = Ok (p, src') /\
    Problem.problem_text p =
      (Num.str_of_Z 2 ++ "+" ++ Num.str_of_Z 3 ++ "×" ++ Num.str_of_Z 4)%string /\
    Problem.correct_answer p = PyInt (2 * 3 + 4) /\
    2 * 3 + 4 <> 2 + 3 * 4.
Proof. apply (mixed_text_can_disagree 2 3 4); lia. Defined.



Lemma below_13_shape (d : Z) (src : Source) p src' :
  1 <= d <= 12 ->
  Problem.__init__ d src = Ok (p, src') ->
  (exists z, Problem.correct_answer p = PyInt z) /\ operands_have_operator p.
Proof.
  intros Hd H. unfold Problem.__init__, Problem.generate in H.
  destruct (Z.min d 15 <=? 3) eqn:E3.
  { destruct (basic_shape d src p src') as (a & b & o & r & Ha & _);
      [lia | exact H |].
    destruct Ha as (H1 & H2 & H3 & H4 & _).
    split; [eauto |]. unfold operands_have_operator. rewrite H1, H2, H3. exact I. }
  destruct (Z.min d 15 <=? 6) eqn:E6.
  { apply Z.leb_gt in E3.
    destruct (intermediate_shape d src p src') as (a & b & o & r & Ha & _);
      [lia | exact H |].
    destruct Ha as (H1 & H2 & H3 & H4 & _).
    split; [eauto |]. unfold operands_have_operator. rewrite H1, H2, H3. exact I. }
  destruct (Z.min d 15 <=? 9) eqn:E9.
  { apply advanced_arithmetic_shape in H. unfold advanced_shape in H.
    unfold operands_have_operator.
    destruct (Problem.operator p) as [[] |]; destruct (Problem.num1 p);
      destruct (Problem.num2 p); destruct (Problem.num3 p);
      try contradiction; cbv zeta in H;
      split; try exact I; try (destruct H as (r & ? & ? & ?); eauto);
      repeat match goal with
      | H : _ /\ _ |- _ => destruct H
      | H : _ \/ _ |- _ => destruct H
      end; eauto. }
  destruct (Z.min d 15 <=? 12) eqn:E12.
  { apply simple_algebra_shape in H.
    destruct H as (H1 & H2 & H3 & x & Hx & _).
    split; [eauto |]. unfold operands_have_operator. rewrite H1. exact I. }
  apply Z.leb_gt in E12. lia.
Qed.

Lemma randint_never_raises (a b : Z) :
  a <= b -> never_raises (random.randint a b).
Proof.
  intros H s e. destruct (randint_total a b s H) as (z & s' & Hz & _).
  rewrite Hz. discriminate.
Qed.

Lemma bind_never_raises {A B} (c : Rand A) (k : A -> Rand B) :
  never_raises c -> (forall a, never_raises (k a)) -> never_raises (bind c k).
Proof.
  intros Hc Hk s e. unfold bind.
  destruct (c s) as [[a s1] | e1 | ] eqn:E.
  - apply Hk.
  - exfalso. apply (Hc s e1 E).
  - discriminate.
Qed.

Lemma ret_never_raises {A} (a : A) : never_raises (ret a).
Proof. intros s e. discriminate. Qed.

Lemma strategies_never_raise (self : Problem.t) (c : Z) :
  Problem.correct_answer self = PyInt c ->
  operands_have_operator self ->
  Forall never_raises (Problem.strategies self).
Proof.
  intros Hc Ho. unfold Problem.strategies. rewrite Hc.
  assert (forall o f fb, never_raises (Problem.confuse self o f fb)) as Hconf.
  { intros o f fb. unfold Problem.confuse. unfold operands_have_operator in Ho.
    destruct (Problem.num1 self); destruct (Problem.num2 self);
      destruct (Problem.operator self); try contradiction;
      try apply ret_never_raises.
    destruct (negb _); apply ret_never_raises. }
  repeat constructor; try apply Hconf; try apply ret_never_raises.
  - apply bind_never_raises; [apply randint_never_raises; lia |].
    intros; apply ret_never_raises.
  - apply bind_never_raises; [apply randint_never_raises; lia |].
    intros; apply ret_never_raises.
  - destruct (negb _); apply ret_never_raises.
  - unfold Problem.reverse_strategy. destruct (_ >? _); apply ret_never_raises.
  - apply bind_never_raises; [apply randint_never_raises; lia |].
    intros; apply ret_never_raises.
  - apply bind_never_raises; [apply randint_never_raises; lia |].
    intros; apply ret_never_raises.
Qed.

Lemma choice_never_raises {A} (d : A) (l : list A) :
  never_raises (random.choice (d :: l)).
Proof. intros s e. rewrite choice_nth. discriminate. Qed.

Lemma strategy_loop_never_raises (fuel : nat) : forall self c count wa,
  Problem.correct_answer self = PyInt c ->
  operands_have_operator self ->
  never_raises (Problem.strategy_loop fuel self count wa).
Proof.
  induction fuel as [| fuel IH]; intros self c count wa Hc Ho s e.
  - rewrite strategy_loop_O. destruct (_ && _); discriminate.
  - rewrite strategy_loop_S. destruct (_ && _); [| discriminate].
    pose proof (strategies_never_raise self c Hc Ho) as F.
    rewrite Forall_forall in F.
    unfold bind at 1.
    destruct (random.choice (Problem.strategies self) s) as [[st s1] | e1 | ] eqn:E;
      [| | discriminate].
    + apply choice_Ok in E. unfold bind.
      destruct (st s1) as [[w s2] | e2 | ] eqn:E2; [| | discriminate].
      * destruct (Problem.plausible _ _ _); eapply IH; eassumption.
      * exfalso. apply (F st E s1 e2 E2).
    + exfalso. revert E. apply choice_never_raises.
Qed.

Lemma fill_loop_never_raises (fuel : nat) : forall self c count wa,
  Problem.correct_answer self = PyInt c ->
  never_raises (Problem.fill_loop fuel self count wa).
Proof.
  induction fuel as [| fuel IH]; intros self c count wa Hc s e;
    cbn [Problem.fill_loop]; (destruct (_ <? _); [| discriminate]).
  - discriminate.
  - rewrite Hc.
    apply bind_never_raises.
    + destruct (_ <? _) eqn:E.
      * apply randint_never_raises.
        apply Z.ltb_lt in E. unfold py_int, abs_milli in *. cbn [milli] in *.
        rewrite Z.mul_comm, Z.quot_mul by lia. lia.
      * unfold Problem.scaled_draw. apply randint_never_raises. lia.
    + intros w s1 e1. rewrite <- Hc.
      destruct (_ && _); eapply IH; eassumption.
Qed.

Lemma wrong_answers_never_raise (fuel : nat) self (c count : Z) :
  Problem.correct_answer self = PyInt c ->
  operands_have_operator self ->
  never_raises (Problem.generate_wrong_answers fuel self count).
Proof.
  intros Hc Ho. unfold Problem.generate_wrong_answers.
  apply bind_never_raises.
  - eapply strategy_loop_never_raises; eassumption.
  - intros wa. eapply fill_loop_never_raises; eassumption.
Qed.

(** X8: every problem of difficulty 1-12 has an integer answer, and on
    it [generate_wrong_answers] raises no exception, for any count, any
    draws and any number of iterations. *)
Theorem no_exception_below_13 (d : Z) (src : Source) p src' :
  1 <= d <= 12 ->
  Problem.__init__ d src = Ok (p, src') ->
  (exists z, Problem.correct_answer p = PyInt z) /\
  forall fuel count s e,
    Problem.generate_wrong_answers fuel p count s <> Raise e.
Proof.
  intros Hd H. destruct (below_13_shape d src p src' Hd H) as [[z Hz] Ho].
  split; [eauto |]. intros fuel count.
  exact (wrong_answers_never_raise fuel p z count Hz Ho).
Qed.

Lemma plausible_close (c w : pynum) (wa : list pynum) :
  Problem.plausible c w wa = true -> close_to c w.
Proof.
  unfold Problem.plausible, close_to. intros H.
  repeat (apply andb_true_iff in H; destruct H as [H ?]).
  split; apply Z.leb_le; assumption.
Qed.

Lemma strategy_loop_close (fuel : nat) : forall self count wa s l s',
  Forall (close_to (Problem.correct_answer self)) wa ->
  Problem.strategy_loop fuel self count wa s = Ok (l, s') ->
  Forall (close_to (Problem.correct_answer self)) l.
Proof.
  induction fuel as [| fuel IH]; intros self count wa s l s' Hc H.
  - rewrite strategy_loop_O in H.
    destruct (_ && _) in H; [discriminate |].
    apply ret_Ok in H. inversion H; subst. exact Hc.
  - rewrite strategy_loop_S in H.
    destruct (_ && _) in H.
    + unbind.
      destruct (Problem.plausible _ _ _) eqn:P in H.
      * eapply IH; [| exact H].
        apply Forall_app. split; [exact Hc |].
        constructor; [| constructor]. eapply plausible_close. exact P.
      * eapply IH; eassumption.
    + apply ret_Ok in H. inversion H; subst. exact Hc.
Qed.

Lemma fill_loop_done (fuel : nat) self (count : Z) (wa : list pynum) s :
  count <= Problem.len wa ->
  Problem.fill_loop fuel self count wa s = Ok (wa, s).
Proof.
  intros H. destruct fuel; cbn [Problem.fill_loop];
    replace (Problem.len wa <? count) with false
      by (symmetry; apply Z.ltb_ge; exact H);
    reflexivity.
Qed.

(** X9: for a count of at most 13 (the number of strategies), every
    wrong answer returned is close to the correct one:
    [abs(wrong - correct) <= max(10, abs(correct) * 2)] and
    [abs(wrong) <= abs(correct) * 5].  (Only the random fill, which runs
    for larger counts, skips this test.) *)
Theorem wrong_answers_are_close (fuel : nat) self (count : Z) src l src' :
  0 <= count <= 13 ->
  Problem.generate_wrong_answers fuel self count src = Ok (l, src') ->
  forall w, In w l -> close_to (Problem.correct_answer self) w.
Proof.
  intros Hcount H. unfold Problem.generate_wrong_answers in H. unbind.
  pose proof (strategy_loop_close _ _ _ _ _ _ _ (Forall_nil _) Hrun) as Hcl.
  apply strategy_loop_collects in Hrun;
    [| split; [exact (proj1 Hcount) | split; reflexivity]].
  destruct Hrun as [_ Hlen].
  match type of H with
  | Problem.fill_loop _ _ _ ?wa _ = _ =>
      assert (count <= Problem.len wa) as Hdone by lia
  end.
  rewrite (fill_loop_done _ _ _ _ _ Hdone) in H.
  inversion H; subst. rewrite Forall_forall in Hcl. exact Hcl.
Qed.

Lemma plausible_int (c w : Z) (wa : list pynum) :
  w <> c -> Problem.mem (PyInt w) wa = false ->
  Z.abs (w - c) <= Z.max 10 (2 * Z.abs c) -> Z.abs w <= 5 * Z.abs c ->
  Problem.plausible (PyInt c) (PyInt w) wa = true.
Proof.
  intros Hne Hmem Hd Hm. unfold Problem.plausible. rewrite Hmem.
  unfold py_eqb, abs_milli. cbn [milli negb].
  repeat (apply andb_true_iff; split).
  - apply negb_true_iff. apply Z.eqb_neq. lia.
  - reflexivity.
  - apply Z.leb_le. lia.
  - apply Z.leb_le. lia.
Qed.

Lemma strategy_loop_accepts (fuel : nat) self (count : Z) wa s st s1 w s2 :
  Problem.len wa < count -> Problem.len wa < 13 ->
  random.choice (Problem.strategies self) s = Ok (st, s1) ->
  st s1 = Ok (w, s2) ->
  Problem.plausible (Problem.correct_answer self) w wa = true ->
  Problem.strategy_loop (S fuel) self count wa s =
  Problem.strategy_loop fuel self count (wa ++ [w]) s2.
Proof.
  intros Hc H13 Hch Hst Hpl. rewrite strategy_loop_S.
  replace (Problem.len wa <? count) with true
    by (symmetry; apply Z.ltb_lt; exact Hc).
  replace (Problem.len wa <? Problem.len (Problem.strategies self)) with true
    by (symmetry; apply Z.ltb_lt; exact H13).
  cbn [andb]. unfold bind. rewrite Hch, Hst, Hpl. reflexivity.
Qed.

Lemma three_answers_run (self : Problem.t) (c : Z) :
  Problem.correct_answer self = PyInt c -> c <> 0 ->
  Problem.generate_wrong_answers 3 self 3 (source_of [8; 9; 4] []) =
  Ok ([PyInt (c + 1); PyInt (c - 1); PyInt (- c)], source_of [] []).
Proof.
  intros Hc Hnz. unfold Problem.generate_wrong_answers.
  assert (Problem.strategy_loop 3 self 3 [] (source_of [8; 9; 4] []) =
          Ok ([PyInt (c + 1); PyInt (c - 1); PyInt (- c)], source_of [] []))
    as Hloop.
  { erewrite strategy_loop_accepts;
      [ | reflexivity | reflexivity | reflexivity | reflexivity | ].
    2:{ rewrite Hc. apply plausible_int; [lia | reflexivity | lia | lia]. }
    erewrite strategy_loop_accepts;
      [ | reflexivity | reflexivity | reflexivity | reflexivity | ].
    2:{ rewrite Hc. cbn [app py_add py_sub].
        apply plausible_int; [lia | | lia | lia].
        unfold Problem.mem, py_eqb. cbn [existsb milli orb].
        replace (1000 * (c - 1) =? 1000 * (c + 1)) with false
          by (symmetry; apply Z.eqb_neq; lia).
        reflexivity. }
    erewrite strategy_loop_accepts;
      [ | reflexivity | reflexivity | reflexivity | reflexivity | ].
    2:{ rewrite Hc. cbn [app py_add py_sub py_neg].
        apply plausible_int; [lia | | lia | lia].
        unfold Problem.mem, py_eqb. cbn [existsb milli orb].
        replace (1000 * - c =? 1000 * (c + 1)) with false
          by (symmetry; apply Z.eqb_neq; lia).
        replace (1000 * - c =? 1000 * (c - 1)) with false
          by (symmetry; apply Z.eqb_neq; lia).
        reflexivity. }
    rewrite Hc. reflexivity. }
  unfold bind. rewrite Hloop. apply fill_loop_done. unfold Problem.len. simpl. lia.
Qed.

(** X10: for a problem with an integer answer [c], some run of
    [generate_wrong_answers(3)] returns if and only if [c <> 0]; for
    [c <> 0] the strategies "plus one", "minus one" and "sign error"
    give [c + 1], [c - 1] and [-c]. *)
Theorem wrong_answers_return_iff_nonzero (self : Problem.t) (c : Z) :
  Problem.correct_answer self = PyInt c ->
  (exists fuel src l src',
     Problem.generate_wrong_answers fuel self 3 src = Ok (l, src'))
  <-> c <> 0.
Proof.
  intros Hc. split.
  - intros (fuel & src & l & src' & H) Hz. subst c.
    revert H. apply zero_answer_never_returns; [rewrite Hc; reflexivity | lia].
  - intros Hnz. exists 3%nat, (source_of [8; 9; 4] []).
    eexists. eexists. exact (three_answers_run self c Hc Hnz).
Qed.

Lemma no_exception_below_13_witness :
  (exists z, Problem.correct_answer four_plus_five = PyInt z) /\
  forall fuel count s e,
    Problem.generate_wrong_answers fuel four_plus_five count s <> Raise e.
Proof.
  apply (no_exception_below_13 1 (source_of [3; 4] []) four_plus_five
           (source_of [] []));
    [lia | reflexivity].
Defined.

Lemma wrong_answers_are_close_witness :
  Forall (close_to (Problem.correct_answer four_plus_five))
         [PyInt 10; PyInt 18; PyInt 8].
Proof.
  apply Forall_forall.
  apply (wrong_answers_are_close 10 four_plus_five 3
           (source_of [0; 0; 2; 8; 9] []) _ (source_of [] []));
    [lia | reflexivity].
Defined.

Lemma wrong_answers_return_iff_nonzero_witness :
  (exists fuel src l src',
     Problem.generate_wrong_answers fuel four_plus_five 3 src = Ok (l, src'))
  <-> 9 <> 0.
Proof. apply (wrong_answers_return_iff_nonzero four_plus_five 9); reflexivity. Defined.

End MoreWrongAnswers.

(** ** Bullets, enemies and the player over time *)

Section Motion.

Local Open Scope R_scope.

Lemma update_trail (b : Bullet.t) (u : R) :
  Bullet.trail_length b = 6%Z ->
  (List.length (Bullet.trail b) <= 6)%nat ->
  Bullet.trail (fst (Bullet.update b u))
    = firstn 6 ((Bullet.x b, Bullet.y b) :: Bullet.trail b).
Proof.
  intros H6 Hl. unfold Bullet.update. cbn [fst Bullet.trail].
  rewrite H6.
  destruct (Z.of_nat (List.length ((Bullet.x b, Bullet.y b) :: Bullet.trail b))
            >? 6)%Z eqn:E.
  - apply Z.gtb_lt in E. cbn [List.length] in E.
    rewrite removelast_firstn_len. cbn [List.length pred].
    replace (List.length (Bullet.trail b)) with 6%nat by lia. reflexivity.
  - rewrite Z.gtb_ltb in E. apply Z.ltb_ge in E.
    symmetry. apply firstn_all2. lia.
Qed.

Lemma firstn_app_firstn {A} (n : nat) (a l : list A) :
  firstn n (a ++ firstn n l) = firstn n (a ++ l).
Proof.
  rewrite !firstn_app, firstn_firstn. f_equal. f_equal. lia.
Qed.

Lemma visited_length (us : list R) : forall b,
  List.length (visited b us) = List.length us.
Proof.
  induction us as [| u rest IH]; intros b; cbn [visited List.length];
    [reflexivity | rewrite IH; reflexivity].
Qed.

Lemma flies_trail (us : list R) : forall b,
  Bullet.trail_length b = 6%Z ->
  (List.length (Bullet.trail b) <= 6)%nat ->
  let b' := flies b us in
  Bullet.dx b' = Bullet.dx b /\ Bullet.dy b' = Bullet.dy b /\
  Bullet.size b' = Bullet.size b /\
  Bullet.trail b' = firstn 6 (rev (visited b us) ++ Bullet.trail b).
Proof.
  induction us as [| u rest IH]; intros b H6 Hl.
  - cbn [flies visited rev app]. repeat split.
    symmetry. apply firstn_all2. exact Hl.
  - cbn [flies visited rev].
    pose proof (update_trail b u H6 Hl) as Ht.
    set (b1 := fst (Bullet.update b u)) in *.
    assert (Bullet.trail_length b1 = 6%Z) as H61 by exact H6.
    assert (List.length (Bullet.trail b1) <= 6)%nat as Hl1
      by (rewrite Ht; apply firstn_le_length).
    destruct (IH b1 H61 Hl1) as (Hdx & Hdy & Hsz & Htr).
    cbv zeta in *. rewrite Hdx, Hdy, Hsz, Htr, Ht.
    repeat split.
    rewrite firstn_app_firstn, <- app_assoc. reflexivity.
Qed.

Lemma bullet_init_fields (x y : R) (direction : R * R) (speed size : R) b :
  Bullet.__init__ x y direction speed size = Ok b ->
  Bullet.x b = x /\ Bullet.y b = y /\ Bullet.trail b = [] /\
  Bullet.trail_length b = 6%Z /\ Bullet.active b = true /\
  Bullet.size b = size.
Proof.
  unfold Bullet.__init__. intros H.
  destruct (Rlt_dec 0 _) as [Hl | Hl] in H.
  - rewrite !fdiv_Ok in H by lra. inversion H; subst. repeat split.
  - inversion H; subst. repeat split.
Qed.

(** X11: a bullet the constructor returned keeps its velocity and its
    size in flight; every [update] moves it by that velocity; and its
    trail holds the positions it was at before its last six updates
    (all of them while there were fewer), the latest first. *)
Theorem bullet_flight (x y : R) (direction : R * R) (speed size : R)
  (b : Bullet.t) (us : list R) :
  Bullet.__init__ x y direction speed size = Ok b ->
  let b' := flies b us in
  Bullet.dx b' = Bullet.dx b /\ Bullet.dy b' = Bullet.dy b /\
  Bullet.size b' = size /\
  Bullet.trail b' = firstn 6 (rev (visited b us)) /\
  List.length (Bullet.trail b') = Nat.min (List.length us) 6 /\
  forall u,
    Bullet.x (fst (Bullet.update b' u)) = Bullet.x b' + Bullet.dx b /\
    Bullet.y (fst (Bullet.update b' u)) = Bullet.y b' + Bullet.dy b.
Proof.
  intros Hb.
  destruct (bullet_init_fields _ _ _ _ _ _ Hb) as (_ & _ & Ht & H6 & _ & Hs).
  destruct (flies_trail us b H6) as (Hdx & Hdy & Hsz & Htr);
    [rewrite Ht; cbn; lia |].
  cbv zeta in *. rewrite Ht, app_nil_r in Htr.
  split; [exact Hdx |]. split; [exact Hdy |]. split; [congruence |].
  split; [exact Htr |]. split.
  - rewrite Htr, length_firstn, length_rev, visited_length. apply Nat.min_comm.
  - intros u. unfold Bullet.update. cbn [fst Bullet.x Bullet.y].
    rewrite Hdx, Hdy. split; reflexivity.
Qed.

(** X12: [Bullet.update] deactivates the bullet exactly when the new
    position is outside the window; inside, [active] is left as it
    was, so a bullet that went out is never reactivated. *)
Theorem bullet_deactivation (b : Bullet.t) (u : R) :
  let b' := fst (Bullet.update b u) in
  (inside_window (Bullet.x b') (Bullet.y b') /\
   Bullet.active b' = Bullet.active b)
  \/ (~ inside_window (Bullet.x b') (Bullet.y b') /\
      Bullet.active b' = false).
Proof.
  unfold Bullet.update, inside_window. cbn [fst Bullet.x Bullet.y Bullet.active].
  destruct (Rlt_dec (Bullet.x b + Bullet.dx b) 0);
    [right; split; [lra | reflexivity] |].
  destruct (Rgt_dec (Bullet.x b + Bullet.dx b) (IZR WINDOW_WIDTH));
    [right; split; [lra | reflexivity] |].
  destruct (Rlt_dec (Bullet.y b + Bullet.dy b) 0);
    [right; split; [lra | reflexivity] |].
  destruct (Rgt_dec (Bullet.y b + Bullet.dy b) (IZR WINDOW_HEIGHT));
    [right; split; [lra | reflexivity] |].
  left. split; [lra | reflexivity].
Qed.

Lemma bounce_x_inside (e : Enemy.t) :
  2 * Enemy.size e <= IZR WINDOW_WIDTH ->
  let e' := Enemy.bounce_x e in
  Enemy.size e' = Enemy.size e /\ Enemy.y e' = Enemy.y e /\
  Enemy.is_alive e' = Enemy.is_alive e /\
  Enemy.size e <= Enemy.x e' <= IZR WINDOW_WIDTH - Enemy.size e.
Proof.
  intros H. unfold Enemy.bounce_x.
  destruct (Rlt_dec _ _); [cbn; repeat split; lra |].
  destruct (Rgt_dec _ _); cbn; repeat split; lra.
Qed.

Lemma bounce_y_inside (e : Enemy.t) :
  2 * Enemy.size e <= IZR WINDOW_HEIGHT ->
  let e' := Enemy.bounce_y e in
  Enemy.size e' = Enemy.size e /\ Enemy.x e' = Enemy.x e /\
  Enemy.is_alive e' = Enemy.is_alive e /\
  Enemy.size e <= Enemy.y e' <= IZR WINDOW_HEIGHT - Enemy.size e.
Proof.
  intros H. unfold Enemy.bounce_y.
  destruct (Rlt_dec _ _); [cbn; repeat split; lra |].
  destruct (Rgt_dec _ _); cbn; repeat split; lra.
Qed.

(** X13: after [Enemy.update] a live enemy (of size at most half the
    arena height) is inside the arena on both axes, whatever its
    movement variant and the draws, and keeps its size. *)
Theorem enemy_stays_in_arena (self : Enemy.t) (dt u turn : R) :
  Enemy.is_alive self = true ->
  2 * Enemy.size self <= IZR WINDOW_HEIGHT ->
  let after := Enemy.update self dt u turn in
  Enemy.size after = Enemy.size self /\
  Enemy.size self <= Enemy.x after <= IZR WINDOW_WIDTH - Enemy.size self /\
  Enemy.size self <= Enemy.y after <= IZR WINDOW_HEIGHT - Enemy.size self.
Proof.
  intros Ha Hs after. subst after. unfold Enemy.update. rewrite Ha. cbn [negb].
  pose proof (move_size self dt u turn) as Hm.
  set (m := Enemy.move self dt u turn) in *.
  destruct (bounce_x_inside m) as (Hsx & _ & _ & Hx);
    [rewrite Hm; unfold WINDOW_WIDTH, WINDOW_HEIGHT in *; lra |].
  destruct (bounce_y_inside (Enemy.bounce_x m)) as (Hsy & Hxy & _ & Hy);
    [rewrite Hsx, Hm; exact Hs |].
  rewrite Hsy, Hxy, Hsx, Hm in *. repeat split; lra.
Qed.

Lemma uniform_returns (a b : R) :
  returns_with anything (random.uniform a b).
Proof.
  intros s. cbv [random.uniform random.random random.next_real bind ret].
  eexists. eexists. split; [reflexivity | exact I].
Qed.

Lemma hits_health (k : nat) : forall e (n : nat),
  Enemy.is_alive e = true -> Enemy.health e = Z.of_nat n -> (1 <= n)%nat ->
  Enemy.health (hits k e) = (Z.of_nat n - Z.of_nat k)%Z /\
  Enemy.is_alive (hits k e) = (k <? n)%nat.
Proof.
  induction k as [| k IH]; intros e n Ha Hh Hn.
  - cbn [hits]. split; [lia |]. rewrite Ha. symmetry. apply Nat.ltb_lt. lia.
  - cbn [hits].
    set (e1 := fst (fst (Enemy.hit e))).
    assert (Enemy.health e1 = (Z.of_nat n - 1)%Z) as Hh1
      by (unfold e1, Enemy.hit; cbn; lia).
    destruct (Nat.eq_dec n 1) as [-> | Hne].
    + (* the hit kills *)
      assert (Enemy.is_alive e1 = false) as Hd1.
      { unfold e1, Enemy.hit. cbn [fst Enemy.is_alive]. rewrite Hh. reflexivity. }
      assert (forall j e', Enemy.is_alive e' = false ->
                Enemy.is_alive (hits j e') = false /\
                Enemy.health (hits j e') = (Enemy.health e' - Z.of_nat j)%Z) as Hdead.
      { induction j as [| j IHj]; intros e' He'.
        - cbn [hits]. split; [exact He' | lia].
        - cbn [hits].
          destruct (IHj (fst (fst (Enemy.hit e')))) as [A B].
          + unfold Enemy.hit. cbn [fst Enemy.is_alive]. rewrite He'.
            destruct (_ <=? _)%Z; reflexivity.
          + split; [exact A |]. rewrite B. unfold Enemy.hit. cbn. lia. }
      destruct (Hdead k e1 Hd1) as [A B]. rewrite A, B, Hh1. split; [lia |].
      symmetry. apply Nat.ltb_ge. lia.
    + assert (Enemy.is_alive e1 = true) as Ha1.
      { unfold e1, Enemy.hit. cbn [fst Enemy.is_alive]. rewrite Hh, Ha.
        replace (Z.of_nat n - 1 <=? 0)%Z with false
          by (symmetry; apply Z.leb_gt; lia). reflexivity. }
      destruct (IH e1 (pred n) Ha1) as [A B]; [lia | lia |].
      rewrite A, B. split; [lia |].
      destruct (Nat.ltb_spec k (pred n)); destruct (Nat.ltb_spec (S k) n);
        try reflexivity; lia.
Qed.

(** X14: the constructor always returns, at the given position, and the
    enemy it builds is alive after [k] hits exactly when [k] is below
    the health of its difficulty band (1, 2 or 3). *)
Theorem enemy_dies_after_band_hits (x y : R) (difficulty : Z) (size : R)
  (letter : option string) (src : Source) :
  exists e src',
    Enemy.__init__ x y difficulty size letter src = Ok (e, src') /\
    Enemy.x e = x /\ Enemy.y e = y /\
    forall k,
      Enemy.is_alive (hits k e) = (k <? hits_to_kill difficulty)%nat /\
      Enemy.health (hits k e)
        = (Z.of_nat (hits_to_kill difficulty) - Z.of_nat k)%Z.
Proof.
  assert (returns_with
            (fun e => Enemy.x e = x /\ Enemy.y e = y /\
                      Enemy.is_alive e = true /\
                      Enemy.health e = Z.of_nat (hits_to_kill difficulty))
            (Enemy.__init__ x y difficulty size letter)) as Hret.
  { unfold Enemy.__init__, hits_to_kill.
    destruct (difficulty <=? 3)%Z; [| destruct (difficulty <=? 8)%Z];
      (eapply bind_returns; [apply choice_returns | intros m _];
       eapply bind_returns; [apply uniform_returns | intros dir _];
       eapply (bind_returns anything);
       [ destruct letter as [l |];
         [destruct (String.eqb l ""); [| apply ret_returns; exact I] |];
         (eapply weaken_returns; [apply choice_returns | intros; exact I])
       | intros l _; apply ret_returns; repeat split ]). }
  destruct (Hret src) as (e & src' & He & Hx & Hy & Ha & Hh).
  exists e, src'. repeat split; try assumption;
    destruct (hits_health k e (hits_to_kill difficulty) Ha Hh) as [A B];
    try assumption;
    unfold hits_to_kill; destruct (difficulty <=? 3)%Z;
      try destruct (difficulty <=? 8)%Z; lia.
Qed.

Lemma take_damage_cases (p : Player.t) :
  let '(p1, fx1, died1) := Player.take_damage p in
  Player.take_damage p1 = (p1, [], false) /\
  if Player.invulnerable p
  then p1 = p /\ died1 = false
  else Player.health p1 = (Player.health p - 1)%Z /\
       died1 = (Player.health p <=? 1)%Z /\
       Player.invulnerable p1 = true /\ Player.invulnerable_time p1 = 2.
Proof.
  unfold Player.take_damage.
  destruct (Player.invulnerable p) eqn:E.
  - rewrite E. repeat split.
  - cbn [Player.invulnerable Player.health Player.invulnerable_time].
    repeat split.
    destruct (Z.leb_spec (Player.health p - 1) 0);
      destruct (Z.leb_spec (Player.health p) 1); try reflexivity; lia.
Qed.

(** X15: [take_damage] on an invulnerable player changes nothing and
    reports no death; otherwise it takes one health point, reports
    death exactly when the health was at most 1, and starts two seconds
    of invulnerability.  In both cases a second call right after it
    changes nothing. *)
Theorem take_damage_once (p : Player.t) :
  let '(p1, fx1, died1) := Player.take_damage p in
  Player.take_damage p1 = (p1, [], false) /\
  if Player.invulnerable p
  then p1 = p /\ died1 = false
  else Player.health p1 = (Player.health p - 1)%Z /\
       died1 = (Player.health p <=? 1)%Z /\
       Player.invulnerable p1 = true /\ Player.invulnerable_time p1 = 2.
Proof. exact (take_damage_cases p). Qed.

(** What [update] does about shooting and invulnerability. *)
Lemma player_update_timers (p : Player.t) (dt : R) (keys : key -> bool)
  (jitter : R * R) :
  exists p' b fx,
    Player.update p dt keys jitter = Ok (p', b, fx) /\
    Player.health p' = Player.health p /\
    Player.shoot_delay p' = Player.shoot_delay p /\
    Player.invulnerable p' =
      (Player.invulnerable p
       && if Rle_dec (Player.invulnerable_time p - dt) 0 then false else true) /\
    match b with
    | Some bl =>
        keys K_SPACE = true /\ Player.shoot_timer p - dt <= 0 /\
        Player.shoot_timer p' = Player.shoot_delay p /\
        Bullet.__init__
          (Player.x p' + fst (Player.direction p') * Player.size p)
          (Player.y p' + snd (Player.direction p') * Player.size p)
          (Player.direction p') (IZR BULLET_SPEED) (IZR BULLET_SIZE)
          = Ok bl /\
        Bullet.x bl = Player.x p' + fst (Player.direction p') * Player.size p /\
        Bullet.y bl = Player.y p' + snd (Player.direction p') * Player.size p
    | None =>
        (keys K_SPACE = false \/ Player.shoot_timer p - dt > 0) /\
        Player.shoot_timer p' = Player.shoot_timer p - dt
    end.
Proof.
  unfold Player.update.
  destruct (Player.steer keys (Player.direction p)) as [[dxi dyi] dir].
  match goal with
  | |- context [if ?f
                then match Bullet.__init__ ?bx ?by_ ?d ?sp ?sz with _ => _ end
                else _] =>
      destruct (bullet_init_cases bx by_ d sp sz) as (b & Hb & _);
      pose proof (bullet_init_fields _ _ _ _ _ _ Hb) as (Hbx & Hby & _);
      destruct f eqn:Hf; [rewrite Hb |]
  end.
  - eexists. eexists. eexists. split; [reflexivity |].
    cbn [Player.health Player.shoot_delay Player.invulnerable
         Player.shoot_timer Player.x Player.y Player.direction].
    apply andb_true_iff in Hf. destruct Hf as [Hk Ht].
    destruct (Rle_dec (Player.shoot_timer p - dt) 0) as [Hle | Hgt];
      [| discriminate Ht].
    repeat split; try assumption.
    destruct (Player.invulnerable p); reflexivity.
  - eexists. eexists. eexists. split; [reflexivity |].
    cbn [Player.health Player.shoot_delay Player.invulnerable
         Player.shoot_timer Player.x Player.y Player.direction].
    apply andb_false_iff in Hf.
    repeat split.
    + destruct (Player.invulnerable p); reflexivity.
    + destruct Hf as [Hk | Ht]; [left; exact Hk |].
      right. destruct (Rle_dec (Player.shoot_timer p - dt) 0); [discriminate | lra].
Qed.

(** X16: [Player.update] always returns; it fires exactly when space is
    held and the shoot timer, less the frame time, is used up.  The
    bullet is then [Bullet(x, y, direction)] with the default speed and
    size, built one player size ahead of the (clamped) position along
    the facing direction, and the timer is reset to the shoot delay;
    otherwise the timer just runs down. *)
Theorem player_fires (p : Player.t) (dt : R) (keys : key -> bool)
  (jitter : R * R) :
  exists p' b fx,
    Player.update p dt keys jitter = Ok (p', b, fx) /\
    match b with
    | Some bl =>
        keys K_SPACE = true /\ Player.shoot_timer p - dt <= 0 /\
        Player.shoot_timer p' = Player.shoot_delay p /\
        Bullet.__init__
          (Player.x p' + fst (Player.direction p') * Player.size p)
          (Player.y p' + snd (Player.direction p') * Player.size p)
          (Player.direction p') (IZR BULLET_SPEED) (IZR BULLET_SIZE)
          = Ok bl /\
        Bullet.x bl = Player.x p' + fst (Player.direction p') * Player.size p /\
        Bullet.y bl = Player.y p' + snd (Player.direction p') * Player.size p
    | None =>
        (keys K_SPACE = false \/ Player.shoot_timer p - dt > 0) /\
        Player.shoot_timer p' = Player.shoot_timer p - dt
    end.
Proof.
  destruct (player_update_timers p dt keys jitter)
    as (p' & b & fx & H & _ & _ & _ & Hb).
  exists p', b, fx. split; assumption.
Qed.

(** X17: when a shot is fired, no second shot is fired on the next
    frame if that frame is shorter than the shoot delay, whatever keys
    are held. *)
Theorem shoot_cooldown (p : Player.t) (dt : R) (keys : key -> bool)
  (jitter : R * R) (dt2 : R) (keys2 : key -> bool) (jitter2 : R * R) :
  keys K_SPACE = true ->
  Player.shoot_timer p - dt <= 0 ->
  dt2 < Player.shoot_delay p ->
  exists p1 bl fx1 p2 fx2,
    Player.update p dt keys jitter = Ok (p1, Some bl, fx1) /\
    Player.update p1 dt2 keys2 jitter2 = Ok (p2, None, fx2).
Proof.
  intros Hk Ht0 Hdt.
  destruct (player_update_timers p dt keys jitter)
    as (p1 & b & fx1 & H & _ & Hd & _ & Hb).
  destruct b as [bl |]; [| destruct Hb as ([Hn | Hn] & _); [congruence | lra]].
  destruct Hb as (_ & _ & Ht & _).
  destruct (player_update_timers p1 dt2 keys2 jitter2)
    as (p2 & b2 & fx2 & H2 & _ & _ & _ & Hb2).
  destruct b2 as [bl2 |].
  - destruct Hb2 as (_ & Hle & _). rewrite Ht in Hle. lra.
  - exists p1, bl, fx1, p2, fx2. split; assumption.
Qed.

(** X18: after a hit on a vulnerable player, the next [update] keeps
    the lost health point, and the player is still invulnerable after
    it exactly when the frame time is below two seconds. *)
Theorem invulnerability_window (p : Player.t) (dt : R) (keys : key -> bool)
  (jitter : R * R) :
  Player.invulnerable p = false ->
  exists p2 b fx,
    Player.update (fst (fst (Player.take_damage p))) dt keys jitter
      = Ok (p2, b, fx) /\
    Player.health p2 = (Player.health p - 1)%Z /\
    (Player.invulnerable p2 = true <-> dt < 2).
Proof.
  intros Hv.
  pose proof (take_damage_cases p) as Ht.
  destruct (Player.take_damage p) as [[p1 fx1] died1].
  rewrite Hv in Ht. destruct Ht as (_ & Hh & _ & Hi & Hit).
  cbn [fst].
  destruct (player_update_timers p1 dt keys jitter)
    as (p2 & b & fx & H & Hh2 & _ & Hinv & _).
  exists p2, b, fx. split; [exact H |]. split; [congruence |].
  rewrite Hinv, Hi, Hit. cbn [andb].
  destruct (Rle_dec (2 - dt) 0); split; intros; try discriminate; try lra.
Qed.



Lemma bullet_flight_witness :
  exists b,
    Bullet.__init__ 450 330 (0, -1) 12 6 = Ok b /\
    let b' := flies b [0.1; 0.5; 0.9] in
    Bullet.dx b' = Bullet.dx b /\ Bullet.dy b' = Bullet.dy b /\
    Bullet.size b' = 6 /\
    Bullet.trail b' = firstn 6 (rev (visited b [0.1; 0.5; 0.9])) /\
    List.length (Bullet.trail b') = Nat.min 3 6 /\
    forall u,
      Bullet.x (fst (Bullet.update b' u)) = Bullet.x b' + Bullet.dx b /\
      Bullet.y (fst (Bullet.update b' u)) = Bullet.y b' + Bullet.dy b.
Proof.
  destruct (bullet_init_cases 450 330 (0, -1) 12 6) as (b & Hb & _).
  exists b. split; [exact Hb |].
  exact (bullet_flight 450 330 (0, -1) 12 6 b [0.1; 0.5; 0.9] Hb).
Defined.

Lemma enemy_stays_in_arena_witness :
  let after := Enemy.update wall_enemy 0.016 0.5 0 in
  Enemy.size after = Enemy.size wall_enemy /\
  Enemy.size wall_enemy <= Enemy.x after
    <= IZR WINDOW_WIDTH - Enemy.size wall_enemy /\
  Enemy.size wall_enemy <= Enemy.y after
    <= IZR WINDOW_HEIGHT - Enemy.size wall_enemy.
Proof.
  apply (enemy_stays_in_arena wall_enemy 0.016 0.5 0);
    [reflexivity | cbn [Enemy.size wall_enemy]; unfold WINDOW_HEIGHT; lra].
Defined.

Lemma shoot_cooldown_witness :
  exists p1 bl fx1 p2 fx2,
    Player.update (Player.__init__ 450 350) 0.016 space_only (1, 1)
      = Ok (p1, Some bl, fx1) /\
    Player.update p1 0.016 space_only (1, 1) = Ok (p2, None, fx2).
Proof.
  apply (shoot_cooldown (Player.__init__ 450 350) 0.016 space_only (1, 1)
           0.016 space_only (1, 1));
    [reflexivity
    | cbn [Player.shoot_timer Player.__init__]; lra
    | cbn [Player.shoot_delay Player.__init__]; lra].
Defined.

Lemma invulnerability_window_witness :
  exists p2 b fx,
    Player.update (fst (fst (Player.take_damage (Player.__init__ 450 350))))
      0.016 no_keys (1, 1) = Ok (p2, b, fx) /\
    Player.health p2 = (Player.health (Player.__init__ 450 350) - 1)%Z /\
    (Player.invulnerable p2 = true <-> 0.016 < 2).
Proof.
  apply (invulnerability_window (Player.__init__ 450 350) 0.016 no_keys (1, 1));
    reflexivity.
Defined.


End Motion.

(** ** More on the session *)

Section SessionMore.

Lemma far_sq (q : R) : (sqrt q > 150 -> 150 * 150 < q)%R.
Proof.
  intros H. destruct (Rlt_dec (150 * 150) q) as [Hl | Hn]; [exact Hl |].
  exfalso.
  assert (sqrt q <= sqrt (150 * 150))%R as Hle by (apply sqrt_le_1_alt; lra).
  rewrite sqrt_square in Hle; lra.
Qed.

Lemma find_spawn_Ok (fuel : nat) (p : Player.t) : forall s ex ey s',
  Game.find_spawn fuel p s = Ok ((ex, ey), s') ->
  50 <= ex <= 850 /\ 50 <= ey <= 520 /\
  (150 * 150 <
   (IZR ex - Player.x p) * (IZR ex - Player.x p)
   + (IZR ey - Player.y p) * (IZR ey - Player.y p))%R.
Proof.
  induction fuel as [| fuel IH]; intros s ex ey s' H; cbn [Game.find_spawn] in H.
  - discriminate H.
  - unbind.
    destruct (Rgt_dec _ 150) as [Hfar | Hnear] in H.
    + apply ret_Ok in H. inversion H; subst. clear H.
      apply randint_Ok in Hrun, Hrun0.
      unfold Game.width, Game.height, WINDOW_WIDTH, WINDOW_HEIGHT in *.
      split; [lia |]. split; [lia |].
      apply far_sq. exact Hfar.
    + eapply IH. exact H.
Qed.

Lemma enemy_init_Ok (x y : R) (difficulty : Z) (size : R)
  (letter : option string) (s : Source) e s' :
  Enemy.__init__ x y difficulty size letter s = Ok (e, s') ->
  Enemy.x e = x /\ Enemy.y e = y /\ Enemy.size e = size /\
  Enemy.difficulty e = difficulty /\ Enemy.is_alive e = true /\
  Enemy.health e = Z.of_nat (hits_to_kill difficulty).
Proof.
  unfold Enemy.__init__, hits_to_kill. intros H.
  destruct (difficulty <=? 3); [| destruct (difficulty <=? 8)];
    unbind; inversion H; subst; repeat split.
Qed.

Lemma spawn_Ok (fuel : nat) (p : Player.t) (level : Z) (n : nat) :
  forall enemies s l s',
    Game.spawn fuel n p level enemies s = Ok (l, s') ->
    exists new, l = enemies ++ new /\ List.length new = n /\
                Forall (spawned p level) new.
Proof.
  induction n as [| n IH]; intros enemies s l s' H; cbn [Game.spawn] in H.
  - apply ret_Ok in H. inversion H; subst.
    exists []. rewrite app_nil_r. repeat split. constructor.
  - unbind. destruct v as [ex ey].
    apply find_spawn_Ok in Hrun. apply enemy_init_Ok in Hrun0.
    apply IH in H. destruct H as (new & -> & Hlen & Hall).
    exists (v0 :: new). rewrite <- app_assoc. split; [reflexivity |].
    split; [cbn [List.length]; lia |].
    constructor; [| exact Hall].
    destruct Hrun0 as (Hx & Hy & Hs & Hd & Ha & Hh).
    cbn [fst snd] in *.
    unfold spawned. repeat split; try assumption.
    exists ex, ey. tauto.
Qed.

(** X20: whenever [spawn_enemies] returns, the session holds
    [min(3 + level // 2, 10)] enemies (none if that is negative), the
    earlier ones replaced; each is alive, of size 30 and of the level's
    difficulty and health, at an integer position in
    [50..850] x [50..520] that is more than 150 away from the player. *)
Theorem spawn_enemies_result (fuel : nat) (self : Game.t) (src : Source)
  g src' :
  Game.spawn_enemies fuel self src = Ok (g, src') ->
  Problem.len (Game.enemies g)
    = Z.max 0 (Z.min (3 + Game.level self / 2) 10) /\
  Forall (spawned (Game.player self) (Game.level self)) (Game.enemies g).
Proof.
  unfold Game.spawn_enemies. intros H. unbind.
  try apply ret_Ok in H. inversion H; subst. clear H. cbn [Game.enemies].
  apply spawn_Ok in Hrun. destruct Hrun as (new & -> & Hlen & Hall).
  cbn [app]. split; [unfold Problem.len; lia | exact Hall].
Qed.

Lemma spawn_enemies_result_witness :
  exists g s',
    Game.spawn_enemies 1 arena_game (source_of [] []) = Ok (g, s') /\
    Problem.len (Game.enemies g) = 5 /\
    Forall (spawned (Game.player arena_game) 4) (Game.enemies g).
Proof.
  assert (exists g s',
            Game.spawn_enemies 1 arena_game (source_of [] []) = Ok (g, s'))
    as (g & s' & H).
  { unfold Game.spawn_enemies.
    destruct (spawn_zero 0 (Game.player arena_game) (Game.level arena_game)
                (Z.to_nat (Z.min (3 + Game.level arena_game / 2) 10))
                eq_refl eq_refl [] (source_of [] []))
      as (l & s2 & Hs); [intros n; destruct n; reflexivity |].
    unfold bind. rewrite Hs. eexists. eexists. reflexivity. }
  exists g, s'. split; [exact H |].
  exact (spawn_enemies_result 1 arena_game (source_of [] []) g s' H).
Defined.

(** *** Answer buttons *)

Lemma list_set_perm {A} (x : list A) : forall (i : nat) (a v : A),
  nth_error x i = Some a -> Permutation (v :: x) (a :: random.list_set x i v).
Proof.
  induction x as [| h t IH]; intros i a v H.
  - destruct i; discriminate H.
  - destruct i as [| i]; cbn [nth_error random.list_set] in *.
    + inversion H; subst. apply perm_swap.
    + apply perm_trans with (h :: v :: t); [apply perm_swap |].
      apply perm_trans with (h :: a :: random.list_set t i v);
        [apply perm_skip; apply IH; exact H | apply perm_swap].
Qed.

Lemma list_set_nth {A} (x : list A) : forall (i j : nat) (b : A),
  nth_error x j = Some b ->
  nth_error (random.list_set x i b) j = Some b.
Proof.
  induction x as [| h t IH]; intros i j b H.
  - destruct i; exact H.
  - destruct i as [| i], j as [| j]; cbn [nth_error random.list_set] in *;
      try assumption; try reflexivity.
    apply IH. exact H.
Qed.

Lemma swap_perm {A} (x : list A) (i j : nat) :
  Permutation x (random.swap x i j).
Proof.
  unfold random.swap.
  destruct (nth_error x i) as [a |] eqn:Ei; [| apply Permutation_refl].
  destruct (nth_error x j) as [b |] eqn:Ej; [| apply Permutation_refl].
  apply (Permutation_cons_inv (a := b)).
  apply perm_trans with (a :: random.list_set x i b).
  - apply list_set_perm. exact Ei.
  - apply list_set_perm. apply list_set_nth. exact Ej.
Qed.

Lemma shuffle_from_perm {A} (i : nat) : forall (x : list A) s y s',
  random.shuffle_from i x s = Ok (y, s') -> Permutation x y.
Proof.
  induction i as [| i IH]; intros x s y s' H; cbn [random.shuffle_from] in H.
  - apply ret_Ok in H. inversion H; subst. apply Permutation_refl.
  - unbind. apply IH in H.
    eapply perm_trans; [apply swap_perm | exact H].
Qed.

Lemma shuffle_perm {A} (x : list A) s y s' :
  random.shuffle x s = Ok (y, s') -> Permutation x y.
Proof. apply shuffle_from_perm. Qed.

Lemma shuffle_from_returns {A} (i : nat) : forall (x : list A),
  returns_with anything (random.shuffle_from i x).
Proof.
  induction i as [| i IH]; intros x; cbn [random.shuffle_from].
  - apply ret_returns. exact I.
  - eapply bind_returns; [apply randint_returns; lia | intros j _; apply IH].
Qed.

Lemma count_equal_perm (c : pynum) (l l' : list pynum) :
  Permutation l l' -> count_equal c l = count_equal c l'.
Proof.
  unfold count_equal. induction 1; cbn [filter].
  - reflexivity.
  - destruct (Num.py_eqb x c); cbn [List.length]; congruence.
  - destruct (Num.py_eqb x c), (Num.py_eqb y c); reflexivity.
  - congruence.
Qed.

Lemma count_equal_excluded (c : pynum) (l : list pynum) :
  excludes c l = true -> count_equal c l = 0%nat.
Proof.
  unfold excludes, count_equal. induction l as [| a t IH]; [reflexivity |].
  cbn [forallb filter]. intros H. apply andb_true_iff in H. destruct H as [Ha Ht].
  apply negb_true_iff in Ha. rewrite Ha. apply IH. exact Ht.
Qed.

Lemma layout_flags (answers : list pynum) (c : pynum) : forall x,
  List.length (filter snd (Game.layout answers c x)) = count_equal c answers.
Proof.
  unfold count_equal.
  induction answers as [| a t IH]; intros x; cbn [Game.layout filter snd].
  - reflexivity.
  - destruct (Num.py_eqb a c); cbn [List.length]; rewrite IH; reflexivity.
Qed.

Lemma layout_places (answers : list pynum) (c : pynum) : forall x,
  map (fun b => (Button.x (fst b), Button.y (fst b),
                 Button.width (fst b), Button.height (fst b)))
      (Game.layout answers c x)
  = map (fun i => (x + 170 * Z.of_nat i, 600, 150, 60))
        (seq 0 (List.length answers)).
Proof.
  induction answers as [| a t IH]; intros x; cbn [Game.layout map seq List.length].
  - reflexivity.
  - cbn [fst Button.x Button.y Button.width Button.height].
    rewrite IH. rewrite <- seq_shift, map_map.
    f_equal.
    + f_equal. f_equal. f_equal. lia.
    + apply map_ext. intros i. f_equal. f_equal. f_equal. lia.
Qed.

Lemma wrong_answers_collected (fuel : nat) self (count : Z) src l src' :
  0 <= count ->
  Problem.generate_wrong_answers fuel self count src = Ok (l, src') ->
  Problem.len l = count /\ excludes (Problem.correct_answer self) l = true.
Proof.
  intros Hcount H. unfold Problem.generate_wrong_answers in H. unbind.
  apply strategy_loop_collects in Hrun;
    [| split; [exact Hcount | split; reflexivity]].
  destruct Hrun as [Hc _].
  apply (fill_loop_collects _ _ _ _ _ _ _ Hc) in H.
  destruct H as [(Hlen & Hd & He) Hge].
  split; [lia | exact He].
Qed.

Lemma py_eqb_refl (a : pynum) : Num.py_eqb a a = true.
Proof. unfold Num.py_eqb. apply Z.eqb_refl. Qed.

(** X21: whenever [create_answer_buttons] returns, there are four
    buttons of 150 by 60 at y = 600 and x = 120, 290, 460, 630, and
    exactly one of them is flagged as the correct answer. *)
Theorem answer_buttons_layout (fuel : nat) (problem : Problem.t)
  (src : Source) buttons src' :
  Game.create_answer_buttons fuel problem src = Ok (buttons, src') ->
  map (fun b => (Button.x (fst b), Button.y (fst b),
                 Button.width (fst b), Button.height (fst b))) buttons
    = [(120, 600, 150, 60); (290, 600, 150, 60);
       (460, 600, 150, 60); (630, 600, 150, 60)] /\
  List.length (filter snd buttons) = 1%nat.
Proof.
  unfold Game.create_answer_buttons. intros H. unbind.
  try apply ret_Ok in H. inversion H; subst. clear H.
  apply wrong_answers_collected in Hrun; [| lia].
  destruct Hrun as [Hlen Hex].
  apply shuffle_perm in Hrun0.
  assert (List.length v0 = 4%nat) as H4.
  { rewrite <- (Permutation_length Hrun0), length_app. cbn [List.length].
    unfold Problem.len in Hlen. lia. }
  split.
  - rewrite layout_places, H4. unfold Problem.len. rewrite H4. reflexivity.
  - rewrite layout_flags, <- (count_equal_perm _ _ _ Hrun0).
    unfold count_equal. rewrite filter_app, length_app.
    fold (count_equal (Problem.correct_answer problem) v).
    rewrite (count_equal_excluded _ _ Hex).
    cbn [filter]. rewrite py_eqb_refl. reflexivity.
Qed.

Lemma answer_buttons_layout_witness :
  exists buttons s',
    Game.create_answer_buttons 3 four_plus_five
      (source_of [8; 9; 4; 1; 0; 1] []) = Ok (buttons, s') /\
    map (fun b => (Button.x (fst b), Button.y (fst b),
                   Button.width (fst b), Button.height (fst b))) buttons
      = [(120, 600, 150, 60); (290, 600, 150, 60);
         (460, 600, 150, 60); (630, 600, 150, 60)] /\
    List.length (filter snd buttons) = 1%nat.
Proof.
  eexists. eexists. split; [vm_compute; reflexivity |].
  apply (answer_buttons_layout 3 four_plus_five
           (source_of [8; 9; 4; 1; 0; 1] []) _ (source_of [] [])).
  vm_compute. reflexivity.
Defined.

(** *** Game over and the high score *)

(** X22: [game_over] keeps the score, sets the high score to the larger
    of score and high score, and writes the high-score file exactly
    when the score beat the old high score (the number written is the
    new high score); a second [game_over] writes nothing and leaves the
    high score alone. *)
Theorem game_over_high_score (self : Game.t) :
  let '(g, written) := Game.game_over self in
  Game.state g = GAME_OVER /\
  Game.score g = Game.score self /\
  Game.high_score g = Z.max (Game.score self) (Game.high_score self) /\
  (written <> None <-> Game.high_score self < Game.score self) /\
  (forall n, written = Some n -> n = Game.high_score g) /\
  snd (Game.game_over g) = None /\
  Game.high_score (fst (Game.game_over g)) = Game.high_score g.
Proof.
  unfold Game.game_over.
  cbn [Game.state Game.score Game.high_score fst snd].
  destruct (Game.score self >? Game.high_score self) eqn:E.
  - apply Z.gtb_lt in E.
    replace (Game.score self >? Game.score self) with false
      by (symmetry; rewrite Z.gtb_ltb; apply Z.ltb_irrefl).
    repeat split; try lia; try congruence.
  - rewrite E. rewrite Z.gtb_ltb in E. apply Z.ltb_ge in E.
    repeat split; try lia; try congruence; try discriminate.
Qed.

(** *** Streaks *)

Lemma level_up_returns (self : Game.t) :
  returns_with
    (fun g => Game.level g = Game.level self + 1 /\
              Game.score g = Game.score self /\
              Game.streak g = Game.streak self /\
              Game.high_score g = Game.high_score self)
    (Game.level_up self).
Proof.
  intros s. unfold Game.level_up.
  destruct (celebrate_total 8 s) as (fx & s1 & H).
  unfold bind. rewrite H. eexists. eexists. split; [reflexivity |].
  repeat split.
Qed.

Lemma handle_answer_correct (self : Game.t) (button : Button.t) :
  returns_with
    (fun r =>
       Game.streak (fst r) = Game.streak self + 1 /\
       Game.level (fst r) =
         Game.level self
         + (if (Game.streak self + 1) mod 3 =? 0 then 1 else 0) /\
       Game.score (fst r) =
         Game.score self + 50 * Game.level self
         + (if Game.streak self + 1 >? 1 then 25 * (Game.streak self + 1)
            else 0)
         + 5 * Game.level self * live_count (Game.enemies self) /\
       Game.high_score (fst r) = Game.high_score self)
    (Game.handle_answer self button true).
Proof.
  intros s. unfold Game.handle_answer.
  pose proof (reward_enemies_score (Game.level self) (Game.enemies self)) as Hr.
  match goal with
  | |- context [Game.reward_enemies ?l ?e ?sc ?fx] =>
      specialize (Hr sc fx); destruct (Game.reward_enemies l e sc fx) as [score3 fx3]
  end.
  cbn [fst] in Hr.
  destruct ((Game.streak self + 1) mod 3 =? 0).
  - match goal with
    | |- context [Game.level_up ?c] =>
        destruct (level_up_returns c s) as (g & s1 & H & Hl & Hs & Hk & Hh)
    end.
    unfold bind. rewrite H. unfold ret.
    eexists. eexists. split; [reflexivity |].
    cbn [fst Game.streak Game.level Game.score Game.high_score] in *.
    rewrite Hl, Hs, Hk, Hh, Hr.
    repeat split; destruct (Game.streak self + 1 >? 1); lia.
  - unfold bind, ret. eexists. eexists. split; [reflexivity |].
    cbn [fst Game.streak Game.level Game.score Game.high_score].
    rewrite Hr. repeat split; destruct (Game.streak self + 1 >? 1); lia.
Qed.

Lemma answer_correctly_level (n : nat) (button : Button.t) : forall self,
  returns_with
    (fun g =>
       Game.streak g = Game.streak self + Z.of_nat n /\
       Game.level g =
         Game.level self
         + (Game.streak self + Z.of_nat n) / 3 - Game.streak self / 3)
    (answer_correctly n self button).
Proof.
  induction n as [| n IH]; intros self; cbn [answer_correctly].
  - apply ret_returns. cbn [Z.of_nat]. rewrite !Z.add_0_r. split; lia.
  - eapply bind_returns; [apply handle_answer_correct |].
    intros r (Hs & Hl & _).
    eapply weaken_returns; [apply IH |].
    intros g (Hs' & Hl'). rewrite Hs', Hl', Hs, Hl.
    split; [lia |].
    destruct ((Game.streak self + 1) mod 3 =? 0) eqn:E.
    + apply Z.eqb_eq in E.
      replace (Game.streak self + 1 + Z.of_nat n)
        with (Game.streak self + Z.of_nat (S n)) by lia.
      assert ((Game.streak self + 1) / 3 = Game.streak self / 3 + 1)
        by (pose proof (Z.div_mod (Game.streak self + 1) 3);
            pose proof (Z.div_mod (Game.streak self) 3);
            pose proof (Z.mod_pos_bound (Game.streak self) 3);
            lia).
      lia.
    + apply Z.eqb_neq in E.
      replace (Game.streak self + 1 + Z.of_nat n)
        with (Game.streak self + Z.of_nat (S n)) by lia.
      assert ((Game.streak self + 1) / 3 = Game.streak self / 3)
        by (pose proof (Z.div_mod (Game.streak self + 1) 3);
            pose proof (Z.div_mod (Game.streak self) 3);
            pose proof (Z.mod_pos_bound (Game.streak self) 3);
            pose proof (Z.mod_pos_bound (Game.streak self + 1) 3);
            lia).
      lia.
Qed.

(** X23: [n] correct answers in a row always return; from streak [s]
    they lead to streak [s + n], and the level has grown by the number
    of multiples of 3 among [s + 1 .. s + n], that is by
    [(s + n) // 3 - s // 3]. *)
Theorem level_after_streak (n : nat) (self : Game.t) (button : Button.t) :
  returns_with
    (fun g =>
       Game.streak g = Game.streak self + Z.of_nat n /\
       Game.level g =
         Game.level self
         + (Game.streak self + Z.of_nat n) / 3 - Game.streak self / 3)
    (answer_correctly n self button).
Proof. exact (answer_correctly_level n button self). Qed.

(** X24: at a level that is not negative, [handle_answer] returns and
    lowers neither the score nor the level, and never touches the high
    score; a wrong answer leaves score and level as they are and resets
    the streak. *)
Theorem answers_never_cost (self : Game.t) (button : Button.t)
  (is_correct : bool) (src : Source) :
  0 <= Game.level self ->
  exists g b src',
    Game.handle_answer self button is_correct src = Ok (g, b, src') /\
    Game.score self <= Game.score g /\
    Game.level self <= Game.level g /\
    Game.high_score g = Game.high_score self /\
    (is_correct = false ->
     Game.score g = Game.score self /\ Game.level g = Game.level self /\
     Game.streak g = 0).
Proof.
  intros Hl. destruct is_correct.
  - destruct (handle_answer_correct self button src)
      as ([g b] & s' & H & Hs & Hlv & Hsc & Hh).
    exists g, b, s'. split; [exact H |]. cbn [fst] in *.
    assert (0 <= live_count (Game.enemies self))
      by (unfold live_count; apply Nat2Z.is_nonneg).
    rewrite Hsc, Hlv.
    repeat split; try assumption; try discriminate.
    + destruct (Game.streak self + 1 >? 1) eqn:E;
        [apply Z.gtb_lt in E |]; nia.
    + destruct (_ =? 0); lia.
  - unfold Game.handle_answer, ret.
    eexists. eexists. eexists. split; [reflexivity |].
    cbn [Game.score Game.level Game.high_score Game.streak].
    repeat split; lia.
Qed.

Lemma answers_never_cost_witness :
  exists g b src',
    Game.handle_answer arena_game first_button true (source_of [] [])
      = Ok (g, b, src') /\
    Game.score arena_game <= Game.score g /\
    Game.level arena_game <= Game.level g /\
    Game.high_score g = Game.high_score arena_game /\
    (true = false ->
     Game.score g = Game.score arena_game /\
     Game.level g = Game.level arena_game /\
     Game.streak g = 0).
Proof.
  apply (answers_never_cost arena_game first_button true (source_of [] [])).
  unfold arena_game. cbn [Game.level]. lia.
Defined.

End SessionMore.

(** ** Particles *)

Section Particles.

Lemma particle_update_aged (p : Particle.t) :
  0 < Particle.lifetime p -> aged p ->
  exists p', Particle.update p = Ok p' /\ aged p' /\ visible p' /\
             Particle.lifetime p' = Particle.lifetime p - 1 /\
             Particle.max_lifetime p' = Particle.max_lifetime p.
Proof.
  unfold aged, visible, Particle.update. intros Hl Ha.
  destruct (Particle.max_lifetime p =? 0) eqn:E;
    [apply Z.eqb_eq in E; lia |].
  eexists. split; [reflexivity |].
  cbn [Particle.lifetime Particle.max_lifetime Particle.alpha].
  split; [lia |]. split; [| split; reflexivity].
  split.
  - apply Z.quot_pos; lia.
  - apply Z.quot_le_upper_bound; nia.
Qed.

Lemma update_each_aged (l : list Particle.t) :
  Forall (fun p => 0 < Particle.lifetime p /\ aged p) l ->
  exists l', ParticleSystem.update_each l = Ok l' /\
             Forall aged l' /\ Forall visible l' /\
             List.length l' = List.length l.
Proof.
  induction 1 as [| p t [Hl Ha] _ IH].
  - exists []. repeat split; constructor.
  - destruct (particle_update_aged p Hl Ha) as (p' & Hp & Ha' & Hv & _).
    destruct IH as (t' & Ht & Hat & Hvt & Hlen).
    cbn [ParticleSystem.update_each]. rewrite Hp, Ht.
    exists (p' :: t'). repeat split; try (constructor; assumption).
    cbn [List.length]. congruence.
Qed.

Lemma update_aged (self : ParticleSystem.t) :
  Forall aged self ->
  exists self', ParticleSystem.update self = Ok self' /\
                Forall aged self' /\ Forall visible self' /\
                List.length self' =
                  List.length (filter (fun p => Particle.lifetime p >? 0) self).
Proof.
  intros H. unfold ParticleSystem.update. apply update_each_aged.
  apply Forall_forall. intros p Hp. apply filter_In in Hp.
  destruct Hp as [Hin Hpos]. apply Z.gtb_lt in Hpos.
  split; [exact Hpos |]. rewrite Forall_forall in H. apply H. exact Hin.
Qed.

Lemma built_aged (self : ParticleSystem.t) : built self -> Forall aged self.
Proof.
  induction 1 as [| self x y v l ss se Hb IH | self self' Hb IH Hu].
  - constructor.
  - unfold ParticleSystem.add_particle. apply Forall_app. split; [exact IH |].
    constructor; [| constructor]. unfold aged, Particle.__init__.
    cbn [Particle.lifetime Particle.max_lifetime]. lia.
  - destruct (update_aged self IH) as (s2 & H2 & Ha & _).
    rewrite Hu in H2. inversion H2; subst. exact Ha.
Qed.

(** X25: on a particle system built from the empty one by
    [add_particle] and [update], [update] never divides by zero (a
    particle constructed with lifetime 0, whose own [update] would, is
    dropped first); it returns, adds no particle, and leaves every
    alpha in [0..255]. *)
Theorem particle_system_update_safe (self : ParticleSystem.t) :
  built self ->
  exists self',
    ParticleSystem.update self = Ok self' /\
    Forall visible self' /\
    (List.length self' <= List.length self)%nat.
Proof.
  intros Hb. destruct (update_aged self (built_aged self Hb))
    as (self' & H & _ & Hv & Hlen).
  exists self'. split; [exact H |]. split; [exact Hv |].
  rewrite Hlen. apply filter_length_le.
Qed.

Lemma frames_snoc (n : nat) : forall self self',
  frames n self = Ok self' ->
  frames (n + 1) self = ParticleSystem.update self'.
Proof.
  induction n as [| n IH]; intros self self' H; cbn [frames Nat.add] in *.
  - inversion H; subst. destruct (ParticleSystem.update self'); reflexivity.
  - destruct (ParticleSystem.update self) as [s1 | e |]; try discriminate H.
    apply IH. exact H.
Qed.

Lemma particle_ages (n : nat) : forall p,
  aged p -> Z.of_nat n <= Particle.lifetime p ->
  exists p',
    frames n [p] = Ok [p'] /\
    Particle.lifetime p' = Particle.lifetime p - Z.of_nat n /\
    Particle.max_lifetime p' = Particle.max_lifetime p /\
    Particle.size_end p' = Particle.size_end p /\
    ((0 < n)%nat -> Particle.lifetime p' = 0 ->
     Particle.alpha p' = 0 /\ Particle.size p' = Particle.size_end p).
Proof.
  induction n as [| n IH]; intros p Ha Hn.
  - exists p. cbn [frames]. repeat split; try lia.
  - assert (0 < Particle.lifetime p) as Hpos by lia.
    destruct (particle_update_aged p Hpos Ha) as (p1 & H1 & Ha1 & _ & Hl1 & Hm1).
    destruct (IH p1 Ha1) as (p' & Hf & Hl & Hm & Hse & Hz); [lia |].
    exists p'. cbn [frames]. unfold ParticleSystem.update. cbn [filter].
    replace (Particle.lifetime p >? 0) with true
      by (symmetry; apply Z.gtb_lt; exact Hpos).
    cbn [ParticleSystem.update_each]. rewrite H1.
    assert (Particle.size_end p1 = Particle.size_end p) as Hse1.
    { unfold Particle.update in H1.
      destruct (Particle.max_lifetime p =? 0); [discriminate H1 |].
      inversion H1; subst. reflexivity. }
    split; [exact Hf |]. split; [lia |]. split; [congruence |].
    split; [congruence |].
    intros _ H0. destruct n as [| n].
    + cbn [frames] in Hf. inversion Hf; subst p'. clear Hz.
      unfold Particle.update in H1.
      destruct (Particle.max_lifetime p =? 0); [discriminate H1 |].
      inversion H1; subst p1. clear H1.
      cbn [Particle.lifetime Particle.alpha Particle.size] in *.
      rewrite H0. split; [reflexivity |].
      unfold lerp. unfold Rdiv. rewrite Rmult_0_l. ring.
    + destruct Hz as [Hal Hsz]; [lia | exact H0 |].
      split; [exact Hal | congruence].
Qed.

(** X26: a particle constructed with lifetime [n >= 1] is still held
    after [n] updates of the system, then with lifetime 0, alpha 0 and
    its end size, and is gone after one more. *)
Theorem particle_expires (x y : R) (velocity : R * R) (lifetime : Z)
  (size_start size_end : R) :
  1 <= lifetime ->
  let p := Particle.__init__ x y velocity lifetime size_start size_end in
  (exists p',
     frames (Z.to_nat lifetime) [p] = Ok [p'] /\
     Particle.lifetime p' = 0 /\ Particle.alpha p' = 0 /\
     Particle.size p' = size_end) /\
  frames (Z.to_nat lifetime + 1) [p] = Ok [].
Proof.
  intros Hl p.
  destruct (particle_ages (Z.to_nat lifetime) p) as (p' & Hf & Hl' & _ & _ & Hz).
  - unfold aged, p, Particle.__init__.
    cbn [Particle.lifetime Particle.max_lifetime]. lia.
  - unfold p, Particle.__init__. cbn [Particle.lifetime]. lia.
  - assert (Particle.lifetime p' = 0) as H0
      by (rewrite Hl'; unfold p, Particle.__init__; cbn [Particle.lifetime]; lia).
    destruct Hz as [Hal Hsz]; [lia | exact H0 |].
    split.
    + exists p'. repeat split; assumption.
    + rewrite (frames_snoc _ _ _ Hf). unfold ParticleSystem.update.
      cbn [filter]. rewrite H0. reflexivity.
Qed.

(** *** Explosions *)

Lemma uniform_between (a b : R) :
  (a <= b)%R -> returns_with (fun u => a <= u <= b)%R (random.uniform a b).
Proof.
  intros Hab s. cbv [random.uniform random.random random.next_real bind ret].
  eexists. eexists. split; [reflexivity |].
  destruct (base_fp (reals s 0%nat)) as [H0 H1]. nra.
Qed.

Lemma explode_adds (n : nat) (x y speed_min speed_max : R)
  (lifetime_min lifetime_max : Z) (size_start size_end : R) :
  (speed_min <= speed_max)%R -> lifetime_min <= lifetime_max ->
  forall self,
    returns_with
      (fun self' =>
         exists new,
           self' = self ++ new /\ List.length new = n /\
           Forall (debris x y speed_min speed_max lifetime_min lifetime_max
                     size_start size_end) new)
      (ParticleSystem.explode n self x y speed_min speed_max
         lifetime_min lifetime_max size_start size_end).
Proof.
  intros Hs Hl. induction n as [| n IH]; intros self;
    cbn [ParticleSystem.explode].
  - apply ret_returns. exists []. rewrite app_nil_r.
    repeat split. constructor.
  - eapply (bind_returns anything);
      [eapply weaken_returns;
       [apply (uniform_between 0 (2 * PI)); pose proof PI_RGT_0; lra
       | intros; exact I] |].
    intros angle _.
    eapply bind_returns; [apply (uniform_between speed_min speed_max Hs) |].
    intros speed Hsp.
    eapply bind_returns; [apply randint_returns; exact Hl |].
    intros lifetime Hlt.
    eapply weaken_returns; [apply IH |].
    intros self' (new & -> & Hlen & Hall).
    cbv beta. unfold ParticleSystem.add_particle. rewrite <- app_assoc.
    cbn [app].
    match goal with
    | |- exists _, _ ++ ?p :: _ = _ /\ _ => exists (p :: new)
    end.
    split; [reflexivity |]. split; [cbn [List.length]; lia |].
    constructor; [| exact Hall].
    unfold debris, Particle.__init__.
    cbn [Particle.x Particle.y Particle.lifetime Particle.max_lifetime
         Particle.alpha Particle.size Particle.size_end Particle.vx
         Particle.vy fst snd].
    repeat (split; [first [reflexivity | exact Hlt] |]).
    exists speed. split; [exact Hsp |].
    pose proof (sin2_cos2 angle) as Hsc. unfold Rsqr in Hsc. nra.
Qed.

(** X27: for bounds in order, [add_explosion] always returns and
    appends exactly [particle_count] particles (none for a negative
    count) at the given point, each with a lifetime within the lifetime
    bounds, full alpha, the start size, and a velocity whose length is
    some speed within the speed bounds. *)
Theorem add_explosion_adds (self : ParticleSystem.t) (x y : R)
  (particle_count : Z) (speed_min speed_max : R)
  (lifetime_min lifetime_max : Z) (size_start size_end : R) :
  (speed_min <= speed_max)%R -> lifetime_min <= lifetime_max ->
  returns_with
    (fun self' =>
       exists new,
         self' = self ++ new /\
         Problem.len new = Z.max 0 particle_count /\
         Forall (debris x y speed_min speed_max lifetime_min lifetime_max
                   size_start size_end) new)
    (ParticleSystem.add_explosion self x y particle_count speed_min
       speed_max lifetime_min lifetime_max size_start size_end).
Proof.
  intros Hs Hl. unfold ParticleSystem.add_explosion.
  eapply weaken_returns; [apply explode_adds; assumption |].
  intros self' (new & -> & Hlen & Hall).
  exists new. split; [reflexivity |].
  split; [unfold Problem.len; lia | exact Hall].
Qed.

Lemma particle_system_update_safe_witness :
  exists self',
    ParticleSystem.update
      (ParticleSystem.add_particle ParticleSystem.__init__ 10 20 (1, 0)%R 0 3
         0.5) = Ok self' /\
    Forall visible self' /\
    (List.length self' <= 1)%nat.
Proof.
  apply (particle_system_update_safe
           (ParticleSystem.add_particle ParticleSystem.__init__ 10 20
              (1, 0)%R 0 3 0.5)).
  apply built_add. apply built_init.
Defined.

Lemma particle_expires_witness :
  let p := Particle.__init__ 10 20 (1, 0)%R 15 3 0.5 in
  (exists p',
     frames 15 [p] = Ok [p'] /\
     Particle.lifetime p' = 0 /\ Particle.alpha p' = 0 /\
     Particle.size p' = 0.5%R) /\
  frames 16 [p] = Ok [].
Proof. apply (particle_expires 10 20 (1, 0)%R 15 3 0.5). lia. Defined.

Lemma add_explosion_adds_witness :
  returns_with
    (fun self' =>
       exists new,
         self' = ParticleSystem.__init__ ++ new /\
         Problem.len new = Z.max 0 20 /\
         Forall (debris 450 350 2 5 20 40 3 0.5) new)
    (ParticleSystem.add_explosion ParticleSystem.__init__ 450 350 20 2 5
       20 40 3 0.5).
Proof.
  apply (add_explosion_adds ParticleSystem.__init__ 450 350 20 2 5 20 40 3 0.5);
    [lra | lia].
Defined.

End Particles.

(** ** Easing and the steps of an enemy *)

Section Steps.

Local Open Scope R_scope.

Lemma fmod_range (a b : R) : 0 < b -> 0 <= fmod a b < b.
Proof.
  intros Hb. unfold fmod.
  destruct (base_Int_part (a / b)) as [H1 H2].
  set (k := IZR (Int_part (a / b))) in *.
  assert (a = a / b * b) as Ha by (field; lra).
  split.
  - assert (b * k <= a / b * b) by nra. lra.
  - assert (a / b * b < b * k + b) by nra. lra.
Qed.

Lemma ease_out_quad_range (t : R) :
  0 <= t <= 1 -> 0 <= ease_out_quad t <= 1.
Proof. unfold ease_out_quad. intros H. split; nra. Qed.

Lemma ease_in_out_cubic_cases (t : R) :
  0 <= t <= 1 ->
  (t < 0.5 -> 0 <= ease_in_out_cubic t <= 0.5) /\
  (0.5 <= t -> 0.5 <= ease_in_out_cubic t <= 1).
Proof.
  unfold ease_in_out_cubic. intros [H0 H1].
  destruct (Rlt_dec t 0.5) as [Hl | Hg].
  - split; [intros _ | intros; lra].
    assert (0 <= t * t) by nra. assert (t * t <= 0.25) by nra.
    split; nra.
  - split; [intros; lra | intros _].
    set (w := -2 * t + 2).
    assert (0 <= w <= 1) as [Hw0 Hw1] by (unfold w; lra).
    assert (0 <= w * w <= 1) as [Hq0 Hq1] by nra.
    assert (0 <= w * w * w <= 1) by nra.
    lra.
Qed.

(** X28: on [0, 1] both easing functions stay in [0, 1];
    [ease_in_out_cubic] stays in the lower half on arguments below one
    half and in the upper half from one half on; and both take 0 to 0
    and 1 to 1. *)
Theorem easing_range (t : R) :
  0 <= t <= 1 ->
  0 <= ease_out_quad t <= 1 /\
  0 <= ease_in_out_cubic t <= 1 /\
  (t < 0.5 -> ease_in_out_cubic t <= 0.5) /\
  (0.5 <= t -> 0.5 <= ease_in_out_cubic t) /\
  ease_out_quad 0 = 0 /\ ease_out_quad 1 = 1 /\
  ease_in_out_cubic 0 = 0 /\ ease_in_out_cubic 1 = 1.
Proof.
  intros H. destruct (ease_in_out_cubic_cases t H) as [Hlo Hhi].
  split; [exact (ease_out_quad_range t H) |].
  split; [destruct (Rlt_dec t 0.5) as [Hl | Hg];
          [specialize (Hlo Hl) | assert (0.5 <= t) as Hg' by lra;
                                 specialize (Hhi Hg')]; lra |].
  split; [intros Hl; apply Hlo; exact Hl |].
  split; [intros Hg; apply Hhi; exact Hg |].
  unfold ease_out_quad, ease_in_out_cubic.
  destruct (Rlt_dec 0 0.5) as [_ | Hn]; [| exfalso; apply Hn; lra].
  destruct (Rlt_dec 1 0.5) as [Hl | _]; [lra |].
  repeat split; lra.
Qed.

Lemma scaled_le (c v : R) : Rabs c <= 1 -> Rabs (c * v) <= Rabs v.
Proof.
  intros H. rewrite Rabs_mult. pose proof (Rabs_pos v). nra.
Qed.

Lemma cos_le_1 (a : R) : Rabs (cos a) <= 1.
Proof. apply Rabs_le. destruct (COS_bound a). lra. Qed.

Lemma sin_le_1 (a : R) : Rabs (sin a) <= 1.
Proof. apply Rabs_le. destruct (SIN_bound a). lra. Qed.

(** X29: the movement step of a live enemy, before the boundary
    checks, adds the frame time to the movement timer.  A linear enemy
    moves by at most its speed along each axis; a sinusoidal one by at
    most its speed, plus a vertical wave of at most 2; a circular one is
    put within 50 of its centre along each axis; an accelerating one
    moves by at most one and a half times its speed along each axis. *)
Theorem enemy_step (self : Enemy.t) (dt u turn : R) :
  let m := Enemy.move self dt u turn in
  let v := Enemy.speed self in
  Enemy.movement_timer m = Enemy.movement_timer self + dt /\
  match Enemy.movement_type self with
  | linear =>
      exists sx sy,
        Enemy.x m = Enemy.x self + sx /\ Enemy.y m = Enemy.y self + sy /\
        Rabs sx <= Rabs v /\ Rabs sy <= Rabs v
  | sinusoidal =>
      exists sx sy wave,
        Enemy.x m = Enemy.x self + sx /\
        Enemy.y m = Enemy.y self + (sy + wave) /\
        Rabs sx <= Rabs v /\ Rabs sy <= Rabs v /\ Rabs wave <= 2
  | circular =>
      exists ox oy,
        Enemy.x m = Enemy.center_x self + ox /\
        Enemy.y m = Enemy.center_y self + oy /\
        Rabs ox <= 50 /\ Rabs oy <= 50
  | accelerating =>
      exists sx sy,
        Enemy.x m = Enemy.x self + sx /\ Enemy.y m = Enemy.y self + sy /\
        Rabs sx <= Rabs v * 1.5 /\ Rabs sy <= Rabs v * 1.5
  end.
Proof.
  unfold Enemy.move.
  destruct (Enemy.movement_type self);
    cbn [Enemy.with_motion Enemy.x Enemy.y Enemy.movement_timer];
    (split; [reflexivity |]).
  - eexists. eexists. split; [reflexivity |]. split; [reflexivity |].
    split; apply scaled_le; [apply cos_le_1 | apply sin_le_1].
  - eexists. eexists. eexists.
    split; [reflexivity |]. split; [reflexivity |].
    split; [apply scaled_le; apply cos_le_1 |].
    split; [apply scaled_le; apply sin_le_1 |].
    pose proof (sin_le_1 ((Enemy.movement_timer self + dt) * 2)) as Hs.
    rewrite Rabs_mult, (Rabs_right 2) by lra. lra.
  - eexists. eexists. split; [reflexivity |]. split; [reflexivity |].
    split; rewrite Rabs_mult, (Rabs_right 50) by lra;
      [pose proof (cos_le_1 (Enemy.movement_timer self + dt))
      | pose proof (sin_le_1 (Enemy.movement_timer self + dt))]; lra.
  - destruct (fmod_range (Enemy.movement_timer self + dt) 3) as [F0 F3];
      [lra |].
    destruct (ease_out_quad_range
                (fmod (Enemy.movement_timer self + dt) 3 / 3)) as [E0 E1];
      [lra |].
    set (f := ease_out_quad _) in *.
    assert (forall c, Rabs c <= 1 ->
              Rabs (c * Enemy.speed self * f * 1.5)
              <= Rabs (Enemy.speed self) * 1.5) as Hstep.
    { intros c Hc. rewrite !Rabs_mult, (Rabs_right 1.5), (Rabs_right f) by lra.
      pose proof (Rabs_pos (Enemy.speed self)) as Hv.
      pose proof (Rabs_pos c) as Hc0.
      set (a := Rabs c) in *. set (w := Rabs (Enemy.speed self)) in *.
      assert (0 <= a * w <= w) as [Hp0 Hp1] by nra.
      assert (a * w * f <= w) by nra.
      lra. }
    eexists. eexists. split; [reflexivity |]. split; [reflexivity |].
    split; apply Hstep; [apply cos_le_1 | apply sin_le_1].
Qed.

Lemma easing_range_witness :
  0 <= ease_out_quad 0.25 <= 1 /\
  0 <= ease_in_out_cubic 0.25 <= 1 /\
  (0.25 < 0.5 -> ease_in_out_cubic 0.25 <= 0.5) /\
  (0.5 <= 0.25 -> 0.5 <= ease_in_out_cubic 0.25) /\
  ease_out_quad 0 = 0 /\ ease_out_quad 1 = 1 /\
  ease_in_out_cubic 0 = 0 /\ ease_in_out_cubic 1 = 1.
Proof. apply (easing_range 0.25). lra. Defined.

End Steps.

(** ** The earlier variant *)

Section EarlierVariant.

Lemma mem_In (w : Z) (l : list Z) : o1_copy.Game.mem w l = true <-> In w l.
Proof.
  unfold o1_copy.Game.mem. rewrite existsb_exists. split.
  - intros (x & Hin & Heq). apply Z.eqb_eq in Heq. subst. exact Hin.
  - intros H. exists w. split; [exact H | apply Z.eqb_refl].
Qed.

Lemma fresh_snoc (c : Z) (l : list Z) (w : Z) :
  fresh_ints c l -> w <> c -> ~ In w l -> fresh_ints c (l ++ [w]).
Proof.
  induction l as [| a t IH]; intros Hf Hw Hn; cbn [app fresh_ints] in *.
  - repeat split; auto.
  - destruct Hf as (Ha & Hat & Ht). split; [exact Ha |]. split.
    + intros Hin. apply in_app_or in Hin. destruct Hin as [Hin | [<- | []]].
      * exact (Hat Hin).
      * apply Hn. left. reflexivity.
    + apply IH; [exact Ht | exact Hw |]. intros Hin. apply Hn. right. exact Hin.
Qed.

Lemma wrong_answers_from_Ok (fuel : nat) (difficulty correct : Z) :
  forall wa s l s',
    o1_copy.Game.generate_wrong_answers_from fuel difficulty correct wa s
      = Ok (l, s') ->
    (List.length wa <= 3)%nat -> fresh_ints correct wa ->
    Forall (near difficulty correct) wa ->
    List.length l = 3%nat /\ fresh_ints correct l /\
    Forall (near difficulty correct) l.
Proof.
  induction fuel as [| fuel IH]; intros wa s l s' H Hlen Hf Hn;
    cbn [o1_copy.Game.generate_wrong_answers_from] in H;
    destruct (Z.of_nat (List.length wa) <? 3) eqn:E;
    try (apply Z.ltb_ge in E; apply ret_Ok in H; inversion H; subst;
         split; [lia | split; assumption]).
  - discriminate H.
  - apply Z.ltb_lt in E. apply bind_Ok in H.
    destruct H as (u & s1 & _ & H).
    apply bind_Ok in H. destruct H as (w & s2 & Hw & H).
    assert (near difficulty correct w) as Hnear.
    { destruct (Rlt_dec u 0.5) as [Hu | Hu].
      - apply bind_Ok in Hw. destruct Hw as (r & s3 & Hr & Hw).
        apply randint_Ok in Hr. apply ret_Ok in Hw. inversion Hw; subst.
        left. lia.
      - apply bind_Ok in Hw. destruct Hw as (c & s3 & Hc & Hw).
        apply choice_Ok in Hc. apply ret_Ok in Hw. inversion Hw; subst.
        right. destruct Hc as [<- | [<- | []]].
        + right. replace (-1 * correct) with (- correct) by lia. reflexivity.
        + left. replace (1 * correct) with correct by lia. reflexivity. }
    destruct (negb (w =? correct) && negb (o1_copy.Game.mem w wa)) eqn:Hacc.
    + apply andb_true_iff in Hacc. destruct Hacc as [Hne Hnm].
      apply negb_true_iff in Hne, Hnm. apply Z.eqb_neq in Hne.
      apply IH in H; [exact H | | |].
      * rewrite length_app. cbn [List.length]. lia.
      * apply fresh_snoc; [exact Hf | exact Hne |].
        intros Hin. apply mem_In in Hin. congruence.
      * apply Forall_app. split; [exact Hn |]. constructor; [exact Hnear | constructor].
    + apply IH in H; assumption.
Qed.

Lemma wrong_answer_step (fuel : nat) (difficulty correct : Z)
  (wa : list Z) (s : Source) (k : Z) :
  1 <= difficulty -> 1 <= k <= 3 -> (List.length wa < 3)%nat ->
  reals s 0%nat = 0%R -> ints s 0%nat = 5 * difficulty + k ->
  o1_copy.Game.mem (correct + k) wa = false ->
  o1_copy.Game.generate_wrong_answers_from (S fuel) difficulty correct wa s
  = o1_copy.Game.generate_wrong_answers_from fuel difficulty correct
      (wa ++ [correct + k])
      (mkSource (fun n => ints s (S n)) (fun n => reals s (S n))).
Proof.
  intros Hd Hk Hlen Hr Hi Hm.
  cbn [o1_copy.Game.generate_wrong_answers_from].
  replace (Z.of_nat (List.length wa) <? 3) with true
    by (symmetry; apply Z.ltb_lt; lia).
  unfold bind at 1. cbv [random.random random.next_real bind ret].
  rewrite Hr, fp_R0.
  destruct (Rlt_dec 0 0.5) as [_ | Hn]; [| exfalso; apply Hn; lra].
  unfold random.randint.
  replace (5 * difficulty <? -5 * difficulty) with false
    by (symmetry; apply Z.ltb_ge; lia).
  cbv [bind random.next_int ret]. cbn [ints reals]. rewrite Hi.
  replace (-5 * difficulty
           + (5 * difficulty + k) mod (5 * difficulty - -5 * difficulty + 1))
    with k by (rewrite Z.mod_small by lia; lia).
  rewrite Hm.
  replace (correct + k =? correct) with false
    by (symmetry; apply Z.eqb_neq; lia).
  reflexivity.
Qed.

Lemma next_three_run (difficulty correct : Z) :
  1 <= difficulty ->
  exists s',
    o1_copy.Game.generate_wrong_answers 3 difficulty correct
      (next_three difficulty)
    = Ok ([correct + 1; correct + 2; correct + 3], s').
Proof.
  intros Hd. unfold o1_copy.Game.generate_wrong_answers, next_three.
  rewrite (wrong_answer_step 2 difficulty correct [] _ 1);
    [| lia | lia | cbn; lia | reflexivity | reflexivity | reflexivity].
  rewrite (wrong_answer_step 1 difficulty correct _ _ 2);
    [| lia | lia | cbn; lia | reflexivity | reflexivity | ].
  2:{ cbn [app o1_copy.Game.mem existsb orb].
      replace (correct + 2 =? correct + 1) with false
        by (symmetry; apply Z.eqb_neq; lia).
      reflexivity. }
  rewrite (wrong_answer_step 0 difficulty correct _ _ 3);
    [| lia | lia | cbn; lia | reflexivity | reflexivity | ].
  2:{ cbn [app o1_copy.Game.mem existsb orb].
      replace (correct + 3 =? correct + 1) with false
        by (symmetry; apply Z.eqb_neq; lia).
      replace (correct + 3 =? correct + 2) with false
        by (symmetry; apply Z.eqb_neq; lia).
      reflexivity. }
  eexists. reflexivity.
Qed.

(** X30: in the earlier variant ([pygame_o1 copy.py]), for a game of
    difficulty at least 1, whenever [generate_wrong_answers(correct)]
    returns it holds three ints, no two equal and none equal to
    [correct], each within [5 * difficulty] of [correct] or off by
    [correct // 2] or [-correct // 2]; and for every [correct], zero
    included, some run returns. *)
Theorem earlier_wrong_answers (difficulty correct : Z) :
  1 <= difficulty ->
  (forall fuel src l src',
     o1_copy.Game.generate_wrong_answers fuel difficulty correct src
       = Ok (l, src') ->
     List.length l = 3%nat /\ fresh_ints correct l /\
     Forall (near difficulty correct) l) /\
  exists s',
    o1_copy.Game.generate_wrong_answers 3 difficulty correct
      (next_three difficulty)
    = Ok ([correct + 1; correct + 2; correct + 3], s').
Proof.
  intros Hd. split; [| apply next_three_run; exact Hd].
  intros fuel src l src' H.
  apply wrong_answers_from_Ok in H; [exact H | cbn; lia | exact I | constructor].
Qed.

Lemma earlier_wrong_answers_witness :
  (forall fuel src l src',
     o1_copy.Game.generate_wrong_answers fuel 1 0 src = Ok (l, src') ->
     List.length l = 3%nat /\ fresh_ints 0 l /\ Forall (near 1 0) l) /\
  exists s',
    o1_copy.Game.generate_wrong_answers 3 1 0 (next_three 1)
    = Ok ([0 + 1; 0 + 2; 0 + 3], s').
Proof. apply (earlier_wrong_answers 1 0). lia. Defined.

End EarlierVariant.
